(** * RadioWave: a shallow embedding of the radio web application

    The development follows the source modules one for one:
    [JS] (the string primitives the code calls), [RadioAPI] (api.js),
    [StationsUI] (stations.js), [Favorites] (favorites.js), [Player]
    (player.js) and [App] (app.js).

    Conventions.
    - A JavaScript string is a [string]: a sequence of code units, here the
      code units 0..255.  White space and letter case are those of that range.
    - Module-level [let] variables become the fields of a state record, and a
      function that mutates them becomes a function from state to state.
    - Promises, timers and DOM events become explicit pending tasks and an
      event type; a run of the program is a fold of the handler over a list
      of events. *)

From Stdlib Require Import String Ascii List Bool Arith ZArith Lia.
Import ListNotations.
Open Scope string_scope.

(* ===================================================================== *)
(** ** JavaScript string primitives *)
(* ===================================================================== *)

Module JS.

(** White space and line terminators recognised by [String.prototype.trim]
    among the code units 0..255: TAB, LF, VT, FF, CR, SP and NBSP. *)
Definition isWhiteSpace (c : ascii) : bool :=
  let n := nat_of_ascii c in
  (((9 <=? n) && (n <=? 13)) || (n =? 32) || (n =? 160))%nat.

Fixpoint trimStart (s : string) : string :=
  match s with
  | EmptyString => EmptyString
  | String c r => if isWhiteSpace c then trimStart r else s
  end.

(** Drops the trailing white space: a character is kept when something
    that is kept follows it, or when it is not white space itself. *)
Fixpoint trimEnd (s : string) : string :=
  match s with
  | EmptyString => EmptyString
  | String c r =>
      match trimEnd r with
      | EmptyString => if isWhiteSpace c then EmptyString else String c EmptyString
      | r' => String c r'
      end
  end.

Definition trim (s : string) : string := trimEnd (trimStart s).

(** Truthiness of a string: the empty string is the only falsy one. *)
Definition truthy (s : string) : bool :=
  match s with EmptyString => false | _ => true end.

(** [a || b] on strings. *)
Definition or_else (a b : string) : string := if truthy a then a else b.

(** [a || b] where [a] may be [undefined]. *)
Definition opt_or (a : option string) (b : string) : string :=
  match a with
  | Some s => or_else s b
  | None => b
  end.

(** Truthiness of a string that may be [null] or [undefined]. *)
Definition opt_truthy (a : option string) : bool :=
  match a with
  | Some s => truthy s
  | None => false
  end.

(** [a || b] where both may be [undefined]. *)
Definition or_opt (a b : option string) : option string :=
  match a with
  | Some s => if truthy s then a else b
  | None => b
  end.

Definition lowerChar (c : ascii) : ascii :=
  let n := nat_of_ascii c in
  if (((65 <=? n) && (n <=? 90))
      || ((192 <=? n) && (n <=? 222) && negb (n =? 215)))%nat
  then ascii_of_nat (n + 32) else c.

Fixpoint toLowerCase (s : string) : string :=
  match s with
  | EmptyString => EmptyString
  | String c r => String (lowerChar c) (toLowerCase r)
  end.

(** [s.includes(sub)]. *)
Fixpoint includes (s sub : string) : bool :=
  prefix sub s ||
  match s with
  | EmptyString => false
  | String _ r => includes r sub
  end.

(** [s.split(sep)] for a one-character separator: always at least one
    piece, the pieces between consecutive separators. *)
Fixpoint split (sep : ascii) (s : string) : list string :=
  match s with
  | EmptyString => [EmptyString]
  | String c r =>
      if Ascii.eqb c sep then EmptyString :: split sep r
      else match split sep r with
           | [] => [String c EmptyString]
           | p :: ps => String c p :: ps
           end
  end.

(** [s.replace(/c/g, rep)] for a one-character pattern and a replacement
    without [$] patterns. *)
Fixpoint replaceAll (c : ascii) (rep : string) (s : string) : string :=
  match s with
  | EmptyString => EmptyString
  | String d r =>
      if Ascii.eqb d c then rep ++ replaceAll c rep r
      else String d (replaceAll c rep r)
  end.

(** [arr.slice(0, n)]. *)
Definition slice0 {A} (n : nat) (l : list A) : list A := firstn n l.

(** The suffix of [s] that starts at index [n]. *)
Fixpoint drop (n : nat) (s : string) : string :=
  match n, s with
  | O, _ => s
  | S m, EmptyString => EmptyString
  | S m, String _ r => drop m r
  end.

(** The double quote character, code unit 34. *)
Definition dquote : ascii := ascii_of_nat 34.

(** The values a dynamically typed argument can take, as far as the code
    of this repository tells them apart. *)
Inductive value :=
| VUndefined
| VNull
| VBool (b : bool)
| VNumber (n : Z)
| VString (s : string)
| VObject (ref : nat).

End JS.

(* ===================================================================== *)
(** ** The internal station format *)
(* ===================================================================== *)

Module Station.

(** A station object in the application's own format.  [favLanguage] is
    the one optional property: it is added when a station is saved as a
    favourite and is absent from search results. *)
Record t := mk {
  id : string;
  name : string;
  logo : string;
  country : string;
  countryCode : string;
  language : string;
  genre : string;
  tags : list string;
  url : string;
  homepage : string;
  bitrate : Z;
  codec : string;
  votes : Z;
  clickCount : Z;
  favLanguage : option string
}.

(** [{ ...s, favLanguage: v }]. *)
Definition withFavLanguage (s : t) (v : string) : t :=
  mk (id s) (name s) (logo s) (country s) (countryCode s) (language s)
     (genre s) (tags s) (url s) (homepage s) (bitrate s) (codec s)
     (votes s) (clickCount s) (Some v).

End Station.

(* ===================================================================== *)
(** ** api.js: the Radio Browser client *)
(* ===================================================================== *)

Module Raw.

(** A station as the directory returns it.  Every property may be missing
    from the JSON object. *)
Record t := mk {
  stationuuid : option string;
  name : option string;
  favicon : option string;
  country : option string;
  countrycode : option string;
  language : option string;
  tags : option string;
  url_resolved : option string;
  url : option string;
  homepage : option string;
  bitrate : option Z;
  codec : option string;
  votes : option Z;
  clickcount : option Z
}.

End Raw.

Module RadioAPI.
Import JS.

Definition SERVERS : list string :=
  [ "https://de1.api.radio-browser.info";
    "https://nl1.api.radio-browser.info";
    "https://at1.api.radio-browser.info" ].

(** The outcome of a promise. *)
Inductive settled (A : Type) :=
| Fulfilled (v : A)
| Rejected.
Arguments Fulfilled {A} v.
Arguments Rejected {A}.

(** A GET request as [get] sends it: the full URL without the query
    string, and the query parameters that were set. *)
Record request := mkRequest {
  req_url : string;
  req_params : list (string * value)
}.

(** The network: what the directory answers to a request. *)
Definition network := request -> settled (list Raw.t).

(** [init]: the first server that answers becomes the base URL; when none
    does, the base URL stays. *)
Definition init (answers : string -> bool) (baseUrl : string) : string :=
  match find answers SERVERS with
  | Some server => server
  | None => baseUrl
  end.

(** The test of [get] on a parameter: [undefined], [null] and the empty
    string are not sent. *)
Definition isSet (v : value) : bool :=
  match v with
  | VUndefined | VNull => false
  | VString s => truthy s
  | _ => true
  end.

Definition get (net : network) (baseUrl path : string)
    (params : list (string * value)) : settled (list Raw.t) :=
  net (mkRequest (baseUrl ++ path) (filter (fun kv => isSet (snd kv)) params)).

(** [mapGenre]: the first keyword group found in the lower-cased tags. *)
Definition mapGenre (tags : string) : string :=
  let t := toLowerCase tags in
  if includes t "jazz" || includes t "blues" then "Jazz"
  else if includes t "class" then "Classical"
  else if includes t "rock" || includes t "metal" || includes t "punk" then "Rock"
  else if includes t "electronic" || includes t "edm" || includes t "dance"
          || includes t "techno" then "Electronic"
  else if includes t "news" || includes t "talk" || includes t "speech" then "News"
  else if includes t "pop" || includes t "hit" then "Pop"
  else if includes t "local" || includes t "regional" then "Local"
  else "Various".

(** [n || 0] on a number that may be missing. *)
Definition num_or (a : option Z) (d : Z) : Z :=
  match a with
  | Some 0%Z => d
  | Some n => n
  | None => d
  end.

(** A template literal's rendering of a property that may be missing. *)
Definition template (a : option string) : string :=
  match a with
  | Some s => s
  | None => "undefined"
  end.

Definition normalize (s : Raw.t) : Station.t :=
  {| Station.id := "api-" ++ template (Raw.stationuuid s);
     Station.name := opt_or (Raw.name s) "Unknown";
     Station.logo := opt_or (Raw.favicon s) EmptyString;
     Station.country := opt_or (Raw.country s) EmptyString;
     Station.countryCode := opt_or (Raw.countrycode s) EmptyString;
     Station.language := opt_or (Raw.language s) EmptyString;
     Station.genre := mapGenre (opt_or (Raw.tags s) EmptyString);
     Station.tags :=
       slice0 5 (filter truthy
                   (map trim (split "," (opt_or (Raw.tags s) EmptyString))));
     Station.url :=
       opt_or (or_opt (Raw.url_resolved s) (Raw.url s)) EmptyString;
     Station.homepage := opt_or (Raw.homepage s) EmptyString;
     Station.bitrate := num_or (Raw.bitrate s) 0;
     Station.codec := opt_or (Raw.codec s) EmptyString;
     Station.votes := num_or (Raw.votes s) 0;
     Station.clickCount := num_or (Raw.clickcount s) 0;
     Station.favLanguage := None |}.

(** The argument object of [search], with the defaults of its
    destructuring pattern. *)
Record searchOpts := mkOpts {
  query : string;
  language : string;
  country : string;
  genre : string;
  limit : Z
}.

Definition defaultOpts : searchOpts :=
  mkOpts EmptyString EmptyString EmptyString EmptyString 40.

Definition eqb_uuid (a b : option string) : bool :=
  match a, b with
  | Some x, Some y => String.eqb x y
  | None, None => true
  | _, _ => false
  end.

(** [seen.has(u)] for [seen = new Set(byName.map(s => s.stationuuid))]. *)
Definition seenHas (byName : list Raw.t) (u : option string) : bool :=
  existsb (fun s => eqb_uuid (Raw.stationuuid s) u) byName.

(** The value of a settled request, the empty list when it failed. *)
Definition valueOrEmpty (r : settled (list Raw.t)) : list Raw.t :=
  match r with
  | Fulfilled v => v
  | Rejected => []
  end.

Definition common (o : searchOpts) : list (string * value) :=
  [ ("language", VString (language o));
    ("country", VString (country o));
    ("limit", VNumber (limit o));
    ("order", VString "clickcount");
    ("reverse", VString "true");
    ("hidebroken", VString "true") ].

Definition tagFromGenre (o : searchOpts) : string :=
  if truthy (genre o) && negb (String.eqb (genre o) "all")
  then toLowerCase (genre o) else EmptyString.

(** The two requests of a text search. *)
Definition nameRequest (net : network) (baseUrl : string) (o : searchOpts) :=
  get net baseUrl "/json/stations/search"
      (common o ++ [ ("name", VString (trim (query o)));
                     ("tag", VString (tagFromGenre o)) ])%list.

Definition tagRequest (net : network) (baseUrl : string) (o : searchOpts) :=
  get net baseUrl "/json/stations/search"
      (common o ++ [ ("tag", VString (trim (query o))) ])%list.

(** The local [raw] of [search]: the merged answers of the name and the
    tag request when there is a text query, the answer of one browse
    request otherwise.  The browse request is awaited without a guard, so
    its failure is the failure of [search]. *)
Definition rawResults (net : network) (baseUrl : string) (o : searchOpts)
    : settled (list Raw.t) :=
  if truthy (trim (query o)) then
    let byName := valueOrEmpty (nameRequest net baseUrl o) in
    let byTag := valueOrEmpty (tagRequest net baseUrl o) in
    Fulfilled
      (byName ++ filter (fun s => negb (seenHas byName (Raw.stationuuid s))) byTag)%list
  else
    get net baseUrl "/json/stations/search"
        (common o ++ [ ("tag", VString (tagFromGenre o)) ])%list.

Definition search (net : network) (baseUrl : string) (o : searchOpts)
    : settled (list Station.t) :=
  match rawResults net baseUrl o with
  | Fulfilled raw =>
      Fulfilled (filter (fun s => truthy (Station.url s)) (map normalize raw))
  | Rejected => Rejected
  end.

(** The genres [mapGenre] can return. *)
Definition GENRES : list string :=
  [ "Jazz"; "Classical"; "Rock"; "Electronic"; "News"; "Pop"; "Local"; "Various" ].

(** The stationuuids of a raw list, in order. *)
Definition uuids (l : list Raw.t) : list (option string) :=
  map Raw.stationuuid l.

(** A missing or empty text property. *)
Definition blank (a : option string) : Prop := a = None \/ a = Some EmptyString.

(** A missing or zero numeric property. *)
Definition zeroish (a : option Z) : Prop := a = None \/ a = Some 0%Z.

(** How a text property travels through [normalize]: a blank one becomes
    the default, any other one is kept. *)
Definition textField (a : option string) (d out : string) : Prop :=
  (blank a -> out = d) /\ (forall v, a = Some v -> v <> EmptyString -> out = v).

Definition numField (a : option Z) (out : Z) : Prop :=
  (zeroish a -> out = 0%Z) /\ (forall v, a = Some v -> out = v).

End RadioAPI.

(* ===================================================================== *)
(** ** stations.js: the card renderer's HTML escape *)
(* ===================================================================== *)

Module StationsUI.
Import JS.

(** The chain of five [replace] calls of [escapeHtml], on a string. *)
Definition escapeHtmlString (str : string) : string :=
  replaceAll "'" "&#039;"
    (replaceAll dquote "&quot;"
      (replaceAll ">" "&gt;"
        (replaceAll "<" "&lt;"
          (replaceAll "&" "&amp;" str)))).

(** [escapeHtml(str)]: a non-string is returned as it is, [null] and
    [undefined] as the empty string ([str ?? '']). *)
Definition escapeHtml (str : value) : value :=
  match str with
  | VString s => VString (escapeHtmlString s)
  | VUndefined | VNull => VString EmptyString
  | v => v
  end.

(** The five entities the escape produces. *)
Definition entities : list string :=
  ["&amp;"; "&lt;"; "&gt;"; "&quot;"; "&#039;"].

Definition startsEntity (s : string) : bool :=
  existsb (fun e => prefix e s) entities.

Definition isRaw (c : ascii) : bool :=
  Ascii.eqb c "<" || Ascii.eqb c ">" || Ascii.eqb c dquote || Ascii.eqb c "'".

(** What one source character becomes. *)
Definition escapeChar (c : ascii) : string :=
  if Ascii.eqb c "&" then "&amp;"
  else if Ascii.eqb c "<" then "&lt;"
  else if Ascii.eqb c ">" then "&gt;"
  else if Ascii.eqb c dquote then "&quot;"
  else if Ascii.eqb c "'" then "&#039;"
  else String c EmptyString.

(** A string is clean when it has no raw character and each of its
    ampersands opens an entity. *)
Fixpoint clean (s : string) : Prop :=
  match s with
  | EmptyString => True
  | String c r =>
      isRaw c = false /\
      (c = "&"%char -> startsEntity s = true) /\
      clean r
  end.

End StationsUI.

(* ===================================================================== *)
(** ** favorites.js: the favourites store *)
(* ===================================================================== *)

(** A [Set] of strings: its elements in insertion order, each once. *)
Module StrSet.

Definition t := list string.

Definition has (s : t) (x : string) : bool := existsb (String.eqb x) s.

Definition add (s : t) (x : string) : t := if has s x then s else (s ++ [x])%list.

Definition delete (s : t) (x : string) : t :=
  filter (fun y => negb (String.eqb y x)) s.

(** [new Set(array)]. *)
Definition ofList (l : list string) : t := fold_left add l [].

End StrSet.

(** An object used as a map from ids to stations: its properties in
    insertion order.  The ids of this application ("api-...") are not
    array indices, so property order is insertion order. *)
Module Obj.

Definition t := list (string * Station.t).

Fixpoint get (m : t) (k : string) : option Station.t :=
  match m with
  | [] => None
  | (k', v) :: r => if String.eqb k' k then Some v else get r k
  end.

(** [m[k] = v]: an existing property keeps its place. *)
Fixpoint set (m : t) (k : string) (v : Station.t) : t :=
  match m with
  | [] => [(k, v)]
  | (k', v') :: r =>
      if String.eqb k' k then (k', v) :: r else (k', v') :: set r k v
  end.

(** [delete m[k]]. *)
Definition delete (m : t) (k : string) : t :=
  filter (fun kv => negb (String.eqb (fst kv) k)) m.

Definition keys (m : t) : list string := map fst m.
Definition values (m : t) : list Station.t := map snd m.

End Obj.

Module Favorites.
Import JS.

(** What [localStorage] holds under a key whose value is written with
    [JSON.stringify]: nothing, the JSON text of a value, or a text on
    which [JSON.parse] throws. *)
Inductive item (A : Type) :=
| Absent
| Json (v : A)
| Malformed.
Arguments Absent {A}.
Arguments Json {A} v.
Arguments Malformed {A}.

(** The part of [localStorage] the module uses, one field per key:
    'radiowave_favourites', 'radiowave_extra_stations' and
    'radiowave_defaults_seeded'.  [quotaExceeded] tells whether [setItem]
    throws; the three writers of this module catch that exception. *)
Record localStorage := mkStorage {
  favourites : item (list string);
  extra_stations : item Obj.t;
  defaults_seeded : option string;
  quotaExceeded : bool
}.

Record state := mkState {
  favIds : StrSet.t;
  extraMap : Obj.t;
  storage : localStorage
}.

(* ---- persist helpers ---- *)

Definition loadIds (ls : localStorage) : StrSet.t :=
  match favourites ls with
  | Json l => StrSet.ofList l
  | Absent | Malformed => []
  end.

Definition saveIds (set : StrSet.t) (ls : localStorage) : localStorage :=
  if quotaExceeded ls then ls
  else mkStorage (Json set) (extra_stations ls) (defaults_seeded ls)
                 (quotaExceeded ls).

Definition loadExtra (ls : localStorage) : Obj.t :=
  match extra_stations ls with
  | Json m => m
  | Absent | Malformed => []
  end.

Definition saveExtra (map : Obj.t) (ls : localStorage) : localStorage :=
  if quotaExceeded ls then ls
  else mkStorage (favourites ls) (Json map) (defaults_seeded ls)
                 (quotaExceeded ls).

(* ---- default stations seeded on first visit ---- *)

Definition DEFAULT_EXTRA : Obj.t :=
  [ ("api-96683d44-c7f1-47d3-a9c5-f7d0c65d8b66",
     Station.mk "api-96683d44-c7f1-47d3-a9c5-f7d0c65d8b66"
       "Zaycev.FM Relax"
       "https://pcradio.ru/images/stations/61b09c6e8cebd.jpg"
       "The Russian Federation" "RU" EmptyString "Various"
       ["chill"; "lounge"; "relax"]
       "https://abs.zaycev.fm/relax128k" "https://www.zaycev.fm/relax"
       0 "MP3" 53 5 (Some "Russian"));
    ("api-c004dd47-2dab-47af-bdad-6c9226ea5b3b",
     Station.mk "api-c004dd47-2dab-47af-bdad-6c9226ea5b3b"
       "Zaycev.FM NewRock"
       "https://top-radio.ru/assets/image/radio/180/zaycev-new-rock.jpg"
       "The Russian Federation" "RU" EmptyString "Rock"
       ["alternative rock"; "rock"]
       "https://abs.zaycev.fm/rock128k" "https://www.zaycev.fm/rock"
       0 "MP3" 22 1 (Some "Russian"));
    ("api-32fc6c88-c5cb-4e5c-aecf-833bfe89eaf1",
     Station.mk "api-32fc6c88-c5cb-4e5c-aecf-833bfe89eaf1"
       "Zaycev.FM Pop"
       "https://pcradio.ru/images/stations/61b09c69159cc.jpg"
       "The Russian Federation" "RU" EmptyString "Pop"
       ["hits"; "pop music"]
       "https://abs.zaycev.fm/pop128k" "https://www.zaycev.fm/pop"
       0 "MP3" 33 0 (Some "Russian"));
    ("api-9606f727-0601-11e8-ae97-52543be04c81",
     Station.mk "api-9606f727-0601-11e8-ae97-52543be04c81"
       "1LIVE"
       "https://www1.wdr.de/radio/1live/resources/img/favicon/apple-touch-icon.png"
       "Germany" "DE" "german" "Rock"
       ["ard"; "public radio"; "rock"; "top 40"; "wdr"]
       "http://wdr-1live-live.icecast.wdr.de/wdr/1live/live/mp3/128/stream.mp3"
       "https://einslive.de/"
       128 "MP3" 29899 252 (Some "German")) ].

Definition DEFAULT_IDS : list string := Obj.keys DEFAULT_EXTRA.

(** [arr.includes(x)]. *)
Definition arrayIncludes (arr : list string) (x : string) : bool :=
  existsb (String.eqb x) arr.

(** The body of the [forEach] of [seedDefaults], for one default. *)
Definition seedOne (acc : Obj.t * StrSet.t) (kv : string * Station.t)
    : Obj.t * StrSet.t :=
  (Obj.set (fst acc) (fst kv) (snd kv), StrSet.add (snd acc) (fst kv)).

Definition seedDefaults (ls : localStorage) : localStorage :=
  if opt_truthy (defaults_seeded ls) then ls
  else
    let merged := fold_left seedOne DEFAULT_EXTRA (loadExtra ls, loadIds ls) in
    let ls1 := saveExtra (fst merged) ls in
    let ls2 := saveIds (snd merged) ls1 in
    if quotaExceeded ls2 then ls2
    else mkStorage (favourites ls2) (extra_stations ls2) (Some "1")
                   (quotaExceeded ls2).

(* ---- public API ---- *)

Definition has (st : state) (id : string) : bool := StrSet.has (favIds st) id.

Definition isDefault (id : string) : bool := arrayIncludes DEFAULT_IDS id.

(** [toggle(id, stationObj, favLanguage)]; the two optional arguments are
    [None] when they are left out or null. *)
Definition toggle (id : string) (stationObj : option Station.t)
    (favLanguage : option string) (st : state) : state :=
  if StrSet.has (favIds st) id then
    if arrayIncludes DEFAULT_IDS id then st
    else
      let ids := StrSet.delete (favIds st) id in
      match Obj.get (extraMap st) id with
      | Some _ =>
          let m := Obj.delete (extraMap st) id in
          mkState ids m (saveIds ids (saveExtra m (storage st)))
      | None =>
          mkState ids (extraMap st) (saveIds ids (storage st))
      end
  else
    let ids := StrSet.add (favIds st) id in
    match stationObj with
    | Some obj =>
        let m := Obj.set (extraMap st) id
                   (Station.withFavLanguage obj (opt_or favLanguage "other")) in
        mkState ids m (saveIds ids (saveExtra m (storage st)))
    | None =>
        mkState ids (extraMap st) (saveIds ids (storage st))
    end.

Definition getAll (st : state) : list string := favIds st.

Definition count (st : state) : nat := length (favIds st).

(** [{ favLanguage: 'other', ...s }]: the default applies when the
    property is absent. *)
Definition withDefaultLanguage (s : Station.t) : Station.t :=
  match Station.favLanguage s with
  | Some _ => s
  | None => Station.withFavLanguage s "other"
  end.

Definition getSavedStations (st : state) : list Station.t :=
  map withDefaultLanguage
      (filter (fun s => StrSet.has (favIds st) (Station.id s))
              (Obj.values (extraMap st))).

(** [prune]: drops the saved stations whose key is not a favourite and
    writes the map back when one was dropped. *)
Definition prune (st : state) : state :=
  let dirty :=
    existsb (fun id => negb (StrSet.has (favIds st) id)) (Obj.keys (extraMap st)) in
  let m := filter (fun kv => StrSet.has (favIds st) (fst kv)) (extraMap st) in
  if dirty then mkState (favIds st) m (saveExtra m (storage st))
  else st.

(** The module body, run once when the page loads: seed, read the two
    keys, prune. *)
Definition load (ls : localStorage) : state :=
  let ls1 := seedDefaults ls in
  prune (mkState (loadIds ls1) (loadExtra ls1) ls1).

(** One call of [toggle] with its arguments. *)
Record call := mkCall {
  call_id : string;
  call_station : option Station.t;
  call_language : option string
}.

Definition apply (st : state) (c : call) : state :=
  toggle (call_id c) (call_station c) (call_language c) st.

(** The state after the page load and a sequence of calls. *)
Definition session (ls : localStorage) (calls : list call) : state :=
  fold_left apply calls (load ls).

(** The state in which every default is a favourite. *)
Definition seeded (st : state) : Prop :=
  forall id, In id DEFAULT_IDS -> StrSet.has (favIds st) id = true.

(** What holds of the module state between calls when the storage takes
    writes: the set has no repetition, every saved station is a favourite,
    both keys hold what is in memory, and the seeding flag is set. *)
Record invariant (st : state) : Prop := mkInvariant {
  inv_nodup : NoDup (favIds st);
  inv_keys : forall k, In k (Obj.keys (extraMap st)) ->
                       StrSet.has (favIds st) k = true;
  inv_ids : loadIds (storage st) = favIds st;
  inv_extra : loadExtra (storage st) = extraMap st;
  inv_flag : opt_truthy (defaults_seeded (storage st)) = true;
  inv_quota : quotaExceeded (storage st) = false
}.

End Favorites.

(* ===================================================================== *)
(** ** player.js: the player controller *)
(* ===================================================================== *)

(** Volume, mute, the media-session metadata and the texts written into
    the page take no part in the playback lifecycle and are left out of
    the state.  The media-session action handlers and the keyboard
    shortcuts call [togglePlay], [playPrev] and [playNext], which are
    events of their own below. *)

Module Player.
Import JS.

(** The argument of [setStatus]: 'idle', 'loading', 'live' or 'error'. *)
Inductive status := Idle | Loading | Live | Error.

(** What is pending in the browser on behalf of the player.  A promise of
    [play] and the timer and promise of its retry carry the serial number
    of the [play] call they come from; the number plays no part in what
    the handlers do. *)
Inductive task :=
| PlayPromise (call : nat)    (* audio.play() in play(), with then and catch *)
| RetryTimer (call : nat)     (* setTimeout(..., 1500) in the catch of play() *)
| RetryPromise (call : nat)   (* audio.play() in the timer, with catch *)
| ResumePromise               (* audio.play() in togglePlay(), then and catch *)
| WakeLockRequest.            (* navigator.wakeLock.request('screen') *)

(** The two optional browser interfaces the code tests for. *)
Record navigator := mkNavigator {
  hasWakeLock : bool;         (* 'wakeLock' in navigator *)
  hasMediaSession : bool      (* 'mediaSession' in navigator *)
}.

Definition MAX_RETRIES : nat := 2.

Record state := mkState {
  _currentStation : option Station.t;   (* the module's variables *)
  _playlist : list Station.t;
  _isPlaying : bool;
  _retryCount : nat;
  _wakeLock : option nat;   (* the sentinel held, by serial number *)
  playerHidden : bool;   (* the page: playerEl().hidden *)
  statusShown : status;   (* the class set by setStatus *)
  playIcon : bool;   (* setPlayIcon: true shows the pause icon *)
  audioSrc : string;   (* audio.src *)
  playbackState : option bool;   (* mediaSession.playbackState is 'playing' *)
  nav : navigator;   (* the browser *)
  pending : list task;
  sentinels : nat;   (* wake locks granted so far *)
  calls : nat;   (* calls of play() that started a load *)
  retried : list nat   (* the calls whose retry timer has run *)
}.

(** Field updates. *)

Definition set__currentStation (v : option Station.t) (st : state) : state :=
  mkState v (_playlist st) (_isPlaying st) (_retryCount st) (_wakeLock st)
    (playerHidden st) (statusShown st) (playIcon st) (audioSrc st)
    (playbackState st) (nav st) (pending st) (sentinels st) (calls st)
    (retried st).

Definition set__playlist (v : list Station.t) (st : state) : state :=
  mkState (_currentStation st) v (_isPlaying st) (_retryCount st) (_wakeLock
    st) (playerHidden st) (statusShown st) (playIcon st) (audioSrc st)
    (playbackState st) (nav st) (pending st) (sentinels st) (calls st)
    (retried st).

Definition set__isPlaying (v : bool) (st : state) : state :=
  mkState (_currentStation st) (_playlist st) v (_retryCount st) (_wakeLock
    st) (playerHidden st) (statusShown st) (playIcon st) (audioSrc st)
    (playbackState st) (nav st) (pending st) (sentinels st) (calls st)
    (retried st).

Definition set__retryCount (v : nat) (st : state) : state :=
  mkState (_currentStation st) (_playlist st) (_isPlaying st) v (_wakeLock
    st) (playerHidden st) (statusShown st) (playIcon st) (audioSrc st)
    (playbackState st) (nav st) (pending st) (sentinels st) (calls st)
    (retried st).

Definition set__wakeLock (v : option nat) (st : state) : state :=
  mkState (_currentStation st) (_playlist st) (_isPlaying st) (_retryCount
    st) v (playerHidden st) (statusShown st) (playIcon st) (audioSrc st)
    (playbackState st) (nav st) (pending st) (sentinels st) (calls st)
    (retried st).

Definition set_playerHidden (v : bool) (st : state) : state :=
  mkState (_currentStation st) (_playlist st) (_isPlaying st) (_retryCount
    st) (_wakeLock st) v (statusShown st) (playIcon st) (audioSrc st)
    (playbackState st) (nav st) (pending st) (sentinels st) (calls st)
    (retried st).

Definition set_statusShown (v : status) (st : state) : state :=
  mkState (_currentStation st) (_playlist st) (_isPlaying st) (_retryCount
    st) (_wakeLock st) (playerHidden st) v (playIcon st) (audioSrc st)
    (playbackState st) (nav st) (pending st) (sentinels st) (calls st)
    (retried st).

Definition set_playIcon (v : bool) (st : state) : state :=
  mkState (_currentStation st) (_playlist st) (_isPlaying st) (_retryCount
    st) (_wakeLock st) (playerHidden st) (statusShown st) v (audioSrc st)
    (playbackState st) (nav st) (pending st) (sentinels st) (calls st)
    (retried st).

Definition set_audioSrc (v : string) (st : state) : state :=
  mkState (_currentStation st) (_playlist st) (_isPlaying st) (_retryCount
    st) (_wakeLock st) (playerHidden st) (statusShown st) (playIcon st) v
    (playbackState st) (nav st) (pending st) (sentinels st) (calls st)
    (retried st).

Definition set_playbackState (v : option bool) (st : state) : state :=
  mkState (_currentStation st) (_playlist st) (_isPlaying st) (_retryCount
    st) (_wakeLock st) (playerHidden st) (statusShown st) (playIcon st)
    (audioSrc st) v (nav st) (pending st) (sentinels st) (calls st) (retried
    st).

Definition set_pending (v : list task) (st : state) : state :=
  mkState (_currentStation st) (_playlist st) (_isPlaying st) (_retryCount
    st) (_wakeLock st) (playerHidden st) (statusShown st) (playIcon st)
    (audioSrc st) (playbackState st) (nav st) v (sentinels st) (calls st)
    (retried st).

Definition set_sentinels (v : nat) (st : state) : state :=
  mkState (_currentStation st) (_playlist st) (_isPlaying st) (_retryCount
    st) (_wakeLock st) (playerHidden st) (statusShown st) (playIcon st)
    (audioSrc st) (playbackState st) (nav st) (pending st) v (calls st)
    (retried st).

Definition set_calls (v : nat) (st : state) : state :=
  mkState (_currentStation st) (_playlist st) (_isPlaying st) (_retryCount
    st) (_wakeLock st) (playerHidden st) (statusShown st) (playIcon st)
    (audioSrc st) (playbackState st) (nav st) (pending st) (sentinels st) v
    (retried st).

Definition set_retried (v : list nat) (st : state) : state :=
  mkState (_currentStation st) (_playlist st) (_isPlaying st) (_retryCount
    st) (_wakeLock st) (playerHidden st) (statusShown st) (playIcon st)
    (audioSrc st) (playbackState st) (nav st) (pending st) (sentinels st)
    (calls st) v.

(** The list without its element at index [i]. *)
Definition remove_nth {A} (i : nat) (l : list A) : list A :=
  (firstn i l ++ skipn (S i) l)%list.

Definition enqueue (t : task) (st : state) : state :=
  set_pending (pending st ++ [t])%list st.

(* ---- Wake Lock ---- *)

(** [requestWakeLock]: without the interface nothing is asked; with it the
    request is pending, and [_wakeLock] is assigned when it is granted. *)
Definition requestWakeLock (st : state) : state :=
  if hasWakeLock (nav st) then enqueue WakeLockRequest st else st.

Definition releaseWakeLock (st : state) : state :=
  match _wakeLock st with
  | Some _ => set__wakeLock None st
  | None => st
  end.

(** The grant of a pending request: the sentinel is stored. *)
Definition wakeLockGranted (st : state) : state :=
  set__wakeLock (Some (sentinels st)) (set_sentinels (S (sentinels st)) st).

(** The 'release' listener of a sentinel. *)
Definition onSentinelRelease (st : state) : state := set__wakeLock None st.

(** The 'visibilitychange' listener, when the page has become visible. *)
Definition onVisible (st : state) : state :=
  match _wakeLock st with
  | None => if _isPlaying st then requestWakeLock st else st
  | Some _ => st
  end.

(* ---- Media Session ---- *)

Definition setMediaSessionState (playing : bool) (st : state) : state :=
  if hasMediaSession (nav st) then set_playbackState (Some playing) st else st.

(* ---- Helpers ---- *)

Definition setStatus (s : status) (st : state) : state := set_statusShown s st.

Definition setPlayIcon (playing : bool) (st : state) : state :=
  set_playIcon playing st.

Definition currentStationId (st : state) : option string :=
  option_map Station.id (_currentStation st).

Definition setPlaylist (stations : list Station.t) (st : state) : state :=
  set__playlist stations st.

(* ---- play ---- *)

(** The [then] of the promise of [play]. *)
Definition playResolved (st : state) : state :=
  setMediaSessionState true
    (requestWakeLock
       (setPlayIcon true (set__isPlaying true (setStatus Live st)))).

(** The [catch] of the promise of [play(station)] number [call]. *)
Definition playRejected (call : nat) (st : state) : state :=
  if (_retryCount st <? MAX_RETRIES)%nat then
    enqueue (RetryTimer call) (set__retryCount (S (_retryCount st)) st)
  else setStatus Error st.

(** The timer of the retry: [audio.play().catch(...)]. *)
Definition retryFired (call : nat) (st : state) : state :=
  enqueue (RetryPromise call) (set_retried (retried st ++ [call])%list st).

(** The [catch] of the retry. *)
Definition retryRejected (st : state) : state := setStatus Error st.

(** [play(station)]; [None] is a null or undefined argument.  The call of
    [audio.play()] returns a promise, as the HTML standard has it. *)
Definition play (station : option Station.t) (st : state) : state :=
  match station with
  | None => st
  | Some s =>
      if negb (truthy (Station.url s)) then st
      else
        let st := set__currentStation (Some s) st in
        let st := set__isPlaying false st in
        let st := set__retryCount 0 st in
        let st := set_playerHidden false st in
        let st := setStatus Loading st in
        let st := set_audioSrc (Station.url s) st in
        let st := enqueue (PlayPromise (calls st)) st in
        let st := set_calls (S (calls st)) st in
        setPlayIcon true st
  end.

(* ---- togglePlay ---- *)

Definition togglePlay (st : state) : state :=
  match _currentStation st with
  | None => st
  | Some _ =>
      if _isPlaying st then
        setMediaSessionState false
          (releaseWakeLock
             (setStatus Idle (setPlayIcon false (set__isPlaying false st))))
      else if truthy (audioSrc st) then
        enqueue ResumePromise (setStatus Loading st)
      else st
  end.

Definition resumeResolved (st : state) : state :=
  setMediaSessionState true
    (requestWakeLock
       (setStatus Live (setPlayIcon true (set__isPlaying true st)))).

Definition resumeRejected (st : state) : state := setStatus Error st.

(* ---- prev / next ---- *)

(** [arr.findIndex(p)]: -1 when no element passes. *)
Fixpoint findIndex {A} (p : A -> bool) (l : list A) : Z :=
  match l with
  | [] => (-1)%Z
  | x :: r =>
      if p x then 0%Z
      else let i := findIndex p r in
           if (i <? 0)%Z then (-1)%Z else (i + 1)%Z
  end.

(** [arr[i]]: undefined out of range. *)
Definition at_index {A} (l : list A) (i : Z) : option A :=
  if (i <? 0)%Z then None else nth_error l (Z.to_nat i).

Definition currentIndex (st : state) (cur : Station.t) : Z :=
  findIndex (fun s => String.eqb (Station.id s) (Station.id cur)) (_playlist st).

Definition playPrev (st : state) : state :=
  match _currentStation st, _playlist st with
  | None, _ | _, [] => st
  | Some cur, _ =>
      let idx := currentIndex st cur in
      if (0 <? idx)%Z then play (at_index (_playlist st) (idx - 1)) st else st
  end.

Definition playNext (st : state) : state :=
  match _currentStation st, _playlist st with
  | None, _ | _, [] => st
  | Some cur, _ =>
      let idx := currentIndex st cur in
      if (idx <? Z.of_nat (length (_playlist st)) - 1)%Z
      then play (at_index (_playlist st) (idx + 1)) st else st
  end.

(* ---- the listeners wired by init ---- *)

Definition onWaiting (st : state) : state := setStatus Loading st.

Definition onPlaying (st : state) : state :=
  setMediaSessionState true
    (requestWakeLock
       (setStatus Live (setPlayIcon true (set__isPlaying true st)))).

Definition onPause (st : state) : state :=
  setMediaSessionState false
    (releaseWakeLock (setPlayIcon false (set__isPlaying false st))).

Definition onError (st : state) : state :=
  setMediaSessionState false
    (releaseWakeLock
       (setPlayIcon false (set__isPlaying false (setStatus Error st)))).

Definition onStalled (st : state) : state := setStatus Loading st.

(** The module's variables and the page before anything has played. *)
Definition init (n : navigator) : state :=
  mkState None [] false 0 None true Idle false EmptyString None n [] 0 0 [].

(* ---- what can happen ---- *)

Inductive event :=
| Play (station : option Station.t)   (* Player.play(station) *)
| TogglePlay                          (* play button, space bar, media keys *)
| PlayPrev
| PlayNext
| SetPlaylist (stations : list Station.t)
| Settle (i : nat) (ok : bool)        (* pending promise [i] is settled *)
| Fire (i : nat)                      (* pending timer [i] fires *)
| AudioWaiting
| AudioPlaying
| AudioPause
| AudioError
| AudioStalled
| SentinelReleased
| PageVisible.

(** A promise is settled: it leaves the pending list and its handler
    runs.  Settling an index that holds no promise does nothing. *)
Definition settle (i : nat) (ok : bool) (st : state) : state :=
  let rest := set_pending (remove_nth i (pending st)) st in
  match nth_error (pending st) i with
  | Some (PlayPromise call) =>
      if ok then playResolved rest else playRejected call rest
  | Some (RetryPromise _) =>
      if ok then rest else retryRejected rest
  | Some ResumePromise =>
      if ok then resumeResolved rest else resumeRejected rest
  | Some WakeLockRequest =>
      if ok then wakeLockGranted rest else rest
  | Some (RetryTimer _) | None => st
  end.

Definition fire (i : nat) (st : state) : state :=
  match nth_error (pending st) i with
  | Some (RetryTimer call) =>
      retryFired call (set_pending (remove_nth i (pending st)) st)
  | _ => st
  end.

Definition step (st : state) (e : event) : state :=
  match e with
  | Play station => play station st
  | TogglePlay => togglePlay st
  | PlayPrev => playPrev st
  | PlayNext => playNext st
  | SetPlaylist stations => setPlaylist stations st
  | Settle i ok => settle i ok st
  | Fire i => fire i st
  | AudioWaiting => onWaiting st
  | AudioPlaying => onPlaying st
  | AudioPause => onPause st
  | AudioError => onError st
  | AudioStalled => onStalled st
  | SentinelReleased => onSentinelRelease st
  | PageVisible => onVisible st
  end.

Definition run (st : state) (evs : list event) : state := fold_left step evs st.

(** How often the retry of call [n] has run. *)
Definition retriesOf (n : nat) (st : state) : nat :=
  count_occ Nat.eq_dec (retried st) n.

(** What a pending task still owes to call [n]: its promise may yet be
    rejected and lead to the retry, and its retry timer may yet fire. *)
Definition owes (n : nat) (t : task) : nat :=
  match t with
  | PlayPromise m | RetryTimer m => if Nat.eqb m n then 1 else 0
  | _ => 0
  end.

Fixpoint owed (n : nat) (l : list task) : nat :=
  match l with
  | [] => 0
  | t :: r => owes n t + owed n r
  end.

(** The retries of call [n], past and still possible. *)
Definition budget (n : nat) (st : state) : nat :=
  owed n (pending st) + retriesOf n st.

(** Every call has a budget of one retry, and the calls not yet made have
    none. *)
Definition bounded (st : state) : Prop :=
  forall n, budget n st <= 1 /\ (calls st <= n -> budget n st = 0).

(** The request [requestWakeLock] leaves pending. *)
Definition wakeRequest (st : state) : list task :=
  if hasWakeLock (nav st) then [WakeLockRequest] else [].

End Player.

(* ===================================================================== *)
(** ** app.js: the view orchestrator *)
(* ===================================================================== *)

Module App.
Import JS.

(** The part of the page the orchestrator and the renderer write.  The
    static HTML is not among the sources: the page the application starts
    on is a parameter of [start]. *)
Record page := mkPage {
  p_inputValue : string;   (* searchInput().value *)
  p_clearHidden : bool;   (* clearSearchBtn().hidden *)
  p_favActive : bool;   (* favToggle() has the class 'active' *)
  p_activeTab : string;   (* the language tab marked active *)
  p_sectionHidden : bool;   (* sectionHeader().hidden *)
  p_loadingShown : bool;   (* the loading skeleton *)
  p_apiStatusShown : bool;   (* apiFetchStatus() is visible *)
  p_rendered : list Station.t;   (* the cards in the grid *)
  p_sectionTitle : string;
  p_emptyShown : bool;   (* the empty state is visible *)
  p_emptyMessage : string * string;   (* emptyTitle and emptySubtitle *)
  p_badge : nat   (* the favourites counter *)
}.

Definition page_p_inputValue (v : string) (p : page) : page :=
  mkPage v (p_clearHidden p) (p_favActive p) (p_activeTab p)
    (p_sectionHidden p) (p_loadingShown p) (p_apiStatusShown p) (p_rendered
    p) (p_sectionTitle p) (p_emptyShown p) (p_emptyMessage p) (p_badge p).

Definition page_p_clearHidden (v : bool) (p : page) : page :=
  mkPage (p_inputValue p) v (p_favActive p) (p_activeTab p) (p_sectionHidden
    p) (p_loadingShown p) (p_apiStatusShown p) (p_rendered p)
    (p_sectionTitle p) (p_emptyShown p) (p_emptyMessage p) (p_badge p).

Definition page_p_favActive (v : bool) (p : page) : page :=
  mkPage (p_inputValue p) (p_clearHidden p) v (p_activeTab p)
    (p_sectionHidden p) (p_loadingShown p) (p_apiStatusShown p) (p_rendered
    p) (p_sectionTitle p) (p_emptyShown p) (p_emptyMessage p) (p_badge p).

Definition page_p_activeTab (v : string) (p : page) : page :=
  mkPage (p_inputValue p) (p_clearHidden p) (p_favActive p) v
    (p_sectionHidden p) (p_loadingShown p) (p_apiStatusShown p) (p_rendered
    p) (p_sectionTitle p) (p_emptyShown p) (p_emptyMessage p) (p_badge p).

Definition page_p_sectionHidden (v : bool) (p : page) : page :=
  mkPage (p_inputValue p) (p_clearHidden p) (p_favActive p) (p_activeTab p)
    v (p_loadingShown p) (p_apiStatusShown p) (p_rendered p) (p_sectionTitle
    p) (p_emptyShown p) (p_emptyMessage p) (p_badge p).

Definition page_p_loadingShown (v : bool) (p : page) : page :=
  mkPage (p_inputValue p) (p_clearHidden p) (p_favActive p) (p_activeTab p)
    (p_sectionHidden p) v (p_apiStatusShown p) (p_rendered p)
    (p_sectionTitle p) (p_emptyShown p) (p_emptyMessage p) (p_badge p).

Definition page_p_apiStatusShown (v : bool) (p : page) : page :=
  mkPage (p_inputValue p) (p_clearHidden p) (p_favActive p) (p_activeTab p)
    (p_sectionHidden p) (p_loadingShown p) v (p_rendered p) (p_sectionTitle
    p) (p_emptyShown p) (p_emptyMessage p) (p_badge p).

Definition page_p_rendered (v : list Station.t) (p : page) : page :=
  mkPage (p_inputValue p) (p_clearHidden p) (p_favActive p) (p_activeTab p)
    (p_sectionHidden p) (p_loadingShown p) (p_apiStatusShown p) v
    (p_sectionTitle p) (p_emptyShown p) (p_emptyMessage p) (p_badge p).

Definition page_p_sectionTitle (v : string) (p : page) : page :=
  mkPage (p_inputValue p) (p_clearHidden p) (p_favActive p) (p_activeTab p)
    (p_sectionHidden p) (p_loadingShown p) (p_apiStatusShown p) (p_rendered
    p) v (p_emptyShown p) (p_emptyMessage p) (p_badge p).

Definition page_p_emptyShown (v : bool) (p : page) : page :=
  mkPage (p_inputValue p) (p_clearHidden p) (p_favActive p) (p_activeTab p)
    (p_sectionHidden p) (p_loadingShown p) (p_apiStatusShown p) (p_rendered
    p) (p_sectionTitle p) v (p_emptyMessage p) (p_badge p).

Definition page_p_emptyMessage (v : string * string) (p : page) : page :=
  mkPage (p_inputValue p) (p_clearHidden p) (p_favActive p) (p_activeTab p)
    (p_sectionHidden p) (p_loadingShown p) (p_apiStatusShown p) (p_rendered
    p) (p_sectionTitle p) (p_emptyShown p) v (p_badge p).

Definition page_p_badge (v : nat) (p : page) : page :=
  mkPage (p_inputValue p) (p_clearHidden p) (p_favActive p) (p_activeTab p)
    (p_sectionHidden p) (p_loadingShown p) (p_apiStatusShown p) (p_rendered
    p) (p_sectionTitle p) (p_emptyShown p) (p_emptyMessage p) v.

(** A search awaited by [runApiSearch]: the server asked and the argument
    of [RadioAPI.search]. *)
Record request := mkRequest {
  req_base : string;
  req_opts : RadioAPI.searchOpts
}.

Record state := mkState {
  savedApiPool : list Station.t;   (* the module's variables *)
  displayedStations : list Station.t;
  activeLanguage : string;
  searchQuery : string;
  showingFavourites : bool;
  searchDebounce : option nat;   (* a timer id, or null *)
  favs : Favorites.state;   (* the other modules *)
  player : Player.state;
  baseUrl : string;   (* RadioAPI's server *)
  dom : page;   (* the page *)
  clock : nat;   (* the browser: time in ms *)
  timers : list (nat * nat);   (* pending setTimeout: id and due time *)
  nextTimer : nat;
  inflight : list request;   (* searches awaited by runApiSearch *)
  searchLog : list (nat * string)   (* when runApiSearch was called, with what *)
}.

(** Field updates. *)

Definition set_savedApiPool (v : list Station.t) (st : state) : state :=
  mkState v (displayedStations st) (activeLanguage st) (searchQuery st)
    (showingFavourites st) (searchDebounce st) (favs st) (player st)
    (baseUrl st) (dom st) (clock st) (timers st) (nextTimer st) (inflight
    st) (searchLog st).

Definition set_displayedStations (v : list Station.t) (st : state) : state :=
  mkState (savedApiPool st) v (activeLanguage st) (searchQuery st)
    (showingFavourites st) (searchDebounce st) (favs st) (player st)
    (baseUrl st) (dom st) (clock st) (timers st) (nextTimer st) (inflight
    st) (searchLog st).

Definition set_activeLanguage (v : string) (st : state) : state :=
  mkState (savedApiPool st) (displayedStations st) v (searchQuery st)
    (showingFavourites st) (searchDebounce st) (favs st) (player st)
    (baseUrl st) (dom st) (clock st) (timers st) (nextTimer st) (inflight
    st) (searchLog st).

Definition set_searchQuery (v : string) (st : state) : state :=
  mkState (savedApiPool st) (displayedStations st) (activeLanguage st) v
    (showingFavourites st) (searchDebounce st) (favs st) (player st)
    (baseUrl st) (dom st) (clock st) (timers st) (nextTimer st) (inflight
    st) (searchLog st).

Definition set_showingFavourites (v : bool) (st : state) : state :=
  mkState (savedApiPool st) (displayedStations st) (activeLanguage st)
    (searchQuery st) v (searchDebounce st) (favs st) (player st) (baseUrl
    st) (dom st) (clock st) (timers st) (nextTimer st) (inflight st)
    (searchLog st).

Definition set_searchDebounce (v : option nat) (st : state) : state :=
  mkState (savedApiPool st) (displayedStations st) (activeLanguage st)
    (searchQuery st) (showingFavourites st) v (favs st) (player st) (baseUrl
    st) (dom st) (clock st) (timers st) (nextTimer st) (inflight st)
    (searchLog st).

Definition set_favs (v : Favorites.state) (st : state) : state :=
  mkState (savedApiPool st) (displayedStations st) (activeLanguage st)
    (searchQuery st) (showingFavourites st) (searchDebounce st) v (player
    st) (baseUrl st) (dom st) (clock st) (timers st) (nextTimer st)
    (inflight st) (searchLog st).

Definition set_player (v : Player.state) (st : state) : state :=
  mkState (savedApiPool st) (displayedStations st) (activeLanguage st)
    (searchQuery st) (showingFavourites st) (searchDebounce st) (favs st) v
    (baseUrl st) (dom st) (clock st) (timers st) (nextTimer st) (inflight
    st) (searchLog st).

Definition set_baseUrl (v : string) (st : state) : state :=
  mkState (savedApiPool st) (displayedStations st) (activeLanguage st)
    (searchQuery st) (showingFavourites st) (searchDebounce st) (favs st)
    (player st) v (dom st) (clock st) (timers st) (nextTimer st) (inflight
    st) (searchLog st).

Definition set_dom (v : page) (st : state) : state :=
  mkState (savedApiPool st) (displayedStations st) (activeLanguage st)
    (searchQuery st) (showingFavourites st) (searchDebounce st) (favs st)
    (player st) (baseUrl st) v (clock st) (timers st) (nextTimer st)
    (inflight st) (searchLog st).

Definition set_clock (v : nat) (st : state) : state :=
  mkState (savedApiPool st) (displayedStations st) (activeLanguage st)
    (searchQuery st) (showingFavourites st) (searchDebounce st) (favs st)
    (player st) (baseUrl st) (dom st) v (timers st) (nextTimer st) (inflight
    st) (searchLog st).

Definition set_timers (v : list (nat * nat)) (st : state) : state :=
  mkState (savedApiPool st) (displayedStations st) (activeLanguage st)
    (searchQuery st) (showingFavourites st) (searchDebounce st) (favs st)
    (player st) (baseUrl st) (dom st) (clock st) v (nextTimer st) (inflight
    st) (searchLog st).

Definition set_nextTimer (v : nat) (st : state) : state :=
  mkState (savedApiPool st) (displayedStations st) (activeLanguage st)
    (searchQuery st) (showingFavourites st) (searchDebounce st) (favs st)
    (player st) (baseUrl st) (dom st) (clock st) (timers st) v (inflight st)
    (searchLog st).

Definition set_inflight (v : list request) (st : state) : state :=
  mkState (savedApiPool st) (displayedStations st) (activeLanguage st)
    (searchQuery st) (showingFavourites st) (searchDebounce st) (favs st)
    (player st) (baseUrl st) (dom st) (clock st) (timers st) (nextTimer st)
    v (searchLog st).

Definition set_searchLog (v : list (nat * string)) (st : state) : state :=
  mkState (savedApiPool st) (displayedStations st) (activeLanguage st)
    (searchQuery st) (showingFavourites st) (searchDebounce st) (favs st)
    (player st) (baseUrl st) (dom st) (clock st) (timers st) (nextTimer st)
    (inflight st) v.

Definition inputValue (st : state) : string := p_inputValue (dom st).
Definition clearHidden (st : state) : bool := p_clearHidden (dom st).
Definition favActive (st : state) : bool := p_favActive (dom st).
Definition activeTab (st : state) : string := p_activeTab (dom st).
Definition sectionHidden (st : state) : bool := p_sectionHidden (dom st).
Definition loadingShown (st : state) : bool := p_loadingShown (dom st).
Definition apiStatusShown (st : state) : bool := p_apiStatusShown (dom st).
Definition rendered (st : state) : list Station.t := p_rendered (dom st).
Definition sectionTitle (st : state) : string := p_sectionTitle (dom st).
Definition emptyShown (st : state) : bool := p_emptyShown (dom st).
Definition emptyMessage (st : state) : string * string := p_emptyMessage (dom st).
Definition badge (st : state) : nat := p_badge (dom st).

Definition set_inputValue (v : string) (st : state) : state :=
  set_dom (page_p_inputValue v (dom st)) st.

Definition set_clearHidden (v : bool) (st : state) : state :=
  set_dom (page_p_clearHidden v (dom st)) st.

Definition set_favActive (v : bool) (st : state) : state :=
  set_dom (page_p_favActive v (dom st)) st.

Definition set_activeTab (v : string) (st : state) : state :=
  set_dom (page_p_activeTab v (dom st)) st.

Definition set_sectionHidden (v : bool) (st : state) : state :=
  set_dom (page_p_sectionHidden v (dom st)) st.

Definition set_loadingShown (v : bool) (st : state) : state :=
  set_dom (page_p_loadingShown v (dom st)) st.

Definition set_apiStatusShown (v : bool) (st : state) : state :=
  set_dom (page_p_apiStatusShown v (dom st)) st.

Definition set_rendered (v : list Station.t) (st : state) : state :=
  set_dom (page_p_rendered v (dom st)) st.

Definition set_sectionTitle (v : string) (st : state) : state :=
  set_dom (page_p_sectionTitle v (dom st)) st.

Definition set_emptyShown (v : bool) (st : state) : state :=
  set_dom (page_p_emptyShown v (dom st)) st.

Definition set_emptyMessage (v : string * string) (st : state) : state :=
  set_dom (page_p_emptyMessage v (dom st)) st.

Definition set_badge (v : nat) (st : state) : state :=
  set_dom (page_p_badge v (dom st)) st.

(* ---- the renderer, as far as the orchestrator uses it ---- *)

(** [StationsUI.render(stations, titleText)]. *)
Definition render (stations : list Station.t) (titleText : string)
    (st : state) : state :=
  let st := set_rendered stations st in
  let st := if truthy titleText then set_sectionTitle titleText st else st in
  set_emptyShown (match stations with [] => true | _ => false end) st.

(** [StationsUI.showLoading()] and [StationsUI.hideLoading()]. *)
Definition showLoading (st : state) : state :=
  set_loadingShown true (set_emptyShown false (set_rendered [] st)).

Definition hideLoading (st : state) : state := set_loadingShown false st.

(* ---- helpers ---- *)

Definition setEmptyMessage (title sub : string) (st : state) : state :=
  set_emptyMessage (title, sub) st.

Definition showApiStatus (visible : bool) (st : state) : state :=
  set_apiStatusShown visible st.

(** A text between double quotes. *)
Definition quoted (s : string) : string :=
  String dquote (s ++ String dquote EmptyString).

Definition setPlaylist (stations : list Station.t) (st : state) : state :=
  set_player (Player.setPlaylist stations (player st)) st.

(* ---- API search ---- *)

(** [runApiSearch(query)] up to its [await]: the page shows the loading
    state and the search is under way. *)
Definition runApiSearch (query : string) (st : state) : state :=
  let st := set_sectionHidden false st in
  let st := showLoading st in
  let st := showApiStatus true st in
  let langHint :=
    if negb (String.eqb (activeLanguage st) "all") then activeLanguage st
    else EmptyString in
  let opts := RadioAPI.mkOpts query langHint EmptyString EmptyString 60 in
  let st := set_inflight (inflight st ++ [mkRequest (baseUrl st) opts])%list st in
  set_searchLog (searchLog st ++ [(clock st, query)])%list st.

(** [runApiSearch] from its [await] on, for the answers [net] of the
    directory. *)
Definition searchSettled (r : request) (net : RadioAPI.network)
    (st : state) : state :=
  let query := RadioAPI.query (req_opts r) in
  let st :=
    match RadioAPI.search net (req_base r) (req_opts r) with
    | RadioAPI.Fulfilled results => set_displayedStations results st
    | RadioAPI.Rejected =>
        setEmptyMessage "Search failed" "Check your connection and try again"
          (set_displayedStations [] st)
    end in
  let st := hideLoading (showApiStatus false st) in
  let st := setPlaylist (displayedStations st) st in
  let st := render (displayedStations st) ("Results for " ++ quoted query) st in
  match displayedStations st with
  | [] => setEmptyMessage ("No results for " ++ quoted query)
            "Try a different name, genre, or country" st
  | _ => st
  end.

(* ---- Favourites view ---- *)

(** [s.favLanguage || 'other']. *)
Definition languageOf (s : Station.t) : string :=
  opt_or (Station.favLanguage s) "other".

Definition showFavourites (st : state) : state :=
  let st := set_sectionHidden false st in
  let st := set_savedApiPool (Favorites.getSavedStations (favs st)) st in
  let favIds := StrSet.ofList (Favorites.getAll (favs st)) in
  let pool := filter (fun s => StrSet.has favIds (Station.id s)) (savedApiPool st) in
  let pool :=
    if negb (String.eqb (activeLanguage st) "all")
    then filter (fun s => String.eqb (languageOf s) (activeLanguage st)) pool
    else pool in
  let st := set_displayedStations pool st in
  let st := setPlaylist (displayedStations st) st in
  let st := render (displayedStations st) "My Favourites" st in
  match pool with
  | [] =>
      if negb (String.eqb (activeLanguage st) "all") then
        setEmptyMessage
          ("No " ++ activeLanguage st ++ " favourites")
          ("Save a station under " ++ quoted (activeLanguage st)
             ++ " to see it here") st
      else
        setEmptyMessage "No favourites yet"
          "Heart any station while searching to save it here" st
  | _ => st
  end.

Definition enterFavouritesMode (st : state) : state :=
  let st := set_showingFavourites true st in
  let st := set_favActive true st in
  let st := set_activeTab "all" st in
  let st := set_activeLanguage "all" st in
  showFavourites st.

Definition leaveFavouritesMode (st : state) : state :=
  let st := set_showingFavourites false st in
  let st := set_favActive false st in
  let st := set_activeTab "all" st in
  set_activeLanguage "all" st.

(* ---- timers ---- *)

(** [setTimeout(callback, delay)]: the id of the new timer is
    [nextTimer]. *)
Definition setTimeout (delay : nat) (st : state) : state :=
  set_nextTimer (S (nextTimer st))
    (set_timers (timers st ++ [(nextTimer st, clock st + delay)])%list st).

(** [clearTimeout(id)]; null and the ids of no pending timer do nothing. *)
Definition clearTimeout (id : option nat) (st : state) : state :=
  match id with
  | Some i => set_timers (filter (fun t => negb (Nat.eqb (fst t) i)) (timers st)) st
  | None => st
  end.

(* ---- the listeners ---- *)

(** The 'click' listener of a language tab. *)
Definition onLangTab (lang : string) (st : state) : state :=
  let st := set_activeTab lang st in
  let st := set_activeLanguage lang st in
  if showingFavourites st then showFavourites st
  else if truthy (trim (searchQuery st)) then runApiSearch (trim (searchQuery st)) st
  else enterFavouritesMode st.

(** The 'input' listener of the search box; [value] is [e.target.value]. *)
Definition onInput (value : string) (st : state) : state :=
  let st := set_inputValue value st in
  let st := set_searchQuery value st in
  let st := set_clearHidden (negb (truthy (searchQuery st))) st in
  let st := clearTimeout (searchDebounce st) st in
  if negb (truthy (trim (searchQuery st))) then enterFavouritesMode st
  else
    let st := if showingFavourites st then leaveFavouritesMode st else st in
    set_searchDebounce (Some (nextTimer st)) (setTimeout 320 st).

(** The callback of the debounce timer. *)
Definition onDebounce (st : state) : state :=
  runApiSearch (trim (searchQuery st)) st.

(** The 'click' listeners of the clear button and of the header heart. *)
Definition onClear (st : state) : state :=
  let st := set_inputValue EmptyString st in
  let st := set_searchQuery EmptyString st in
  let st := set_clearHidden true st in
  enterFavouritesMode st.

Definition onFavToggle (st : state) : state :=
  let st := set_inputValue EmptyString st in
  let st := set_searchQuery EmptyString st in
  let st := set_clearHidden true st in
  enterFavouritesMode st.

(* ---- public helpers ---- *)

Definition playStation (station : Station.t) (st : state) : state :=
  set_player (Player.play (Some station) (player st)) st.

Definition updateFavBadge (st : state) : state :=
  let st := set_badge (Favorites.count (favs st)) st in
  if showingFavourites st then showFavourites st else st.

(** The 'click' listener of the heart of a card (stations.js): removes a
    favourite, or adds the station under the language picked in the
    dialog; [choice] is [None] when the dialog is cancelled. *)
Definition onCardFav (station : Station.t) (choice : option string)
    (st : state) : state :=
  if Favorites.has (favs st) (Station.id station) then
    updateFavBadge
      (set_favs (Favorites.toggle (Station.id station) None None (favs st)) st)
  else
    match choice with
    | None => st
    | Some lang =>
        updateFavBadge
          (set_favs (Favorites.toggle (Station.id station) (Some station)
                       (Some lang) (favs st)) st)
    end.

(* ---- boot ---- *)

(** The modules loaded on the page [html], before DOMContentLoaded. *)
Definition start (ls : Favorites.localStorage) (nv : Player.navigator)
    (html : page) : state :=
  mkState [] [] "all" EmptyString false None
          (Favorites.load ls) (Player.init nv)
          "https://de1.api.radio-browser.info"
          html 0 [] 0 [] [].

Definition boot (st : state) : state :=
  let st := set_savedApiPool (Favorites.getSavedStations (favs st)) st in
  enterFavouritesMode st.

(** The DOMContentLoaded listener. *)
Definition onLoaded (st : state) : state := updateFavBadge (boot st).

(* ---- what can happen ---- *)

Inductive event :=
| Input (value : string)              (* typing in the search box *)
| ClearClick
| FavToggleClick
| LangTabClick (lang : string)
| CardClick (station : Station.t)
| CardFavClick (station : Station.t) (choice : option string)
| Elapse (ms : nat)                   (* time passes *)
| Fire (id : nat)                     (* timer [id] fires, once it is due *)
| SearchSettled (i : nat) (net : RadioAPI.network)
| ServerChosen (answers : string -> bool)   (* RadioAPI.init has finished *)
| PlayerEvent (e : Player.event).

Definition dueTimer (id : nat) (st : state) : bool :=
  existsb (fun t => Nat.eqb (fst t) id && (snd t <=? clock st)%nat) (timers st).

Definition step (st : state) (e : event) : state :=
  match e with
  | Input value => onInput value st
  | ClearClick => onClear st
  | FavToggleClick => onFavToggle st
  | LangTabClick lang => onLangTab lang st
  | CardClick station => playStation station st
  | CardFavClick station choice => onCardFav station choice st
  | Elapse ms => set_clock (clock st + ms) st
  | Fire id =>
      if dueTimer id st then onDebounce (clearTimeout (Some id) st) else st
  | SearchSettled i net =>
      match nth_error (inflight st) i with
      | Some r =>
          searchSettled r net
            (set_inflight (Player.remove_nth i (inflight st)) st)
      | None => st
      end
  | ServerChosen answers =>
      set_baseUrl (RadioAPI.init answers (baseUrl st)) st
  | PlayerEvent e => set_player (Player.step (player st) e) st
  end.

Definition run (st : state) (evs : list event) : state := fold_left step evs st.

(** The application once the page has loaded. *)
Definition loaded (ls : Favorites.localStorage) (nv : Player.navigator)
    (html : page) : state :=
  onLoaded (start ls nv html).

(** The events in which only time passes: the clock, the timers and the
    answers of the network. *)
Definition passive (e : event) : bool :=
  match e with
  | Elapse _ | Fire _ | SearchSettled _ _ | ServerChosen _ => true
  | _ => false
  end.

(** The favourites view as C7 words it: the saved stations whose id is a
    favourite and, under a language tab other than 'all', whose favourite
    language, 'other' when there is none, is the tab's; each listed with
    its favourite language filled in. *)
Definition favouritesView (f : Favorites.state) (lang : string)
    : list Station.t :=
  map Favorites.withDefaultLanguage
      (filter (fun s =>
                 StrSet.has (Favorites.favIds f) (Station.id s)
                 && (String.eqb lang "all" || String.eqb (languageOf s) lang))
              (Obj.values (Favorites.extraMap f))).

(** The state right after favourites mode is entered. *)
Definition inFavouritesMode (st : state) : Prop :=
  showingFavourites st = true /\
  activeLanguage st = "all" /\
  displayedStations st = favouritesView (favs st) "all" /\
  rendered st = favouritesView (favs st) "all".

(** What the debounce depends on. *)
Definition sched (st : state)
    : list (nat * nat) * option nat * string * list (nat * string) * nat * nat :=
  (timers st, searchDebounce st, searchQuery st, searchLog st, clock st,
   nextTimer st).

(** At most one timer is pending, and it is the one [searchDebounce]
    names. *)
Definition oneTimer (st : state) : Prop :=
  timers st = [] \/
  exists id due, timers st = [(id, due)] /\ searchDebounce st = Some id.

(** After a keystroke that left [value] in the box at time [at_] with the
    search log [log]: the timer is still pending, or it has fired and one
    search, with the trimmed value, has started no sooner than it was
    due. *)
Definition afterKeystroke (value : string) (at_ : nat)
    (log : list (nat * string)) (st : state) : Prop :=
  (exists id, timers st = [(id, at_ + 320)] /\ searchQuery st = value /\
              searchLog st = log) \/
  (timers st = [] /\
   exists t, at_ + 320 <= t /\ searchLog st = (log ++ [(t, trim value)])%list).

End App.

(* ===================================================================== *)
(** ** Sample data for the examples *)
(* ===================================================================== *)

Module Samples.
Import JS RadioAPI.

Definition rawBlank : Raw.t :=
  Raw.mk None None None None None None None None None None None None None None.

(** A raw station with a uuid, a name, tags and a url. *)
Definition rawOf (uuid name tags url : string) : Raw.t :=
  Raw.mk (Some uuid) (Some name) None None None None (Some tags)
         None (Some url) None None None None None.

Definition rawJazz : Raw.t := rawOf "u1" "Jazz FM" "jazz, smooth" "http://a/1".
Definition rawRock : Raw.t := rawOf "u2" "Rock One" "rock" "http://a/2".
Definition rawMute : Raw.t := rawOf "u3" "No Stream" "pop" EmptyString.
Definition rawJazzAgain : Raw.t := rawOf "u1" "Jazz FM HD" "jazz" "http://a/1hd".

Definition isNameRequest (r : request) : bool :=
  existsb (fun kv => String.eqb (fst kv) "name") (req_params r).

(** A directory that answers the name search with [byName] and the tag
    search with [byTag]. *)
Definition directory (byName byTag : settled (list Raw.t)) : network :=
  fun r => if isNameRequest r then byName else byTag.

Definition netJazz : network :=
  directory (Fulfilled [rawJazz; rawMute]) (Fulfilled [rawJazz; rawRock]).

(** A directory whose tag search lists one station twice. *)
Definition netRepeat : network :=
  directory (Fulfilled [rawRock]) (Fulfilled [rawJazz; rawJazzAgain]).

Definition base : string := "https://de1.api.radio-browser.info".

Definition optsJazz : searchOpts :=
  mkOpts " jazz " EmptyString EmptyString EmptyString 60.

(** A browser profile that never ran the application. *)
Definition freshStorage : Favorites.localStorage :=
  Favorites.mkStorage Favorites.Absent Favorites.Absent None false.

(** A profile in which the defaults are stored and the storage is full:
    every [setItem] throws. *)
Definition fullStorage : Favorites.localStorage :=
  Favorites.mkStorage (Favorites.Json Favorites.DEFAULT_IDS)
                      (Favorites.Json Favorites.DEFAULT_EXTRA)
                      (Some "1") true.

Definition jazz : Station.t := normalize rawJazz.
Definition rock : Station.t := normalize rawRock.

Definition addJazz : Favorites.call :=
  Favorites.mkCall "api-u1" (Some jazz) (Some "English").

Definition addRock : Favorites.call :=
  Favorites.mkCall "api-u2" (Some rock) None.

Definition dropJazz : Favorites.call :=
  Favorites.mkCall "api-u1" None None.

Definition relaxId : string := "api-96683d44-c7f1-47d3-a9c5-f7d0c65d8b66".

Definition dropRelax : Favorites.call :=
  Favorites.mkCall relaxId None None.

Definition browser : Player.navigator := Player.mkNavigator true true.

(** A stream that fails: the promise of [play] is rejected and the retry
    timer fires. *)
Definition failingStream : list Player.event :=
  [ Player.Play (Some jazz); Player.Settle 0 false; Player.Fire 0 ].

(** A stream that plays, with the wake lock granted. *)
Definition playingStream : list Player.event :=
  [ Player.Play (Some jazz); Player.Settle 0 true; Player.Settle 0 true ].

(** A page with nothing rendered yet. *)
Definition html : App.page :=
  App.mkPage EmptyString true false "all" true false false [] EmptyString
             false (EmptyString, EmptyString) 0.

(** A profile with the defaults and one English and one unlabelled
    favourite. *)
Definition twoSaved : Favorites.localStorage :=
  Favorites.storage
    (Favorites.session freshStorage
       [addJazz; Favorites.mkCall "api-u2" (Some rock) None]).

Definition app : App.state := App.loaded twoSaved browser html.

End Samples.

(* ===================================================================== *)
(** ** api.js: the two chart requests *)
(* ===================================================================== *)

Module Charts.
Import JS RadioAPI.

(** [trending(language, limit)]: the most clicked stations of a language. *)
Definition trending (net : network) (baseUrl language : string) (limit : Z)
    : settled (list Station.t) :=
  match get net baseUrl "/json/stations/search"
            [ ("language", VString language);
              ("limit", VNumber limit);
              ("order", VString "clickcount");
              ("reverse", VString "true");
              ("hidebroken", VString "true") ] with
  | Fulfilled raw =>
      Fulfilled (filter (fun s => truthy (Station.url s)) (map normalize raw))
  | Rejected => Rejected
  end.

(** [topVoted(limit)]. *)
Definition topVoted (net : network) (baseUrl : string) (limit : Z)
    : settled (list Station.t) :=
  match get net baseUrl "/json/stations"
            [ ("order", VString "votes");
              ("reverse", VString "true");
              ("limit", VNumber limit);
              ("hidebroken", VString "true") ] with
  | Fulfilled raw =>
      Fulfilled (filter (fun s => truthy (Station.url s)) (map normalize raw))
  | Rejected => Rejected
  end.

(** A string without the character [c]. *)
Fixpoint lacks (c : ascii) (s : string) : bool :=
  match s with
  | EmptyString => true
  | String d r => negb (Ascii.eqb d c) && lacks c r
  end.

End Charts.

(* ===================================================================== *)
(** ** favorites.js: what the store keeps in memory *)
(* ===================================================================== *)

Module FavoritesMemory.
Import Favorites.

(** The in-memory part of the store is tidy when no id is a favourite
    twice and every saved station is keyed by a favourite. *)
Definition tidy (st : state) : Prop :=
  NoDup (favIds st) /\
  forall k, In k (Obj.keys (extraMap st)) -> StrSet.has (favIds st) k = true.

(** The membership of [id'] after [toggle id]: a default that is a
    favourite stays one, any other [id] changes sides, and no other id
    is touched. *)
Definition toggled (st : state) (id id' : string) : bool :=
  if String.eqb id' id then
    if has st id then isDefault id else true
  else has st id'.

End FavoritesMemory.

(* ===================================================================== *)
(** ** player.js: navigation buttons, volume and mute *)
(* ===================================================================== *)

Module PlayerNav.
Import JS Player.

(** [updateNavButtons]: the values it writes to [prevBtn().disabled] and
    [nextBtn().disabled].  It runs at the end of [setPlaylist] and of
    [play], the two places where the playlist or the current station
    change. *)
Definition updateNavButtons (st : state) : bool * bool :=
  match _playlist st, _currentStation st with
  | [], _ | _, None => (true, true)
  | _, Some cur =>
      let idx := currentIndex st cur in
      ((idx <=? 0)%Z,
       (Z.of_nat (length (_playlist st)) - 1 <=? idx)%Z)
  end.

(** The player on a page of its own: the module's variables as declared,
    and the audio element, the player bar, the status and the play icon
    as the markup has them before the script runs. *)
Definition onPage (n : navigator) (src : string) (hidden : bool)
    (shown : status) (icon : bool) : state :=
  set_audioSrc src
    (set_playIcon icon (set_statusShown shown (set_playerHidden hidden (init n)))).

(** What every run keeps: the retry count is within its limit, and the
    audio element and the player bar agree with the current station, or
    are as the page had them ([src], [hidden]) while there is none. *)
Definition coherent (src : string) (hidden : bool) (st : state) : Prop :=
  _retryCount st <= MAX_RETRIES /\
  match _currentStation st with
  | Some s =>
      truthy (Station.url s) = true /\
      audioSrc st = Station.url s /\
      playerHidden st = false
  | None =>
      audioSrc st = src /\ playerHidden st = hidden
  end.

End PlayerNav.

Module Volume.

(** The glyph of the mute button. *)
Inductive icon := Xmark | Low | High.

(** The volume part of the player: the two variables, the audio element
    and the three controls.  Volumes are whole percents; [audio.volume]
    is the hundredth of [audioVolume]. *)
Record state := mkState {
  _volume : Z;
  _muted : bool;
  audioVolume : Z;      (* audio.volume, in percent *)
  audioMuted : bool;    (* audio.muted *)
  sliderValue : Z;      (* volumeSlider().value *)
  volumeShown : Z;      (* volumeValue(): the number before the % sign *)
  muteIcon : icon       (* the glyph in muteBtn() *)
}.

Definition updateMuteIcon (st : state) : state :=
  mkState (_volume st) (_muted st) (audioVolume st) (audioMuted st)
          (sliderValue st) (volumeShown st)
          (if _muted st || (_volume st =? 0)%Z then Xmark
           else if (_volume st <? 50)%Z then Low
           else High).

(** [setVolume(val)]: [Math.max(0, Math.min(100, val))]. *)
Definition setVolume (val : Z) (st : state) : state :=
  let v := Z.max 0 (Z.min 100 val) in
  updateMuteIcon
    (mkState v (_muted st) v (audioMuted st) v v (muteIcon st)).

Definition toggleMute (st : state) : state :=
  updateMuteIcon
    (mkState (_volume st) (negb (_muted st)) (audioVolume st)
             (negb (_muted st)) (sliderValue st) (volumeShown st)
             (muteIcon st)).

(** The 'input' listener of the volume slider; [val] is the whole number
    [parseInt(e.target.value, 10)] reads from the slider. *)
Definition onSlider (val : Z) (st : state) : state :=
  let st := setVolume val st in
  if _muted st && (0 <? _volume st)%Z then
    mkState (_volume st) false (audioVolume st) false (sliderValue st)
            (volumeShown st) (muteIcon st)
  else st.

(** [play] copies the two variables to the audio element. *)
Definition onPlay (st : state) : state :=
  mkState (_volume st) (_muted st) (_volume st) (_muted st)
          (sliderValue st) (volumeShown st) (muteIcon st).

(** The variables as declared, on a page whose audio element is muted or
    not and whose controls show [slider], [shown] and [glyph], after the
    [setVolume(_volume)] of [init]. *)
Definition init (muted : bool) (slider shown : Z) (glyph : icon) : state :=
  setVolume 80 (mkState 80 false 100 muted slider shown glyph).

Inductive event :=
| Slider (val : Z)
| MuteClick          (* the mute button and the M key *)
| Played.            (* play() was called *)

Definition step (st : state) (e : event) : state :=
  match e with
  | Slider val => onSlider val st
  | MuteClick => toggleMute st
  | Played => onPlay st
  end.

Definition run (st : state) (evs : list event) : state := fold_left step evs st.

(** The glyph that fits the variables. *)
Definition glyphFor (st : state) : icon :=
  if _muted st || (_volume st =? 0)%Z then Xmark
  else if (_volume st <? 50)%Z then Low
  else High.

End Volume.

(* ===================================================================== *)
(** ** app.js: what the page mirrors *)
(* ===================================================================== *)

Module AppView.
Import JS App.

(** The variables and controls that follow the mode. *)
Definition modeView (st : state) :=
  (showingFavourites st, searchQuery st, favActive st, activeTab st,
   activeLanguage st, badge st, favs st, baseUrl st).

(** The page is in step with the variables: favourites mode is on exactly
    while the trimmed query is empty, the header heart is lit exactly in
    favourites mode, the lit language tab is the active language, the
    badge shows the number of favourites, and the server is one of the
    list. *)
Definition inStep (st : state) : Prop :=
  showingFavourites st = negb (truthy (trim (searchQuery st))) /\
  favActive st = showingFavourites st /\
  activeTab st = activeLanguage st /\
  badge st = Favorites.count (favs st) /\
  In (baseUrl st) RadioAPI.SERVERS.

(** What is listed: the player's playlist is the displayed list, and the
    grid shows the displayed list or, while a search is loading, nothing. *)
Definition listed (st : state) : Prop :=
  Player._playlist (player st) = displayedStations st /\
  (rendered st = displayedStations st \/
   (rendered st = [] /\ loadingShown st = true)).

(** The events of the application itself: [Player.setPlaylist] is called
    by the orchestrator only, not from outside. *)
Definition ownEvent (e : event) : bool :=
  match e with
  | PlayerEvent (Player.SetPlaylist _) => false
  | _ => true
  end.

(** The fields [listed] reads. *)
Definition listView (st : state) :=
  (Player._playlist (player st), displayedStations st, rendered st,
   loadingShown st).

End AppView.

(* ===================================================================== *)
(** ** More sample data *)
(* ===================================================================== *)

Module MoreSamples.

(** A profile of a first visit whose storage is full, holding one
    favourite written by an earlier version. *)
Definition fullFirstVisit : Favorites.localStorage :=
  Favorites.mkStorage (Favorites.Json ["api-u9"]) Favorites.Absent None true.

(** The same profile with room left. *)
Definition firstVisit : Favorites.localStorage :=
  Favorites.mkStorage (Favorites.Json ["api-u9"]) Favorites.Absent None false.

(** A third station, and a player on a playlist of three with the first
    one playing. *)
Definition pop : Station.t :=
  RadioAPI.normalize (Samples.rawOf "u4" "Pop Hits" "pop" "http://a/4").

Definition threeStations : list Station.t := [Samples.jazz; Samples.rock; pop].

Definition onJazz : Player.state :=
  Player.run (Player.init Samples.browser)
    [Player.SetPlaylist threeStations; Player.Play (Some Samples.jazz)].

(** The same player after the list has been replaced by one that does
    not have the current station. *)
Definition offList : Player.state :=
  Player.step onJazz (Player.SetPlaylist [Samples.rock; pop]).

(** The application with "jazz" typed and the debounce timer pending. *)
Definition typing : App.state := App.step Samples.app (App.Input "jazz").

(** A search for nothing, as a stale timer starts it, on a directory
    that does not answer. *)
Definition emptySearch : App.request :=
  App.mkRequest Samples.base
    (RadioAPI.mkOpts EmptyString EmptyString EmptyString EmptyString 60).

Definition deadNet : RadioAPI.network := fun _ => RadioAPI.Rejected.

End MoreSamples.

(* ===================================================================== *)
(** ** dialog.js: the language picker *)
(* ===================================================================== *)

Module FavDialog.
Import JS.

(** The module's variable [_resolve], the modal, and the promises handed
    out by [show]: how many there are, and which of them were resolved,
    with what ([None] is null). *)
Record state := mkState {
  _resolve : option nat;     (* the resolver kept, by its promise's number *)
  modalHidden : bool;        (* modal().hidden *)
  nameShown : string;        (* nameEl().textContent *)
  promises : nat;
  resolved : list (nat * option string)
}.

(** [show(stationName)]: a new promise whose resolver replaces the one
    kept. *)
Definition show (stationName : string) (st : state) : state :=
  mkState (Some (promises st)) false (or_else stationName "this station")
          (S (promises st)) (resolved st).

(** [close(lang)]: [lang ?? null] goes to the resolver kept, if any. *)
Definition close (lang : option string) (st : state) : state :=
  match _resolve st with
  | Some p =>
      mkState None true (nameShown st) (promises st)
              (resolved st ++ [(p, lang)])%list
  | None =>
      mkState None true (nameShown st) (promises st) (resolved st)
  end.

Inductive event :=
| Show (stationName : string)       (* FavDialog.show, from a heart button *)
| OptionClick (lang : option string)  (* a language button: its data-lang *)
| CancelClick
| OverlayClick
| EscapeKey.

Definition step (st : state) (e : event) : state :=
  match e with
  | Show stationName => show stationName st
  | OptionClick lang => close lang st
  | CancelClick => close None st
  | OverlayClick => close None st
  | EscapeKey => if negb (modalHidden st) then close None st else st
  end.

Definition run (st : state) (evs : list event) : state := fold_left step evs st.

(** The module as loaded, on a page whose modal is hidden or not and
    names [name]. *)
Definition init (hidden : bool) (name : string) : state :=
  mkState None hidden name 0 [].

(** The promises that were resolved. *)
Definition settledIds (st : state) : list nat := map fst (resolved st).

(** What every run keeps: a promise is resolved once at most, only
    promises handed out are resolved, and the resolver kept belongs to
    the newest promise, which is unresolved, with the modal open. *)
Definition sound (st : state) : Prop :=
  NoDup (settledIds st) /\
  (forall p, In p (settledIds st) -> p < promises st) /\
  match _resolve st with
  | Some p =>
      S p = promises st /\ ~ In p (settledIds st) /\ modalHidden st = false
  | None => True
  end.

(** Promise [p] was handed out, is unresolved and has lost its
    resolver. *)
Definition orphan (p : nat) (st : state) : Prop :=
  p < promises st /\ _resolve st <> Some p /\ ~ In p (settledIds st).

End FavDialog.

(* ===================================================================== *)
(** ** stations.js: texts the escape leaves alone *)
(* ===================================================================== *)

Module PlainText.

(** A text without any of the five characters [escapeHtml] replaces. *)
Fixpoint plain (s : string) : bool :=
  match s with
  | EmptyString => true
  | String c r =>
      negb (Ascii.eqb c "&") && negb (StationsUI.isRaw c) && plain r
  end.

End PlainText.

(* ===================================================================== *)
(** ** Proofs: the HTML escape *)
(* ===================================================================== *)

Section EscapeHtml.
Import JS StationsUI.

Lemma string_app_assoc (a b c : string) : (a ++ b) ++ c = a ++ (b ++ c).
Proof. induction a as [|x a IH]; simpl; [reflexivity | now rewrite IH]. Qed.

Lemma replaceAll_app c rep a b :
  replaceAll c rep (a ++ b) = replaceAll c rep a ++ replaceAll c rep b.
Proof.
  induction a as [|d a IH]; simpl; [reflexivity|].
  rewrite IH. destruct (Ascii.eqb d c); simpl.
  - now rewrite string_app_assoc.
  - reflexivity.
Qed.

(** The five passes together act on each character on its own. *)
Lemma escapeHtmlString_cons c r :
  escapeHtmlString (String c r) = escapeChar c ++ escapeHtmlString r.
Proof.
  unfold escapeHtmlString, escapeChar. cbn [replaceAll].
  destruct (Ascii.eqb c "&") eqn:Ea.
  { rewrite !replaceAll_app. reflexivity. }
  cbn [replaceAll]. destruct (Ascii.eqb c "<") eqn:El.
  { rewrite !replaceAll_app. reflexivity. }
  cbn [replaceAll]. destruct (Ascii.eqb c ">") eqn:Eg.
  { rewrite !replaceAll_app. reflexivity. }
  cbn [replaceAll]. destruct (Ascii.eqb c dquote) eqn:Eq.
  { rewrite !replaceAll_app. reflexivity. }
  cbn [replaceAll]. destruct (Ascii.eqb c "'") eqn:Es; reflexivity.
Qed.

Ltac clean_literal :=
  cbn; repeat split;
  try assumption; try reflexivity;
  try (let E := fresh in
       intros E;
       first [ discriminate E
             | match goal with |- context [prefix _ ?r] => destruct r end;
               reflexivity ]).

Lemma clean_escapeChar_app c r : clean r -> clean (escapeChar c ++ r).
Proof.
  intros Hr. unfold escapeChar.
  destruct (Ascii.eqb c "&") eqn:Ea.
  { clean_literal. }
  destruct (Ascii.eqb c "<") eqn:El.
  { clean_literal. }
  destruct (Ascii.eqb c ">") eqn:Eg.
  { clean_literal. }
  destruct (Ascii.eqb c dquote) eqn:Eq.
  { clean_literal. }
  destruct (Ascii.eqb c "'") eqn:Es.
  { clean_literal. }
  cbn [append clean]. split; [|split; [|assumption]].
  - unfold isRaw. now rewrite El, Eg, Eq, Es.
  - intros ->. discriminate Ea.
Qed.

Lemma escapeHtmlString_clean s : clean (escapeHtmlString s).
Proof.
  induction s as [|c r IH].
  - exact I.
  - rewrite escapeHtmlString_cons. now apply clean_escapeChar_app.
Qed.

(** Cleanliness read at an index. *)
Lemma clean_get s :
  clean s -> forall n c, get n s = Some c ->
  isRaw c = false /\ (c = "&"%char -> startsEntity (drop n s) = true).
Proof.
  induction s as [|d r IH]; intros Hc n c Hget.
  - destruct n; discriminate.
  - destruct Hc as (Hraw & Hamp & Hr). destruct n as [|n]; cbn in Hget.
    + injection Hget as ->. split; [assumption|]. exact Hamp.
    + cbn [drop]. now apply IH.
Qed.

Lemma isRaw_false c :
  isRaw c = false ->
  c <> "<"%char /\ c <> ">"%char /\ c <> dquote /\ c <> "'"%char.
Proof.
  unfold isRaw. intros H.
  repeat match type of H with
         | (_ || _)%bool = false => apply orb_false_elim in H; destruct H as [H ?]
         end.
  repeat split; intros ->; rewrite Ascii.eqb_refl in *; discriminate.
Qed.

Lemma startsEntity_In s :
  startsEntity s = true -> exists e, In e entities /\ prefix e s = true.
Proof.
  unfold startsEntity. intros H. apply existsb_exists in H.
  destruct H as (e & He & Hp). now exists e.
Qed.

(** C9. On a string, [escapeHtml] returns a string without a raw [<], [>],
    double quote or apostrophe, in which every [&] is the first character
    of one of the entities &amp; &lt; &gt; &quot; &#039;.  On [null] and
    [undefined] it returns the empty string, and any other non-string
    value is returned unchanged. *)
Theorem escapeHtml_safe (input : value) :
  match input with
  | VString s =>
      exists r, escapeHtml input = VString r /\
        forall n c, get n r = Some c ->
          c <> "<"%char /\ c <> ">"%char /\ c <> dquote /\ c <> "'"%char /\
          (c = "&"%char ->
             exists e, In e entities /\ prefix e (drop n r) = true)
  | VNull | VUndefined => escapeHtml input = VString EmptyString
  | _ => escapeHtml input = input
  end.
Proof.
  destruct input as [| | b | z | s | o]; try reflexivity.
  exists (escapeHtmlString s). split; [reflexivity|].
  intros n c Hget.
  destruct (clean_get _ (escapeHtmlString_clean s) n c Hget) as [Hraw Hamp].
  destruct (isRaw_false c Hraw) as (H1 & H2 & H3 & H4).
  repeat (split; [assumption|]).
  intros Hc. apply startsEntity_In. now apply Hamp.
Qed.

(** The escape at a concrete tag: index 0 of the result is an ampersand
    that opens an entity. *)
Lemma escapeHtml_safe_witness :
  exists r, escapeHtml (VString "<b>&'") = VString r /\
    get 0 r = Some "&"%char /\
    exists e, In e entities /\ prefix e (drop 0 r) = true.
Proof.
  destruct (escapeHtml_safe (VString "<b>&'")) as (r & Hr & Hall).
  exists r. split; [exact Hr|].
  assert (Hg : get 0 r = Some "&"%char).
  { cbn in Hr. injection Hr as <-. reflexivity. }
  split; [exact Hg|].
  destruct (Hall 0 "&"%char Hg) as (_ & _ & _ & _ & Ha).
  now apply Ha.
Defined.

Example escapeHtml_example :
  escapeHtml (VString "<a href='x'>R&B</a>")
  = VString "&lt;a href=&#039;x&#039;&gt;R&amp;B&lt;/a&gt;".
Proof. reflexivity. Qed.

End EscapeHtml.

(* ===================================================================== *)
(** ** Proofs: the API client *)
(* ===================================================================== *)

Section ApiClient.
Import JS RadioAPI.

Example trim_example :
  trim (String (ascii_of_nat 9) "  smooth jazz  ") = "smooth jazz".
Proof. reflexivity. Qed.

Example split_example :
  split "," "a,,b" = ["a"; EmptyString; "b"] /\
  split "," EmptyString = [EmptyString].
Proof. split; reflexivity. Qed.

Example mapGenre_example :
  mapGenre "Classic Rock,Blues" = "Jazz" /\
  mapGenre "TOP HITS" = "Pop" /\
  mapGenre "folk" = "Various".
Proof. repeat split. Qed.

Lemma truthy_not_empty s : truthy s = true <-> s <> EmptyString.
Proof. destruct s; cbn; split; congruence. Qed.

Lemma opt_or_textField a d : textField a d (opt_or a d).
Proof.
  split.
  - intros [-> | ->]; reflexivity.
  - intros v -> Hv. destruct v; [contradiction | reflexivity].
Qed.

Lemma num_or_numField a : numField a (num_or a 0).
Proof.
  split.
  - intros [-> | ->]; reflexivity.
  - intros v ->. destruct v; reflexivity.
Qed.

Lemma mapGenre_range tags : In (mapGenre tags) GENRES.
Proof.
  unfold mapGenre, GENRES.
  repeat match goal with
         | |- context [if ?b then _ else _] => destruct b
         end; cbn; tauto.
Qed.

Lemma normalize_tags_length r : length (Station.tags (normalize r)) <= 5.
Proof.
  unfold normalize. cbn [Station.tags]. unfold slice0. apply firstn_le_length.
Qed.

(** The url of a normalised station is [url_resolved] when that is a
    non-empty string, else [url] when that is one, else empty. *)
Lemma normalize_url r :
  Station.url (normalize r)
  = match Raw.url_resolved r, Raw.url r with
    | Some (String c u), _ => String c u
    | _, Some v => v
    | _, None => EmptyString
    end.
Proof.
  cbn. destruct (Raw.url_resolved r) as [[|c u]|], (Raw.url r) as [[|d v]|];
    reflexivity.
Qed.

(** A text search never fails: the two requests are settled, not awaited. *)
Lemma search_text_fulfils net baseUrl o :
  truthy (trim (query o)) = true ->
  exists result, search net baseUrl o = Fulfilled result.
Proof.
  intros Hq. unfold search, rawResults. rewrite Hq. eauto.
Qed.

(** C5. A text search always returns a list, and whenever [search]
    returns one, every station in it is the normal form of one raw
    station of the (merged) answer: its id is "api-" followed by the raw
    stationuuid (by "undefined" when the raw station has none), its url
    is non-empty and is [url_resolved] when that is a non-empty string,
    or else [url],
    its genre is one of the eight genres of [mapGenre], it has at most five
    tags, and every blank raw property has its default (the empty string
    or 0, "Unknown" for the name).  The returned list is the normalised raw
    list without the stations whose url is empty, in the same order. *)
Theorem search_normalizes net baseUrl o :
  (truthy (trim (query o)) = true ->
   exists result, search net baseUrl o = Fulfilled result) /\
  forall result,
  search net baseUrl o = Fulfilled result ->
  exists raw,
    rawResults net baseUrl o = Fulfilled raw /\
    result = filter (fun s => truthy (Station.url s)) (map normalize raw) /\
    (forall r, In r raw ->
       (In (normalize r) result <-> Station.url (normalize r) <> EmptyString)) /\
    forall st, In st result ->
      exists r, In r raw /\ st = normalize r /\
        (forall u, Raw.stationuuid r = Some u -> Station.id st = "api-" ++ u) /\
        (Raw.stationuuid r = None -> Station.id st = "api-undefined") /\
        Station.url st <> EmptyString /\
        Station.url st
          = match Raw.url_resolved r, Raw.url r with
            | Some (String c u), _ => String c u
            | _, Some v => v
            | _, None => EmptyString
            end /\
        In (Station.genre st) GENRES /\
        length (Station.tags st) <= 5 /\
        (blank (Raw.tags r) ->
           Station.tags st = [] /\ Station.genre st = "Various") /\
        textField (Raw.name r) "Unknown" (Station.name st) /\
        textField (Raw.favicon r) EmptyString (Station.logo st) /\
        textField (Raw.country r) EmptyString (Station.country st) /\
        textField (Raw.countrycode r) EmptyString (Station.countryCode st) /\
        textField (Raw.language r) EmptyString (Station.language st) /\
        textField (Raw.homepage r) EmptyString (Station.homepage st) /\
        textField (Raw.codec r) EmptyString (Station.codec st) /\
        numField (Raw.bitrate r) (Station.bitrate st) /\
        numField (Raw.votes r) (Station.votes st) /\
        numField (Raw.clickcount r) (Station.clickCount st).
Proof.
  split; [apply search_text_fulfils|]. intros result.
  unfold search. destruct (rawResults net baseUrl o) as [raw|] eqn:Hraw;
    [|discriminate].
  intros H. injection H as <-. exists raw.
  split; [reflexivity|]. split; [reflexivity|]. split.
  - intros r Hr. rewrite filter_In, <- truthy_not_empty. split.
    + now intros [_ H].
    + intros H. split; [|exact H]. now apply in_map.
  - intros st Hst. apply filter_In in Hst. destruct Hst as [Hin Hurl].
    apply in_map_iff in Hin. destruct Hin as (r & <- & Hr).
    exists r. split; [exact Hr|]. split; [reflexivity|].
    split; [intros u E; cbn [normalize Station.id]; now rewrite E|].
    split; [intros E; cbn [normalize Station.id]; now rewrite E|].
    split; [now apply truthy_not_empty|].
    split; [apply normalize_url|].
    split; [apply mapGenre_range|].
    split; [apply normalize_tags_length|].
    split; [intros [E | E]; unfold normalize; cbn [Station.tags Station.genre];
            rewrite E; now split|].
    repeat (split; [apply opt_or_textField|]).
    repeat (split; [apply num_or_numField|]).
    apply num_or_numField.
Qed.

Lemma search_normalizes_witness :
  search Samples.netJazz Samples.base Samples.optsJazz
    = Fulfilled [normalize Samples.rawJazz; normalize Samples.rawRock] /\
  exists raw,
    rawResults Samples.netJazz Samples.base Samples.optsJazz = Fulfilled raw /\
    [normalize Samples.rawJazz; normalize Samples.rawRock]
      = filter (fun s => truthy (Station.url s)) (map normalize raw) /\
    forall st, In st [normalize Samples.rawJazz; normalize Samples.rawRock] ->
      exists r, In r raw /\
        (forall u, Raw.stationuuid r = Some u -> Station.id st = "api-" ++ u) /\
        Station.url st <> EmptyString.
Proof.
  split; [reflexivity|].
  destruct (search_normalizes Samples.netJazz Samples.base Samples.optsJazz)
    as [_ Hall].
  destruct (Hall [normalize Samples.rawJazz; normalize Samples.rawRock] eq_refl)
    as (raw & Hraw & Hres & _ & Hst).
  exists raw. split; [assumption|]. split; [assumption|].
  intros st Hin. destruct (Hst st Hin) as (r & Hr & _ & Hid & _ & Hurl & _).
  exists r. repeat split; assumption.
Defined.

Example normalize_blank :
  normalize Samples.rawBlank
  = Station.mk "api-undefined" "Unknown" EmptyString EmptyString EmptyString
      EmptyString "Various" [] EmptyString EmptyString 0 EmptyString 0 0 None.
Proof. reflexivity. Qed.

Example normalize_tags_example :
  Station.tags (normalize (Samples.rawOf "u" "n" " a, b ,,c,d,e,f " "x"))
  = ["a"; "b"; "c"; "d"; "e"].
Proof. reflexivity. Qed.

(** *** The merge of the two searches *)

Lemma eqb_uuid_eq a b : eqb_uuid a b = true <-> a = b.
Proof.
  destruct a as [x|], b as [y|]; cbn; try (split; congruence).
  rewrite String.eqb_eq. split; congruence.
Qed.

Lemma seenHas_In byName u : seenHas byName u = true <-> In u (uuids byName).
Proof.
  unfold seenHas, uuids. rewrite existsb_exists, in_map_iff.
  split; intros (s & H1 & H2).
  - exists s. split; [now apply eqb_uuid_eq | assumption].
  - exists s. split; [assumption | now apply eqb_uuid_eq].
Qed.

Lemma uuid_eq_dec (a b : option string) : {a = b} + {a <> b}.
Proof. decide equality. apply string_dec. Defined.

Lemma uuids_filter_incl p l u : In u (uuids (filter p l)) -> In u (uuids l).
Proof.
  unfold uuids. rewrite !in_map_iff. intros (s & Hs & Hin).
  apply filter_In in Hin. exists s. tauto.
Qed.

Lemma NoDup_uuids_filter p l : NoDup (uuids l) -> NoDup (uuids (filter p l)).
Proof.
  induction l as [|s l IH]; cbn; intros H; [constructor|].
  inversion H as [|? ? Hnot Hl]; subst.
  destruct (p s); cbn.
  - constructor; [|now apply IH].
    intros Hin. apply Hnot. now apply uuids_filter_incl in Hin.
  - now apply IH.
Qed.

(** C10, as the code has it. With a non-empty trimmed query the merged raw
    list is the name-search answer in its order, followed by the
    tag-search answers, in their order, whose stationuuid is not one of
    the name-search answer's; a failed request contributes the empty list.
    No stationuuid of a kept tag answer repeats one of the name answer's,
    and when neither answer repeats a stationuuid within itself, no
    stationuuid occurs twice in the merged list. *)
Theorem search_merge_dedup net baseUrl o :
  truthy (trim (query o)) = true ->
  exists byName byTag kept,
    rawResults net baseUrl o = Fulfilled (byName ++ kept)%list /\
    (match nameRequest net baseUrl o with
     | Fulfilled v => byName = v
     | Rejected => byName = []
     end) /\
    (match tagRequest net baseUrl o with
     | Fulfilled v => byTag = v
     | Rejected => byTag = []
     end) /\
    kept = filter (fun s => if in_dec uuid_eq_dec (Raw.stationuuid s) (uuids byName)
                            then false else true) byTag /\
    (forall s, In s kept <->
               In s byTag /\ ~ In (Raw.stationuuid s) (uuids byName)) /\
    (forall u, In u (uuids byName) -> ~ In u (uuids kept)) /\
    (NoDup (uuids byName) -> NoDup (uuids byTag) ->
     NoDup (uuids (byName ++ kept)%list)).
Proof.
  intros Hq.
  set (byName := valueOrEmpty (nameRequest net baseUrl o)).
  set (byTag := valueOrEmpty (tagRequest net baseUrl o)).
  set (kept := filter (fun s => negb (seenHas byName (Raw.stationuuid s))) byTag).
  exists byName, byTag, kept.
  assert (Hkept : forall s, In s kept <->
            In s byTag /\ ~ In (Raw.stationuuid s) (uuids byName)).
  { intros s. unfold kept. rewrite filter_In, negb_true_iff.
    rewrite <- seenHas_In. destruct (seenHas byName (Raw.stationuuid s));
      intuition congruence. }
  assert (Hsep : forall u, In u (uuids byName) -> ~ In u (uuids kept)).
  { intros u Hu Hk. unfold uuids in Hk. apply in_map_iff in Hk.
    destruct Hk as (s & <- & Hs). apply Hkept in Hs. tauto. }
  split; [unfold rawResults; now rewrite Hq|].
  split; [subst byName; now destruct (nameRequest net baseUrl o)|].
  split; [subst byTag; now destruct (tagRequest net baseUrl o)|].
  split.
  { unfold kept. apply filter_ext. intros s.
    destruct (in_dec uuid_eq_dec (Raw.stationuuid s) (uuids byName)) as [Hin|Hin].
    - apply seenHas_In in Hin. now rewrite Hin.
    - destruct (seenHas byName (Raw.stationuuid s)) eqn:E; [|reflexivity].
      apply seenHas_In in E. contradiction. }
  split; [exact Hkept|]. split; [exact Hsep|].
  intros Hn Ht. unfold uuids. rewrite map_app. apply NoDup_app.
  - exact Hn.
  - now apply NoDup_uuids_filter.
  - exact Hsep.
Qed.

Lemma search_merge_dedup_witness :
  truthy (trim (query Samples.optsJazz)) = true /\
  exists byName kept,
    rawResults Samples.netJazz Samples.base Samples.optsJazz
      = Fulfilled (byName ++ kept)%list /\
    (forall u, In u (uuids byName) -> ~ In u (uuids kept)).
Proof.
  split; [reflexivity|].
  destruct (search_merge_dedup Samples.netJazz Samples.base Samples.optsJazz
              eq_refl)
    as (byName & byTag & kept & Hraw & _ & _ & _ & _ & Hsep & _).
  exists byName, kept. split; assumption.
Defined.

Example search_merge_example :
  rawResults Samples.netJazz Samples.base Samples.optsJazz
  = Fulfilled [Samples.rawJazz; Samples.rawMute; Samples.rawRock].
Proof. reflexivity. Qed.

(** C10 as stated fails: the merge only removes the tag answers already
    among the name answers.  A tag answer that lists the stationuuid "u1"
    twice, with a name answer that does not have it, gives a merged list
    in which "u1" occurs twice. *)
Lemma search_merge_repeats_uuid :
  truthy (trim (query Samples.optsJazz)) = true /\
  rawResults Samples.netRepeat Samples.base Samples.optsJazz
    = Fulfilled [Samples.rawRock; Samples.rawJazz; Samples.rawJazzAgain] /\
  uuids [Samples.rawRock; Samples.rawJazz; Samples.rawJazzAgain]
    = [Some "u2"; Some "u1"; Some "u1"] /\
  ~ NoDup (uuids [Samples.rawRock; Samples.rawJazz; Samples.rawJazzAgain]).
Proof.
  split; [reflexivity|]. split; [reflexivity|]. split; [reflexivity|].
  intros H. inversion H as [|? ? _ H1]; subst.
  inversion H1 as [|? ? Hnot _]; subst.
  apply Hnot. left. reflexivity.
Qed.

End ApiClient.

(* ===================================================================== *)
(** ** Proofs: the favourites store *)
(* ===================================================================== *)

Section StringSets.

Lemma has_In s x : StrSet.has s x = true <-> In x s.
Proof.
  unfold StrSet.has. rewrite existsb_exists. split.
  - intros (y & Hy & E). apply String.eqb_eq in E. now subst.
  - intros H. exists x. split; [assumption | apply String.eqb_refl].
Qed.

Lemma has_false_In s x : StrSet.has s x = false <-> ~ In x s.
Proof.
  rewrite <- has_In. destruct (StrSet.has s x); split; congruence.
Qed.

Lemma In_add s x y : In y (StrSet.add s x) <-> In y s \/ y = x.
Proof.
  unfold StrSet.add. destruct (StrSet.has s x) eqn:E.
  - apply has_In in E. split; [tauto|]. intros [H | ->]; assumption.
  - rewrite in_app_iff. cbn. intuition congruence.
Qed.

Lemma In_delete s x y : In y (StrSet.delete s x) <-> In y s /\ y <> x.
Proof.
  unfold StrSet.delete. rewrite filter_In, negb_true_iff, String.eqb_neq.
  reflexivity.
Qed.

Lemma NoDup_add s x : NoDup s -> NoDup (StrSet.add s x).
Proof.
  intros H. unfold StrSet.add. destruct (StrSet.has s x) eqn:E; [assumption|].
  apply has_false_In in E. apply NoDup_app; [assumption | | ].
  - constructor; [intros [] | constructor].
  - intros a Ha [<- | []]. contradiction.
Qed.

Lemma NoDup_delete s x : NoDup s -> NoDup (StrSet.delete s x).
Proof. apply NoDup_filter. Qed.

Lemma NoDup_fold_add l acc : NoDup acc -> NoDup (fold_left StrSet.add l acc).
Proof.
  revert acc. induction l as [|x l IH]; intros acc H; cbn; [assumption|].
  apply IH. now apply NoDup_add.
Qed.

Lemma NoDup_ofList l : NoDup (StrSet.ofList l).
Proof. apply NoDup_fold_add. constructor. Qed.

Lemma fold_add_fresh l acc :
  NoDup (acc ++ l) -> fold_left StrSet.add l acc = (acc ++ l)%list.
Proof.
  revert acc. induction l as [|x l IH]; intros acc H; cbn.
  - now rewrite app_nil_r.
  - assert (Hx : StrSet.has acc x = false).
    { apply has_false_In. intros Hin.
      apply NoDup_remove_2 in H. apply H. apply in_or_app. now left. }
    unfold StrSet.add at 2. rewrite Hx.
    rewrite IH; rewrite <- app_assoc; cbn; [reflexivity | assumption].
Qed.

(** Building a set from the elements of a set gives the set back. *)
Lemma ofList_NoDup s : NoDup s -> StrSet.ofList s = s.
Proof. intros H. unfold StrSet.ofList. now rewrite fold_add_fresh. Qed.

End StringSets.

Section Objects.

Lemma get_None_keys m k : Obj.get m k = None <-> ~ In k (Obj.keys m).
Proof.
  induction m as [|[k' v] m IH]; cbn; [tauto|].
  destruct (String.eqb k' k) eqn:E.
  - apply String.eqb_eq in E. split; [discriminate | tauto].
  - apply String.eqb_neq in E. rewrite IH. tauto.
Qed.

Lemma keys_set m k v x : In x (Obj.keys (Obj.set m k v)) <-> In x (Obj.keys m) \/ x = k.
Proof.
  induction m as [|[k' v'] m IH]; cbn.
  - intuition congruence.
  - destruct (String.eqb k' k) eqn:E; cbn.
    + apply String.eqb_eq in E. subst. intuition congruence.
    + rewrite IH. tauto.
Qed.

Lemma get_set_eq m k v : Obj.get (Obj.set m k v) k = Some v.
Proof.
  induction m as [|[k' v'] m IH]; cbn.
  - now rewrite String.eqb_refl.
  - destruct (String.eqb k' k) eqn:E; cbn; now rewrite E.
Qed.

Lemma keys_delete m k x : In x (Obj.keys (Obj.delete m k)) <-> In x (Obj.keys m) /\ x <> k.
Proof.
  unfold Obj.keys, Obj.delete. rewrite !in_map_iff. split.
  - intros ([k' v] & <- & H). apply filter_In in H. cbn in *.
    destruct H as [H E]. apply negb_true_iff, String.eqb_neq in E.
    split; [|assumption]. exists (k', v). now split.
  - intros [([k' v] & <- & H) Hne]. exists (k', v). split; [reflexivity|].
    apply filter_In. split; [assumption|]. cbn.
    now apply negb_true_iff, String.eqb_neq.
Qed.

End Objects.

Section FavouritesStore.
Import JS Favorites.

Lemma arrayIncludes_In arr x : arrayIncludes arr x = true <-> In x arr.
Proof. apply has_In. Qed.

Lemma loadIds_saveIds s ls :
  quotaExceeded ls = false -> NoDup s -> loadIds (saveIds s ls) = s.
Proof.
  intros Hq Hs. unfold saveIds, loadIds. rewrite Hq. cbn.
  now apply ofList_NoDup.
Qed.

Lemma loadExtra_saveExtra m ls :
  quotaExceeded ls = false -> loadExtra (saveExtra m ls) = m.
Proof. intros Hq. unfold saveExtra, loadExtra. now rewrite Hq. Qed.

Lemma loadExtra_saveIds s ls : loadExtra (saveIds s ls) = loadExtra ls.
Proof. unfold saveIds. now destruct (quotaExceeded ls). Qed.

Lemma loadIds_saveExtra m ls : loadIds (saveExtra m ls) = loadIds ls.
Proof. unfold saveExtra. now destruct (quotaExceeded ls). Qed.

Lemma quota_saveIds s ls : quotaExceeded (saveIds s ls) = quotaExceeded ls.
Proof. unfold saveIds. now destruct (quotaExceeded ls) eqn:E. Qed.

Lemma quota_saveExtra m ls : quotaExceeded (saveExtra m ls) = quotaExceeded ls.
Proof. unfold saveExtra. now destruct (quotaExceeded ls) eqn:E. Qed.

Lemma flag_saveIds s ls : defaults_seeded (saveIds s ls) = defaults_seeded ls.
Proof. unfold saveIds. now destruct (quotaExceeded ls). Qed.

Lemma flag_saveExtra m ls : defaults_seeded (saveExtra m ls) = defaults_seeded ls.
Proof. unfold saveExtra. now destruct (quotaExceeded ls). Qed.

Lemma seedDefaults_quota ls : quotaExceeded (seedDefaults ls) = quotaExceeded ls.
Proof.
  unfold seedDefaults. destruct (opt_truthy (defaults_seeded ls)); [reflexivity|].
  cbv zeta.
  match goal with |- context [if ?b then _ else _] => destruct b eqn:E end.
  - now rewrite quota_saveIds, quota_saveExtra in *.
  - cbn. now rewrite quota_saveIds, quota_saveExtra in *.
Qed.

Lemma seedDefaults_flag ls :
  quotaExceeded ls = false ->
  opt_truthy (defaults_seeded (seedDefaults ls)) = true.
Proof.
  intros Hq. unfold seedDefaults.
  destruct (opt_truthy (defaults_seeded ls)) eqn:E; [assumption|].
  cbv zeta. rewrite quota_saveIds, quota_saveExtra, Hq. reflexivity.
Qed.

Lemma NoDup_loadIds ls : NoDup (loadIds ls).
Proof.
  unfold loadIds. destruct (favourites ls); try constructor. apply NoDup_ofList.
Qed.

Lemma prune_invariant ids m ls :
  NoDup ids -> loadIds ls = ids -> loadExtra ls = m ->
  opt_truthy (defaults_seeded ls) = true -> quotaExceeded ls = false ->
  invariant (prune (mkState ids m ls)).
Proof.
  intros Hn Hi He Hf Hq. unfold prune. cbn [favIds extraMap storage].
  destruct (existsb _ (Obj.keys m)) eqn:Hd.
  - constructor; cbn [favIds extraMap storage].
    + assumption.
    + intros k Hk. unfold Obj.keys in Hk. apply in_map_iff in Hk.
      destruct Hk as ([k' v] & <- & Hin). apply filter_In in Hin. tauto.
    + now rewrite loadIds_saveExtra.
    + now apply loadExtra_saveExtra.
    + now rewrite flag_saveExtra.
    + now rewrite quota_saveExtra.
  - constructor; cbn [favIds extraMap storage]; try assumption.
    intros k Hk.
    destruct (StrSet.has ids k) eqn:E; [reflexivity|].
    assert (Hex : existsb (fun id => negb (StrSet.has ids id)) (Obj.keys m) = true).
    { apply existsb_exists. exists k. now rewrite E. }
    congruence.
Qed.

(** The page load establishes the invariant. *)
Lemma load_invariant ls : quotaExceeded ls = false -> invariant (load ls).
Proof.
  intros Hq. unfold load. apply prune_invariant.
  - apply (NoDup_loadIds (seedDefaults ls)).
  - reflexivity.
  - reflexivity.
  - now apply seedDefaults_flag.
  - now rewrite seedDefaults_quota.
Qed.

Lemma toggle_invariant id obj lang st :
  invariant st -> invariant (toggle id obj lang st).
Proof.
  intros [Hn Hk Hi He Hf Hq]. unfold toggle.
  destruct (StrSet.has (favIds st) id) eqn:Hhas.
  - destruct (arrayIncludes DEFAULT_IDS id); [now constructor|].
    destruct (Obj.get (extraMap st) id) eqn:Hget.
    + constructor; cbn [favIds extraMap storage].
      * now apply NoDup_delete.
      * intros k Hin. apply keys_delete in Hin. destruct Hin as [Hin Hne].
        apply has_In, In_delete. split; [|assumption]. now apply has_In, Hk.
      * apply loadIds_saveIds; [now rewrite quota_saveExtra|now apply NoDup_delete].
      * rewrite loadExtra_saveIds. now apply loadExtra_saveExtra.
      * now rewrite flag_saveIds, flag_saveExtra.
      * now rewrite quota_saveIds, quota_saveExtra.
    + constructor; cbn [favIds extraMap storage].
      * now apply NoDup_delete.
      * intros k Hin. apply has_In, In_delete. split; [now apply has_In, Hk|].
        intros ->. apply get_None_keys in Hget. contradiction.
      * apply loadIds_saveIds; [assumption|now apply NoDup_delete].
      * now rewrite loadExtra_saveIds.
      * now rewrite flag_saveIds.
      * now rewrite quota_saveIds.
  - destruct obj as [o|].
    + constructor; cbn [favIds extraMap storage].
      * now apply NoDup_add.
      * intros k Hin. apply keys_set in Hin. apply has_In, In_add.
        destruct Hin as [Hin | ->]; [left; now apply has_In, Hk | now right].
      * apply loadIds_saveIds; [now rewrite quota_saveExtra|now apply NoDup_add].
      * rewrite loadExtra_saveIds. now apply loadExtra_saveExtra.
      * now rewrite flag_saveIds, flag_saveExtra.
      * now rewrite quota_saveIds, quota_saveExtra.
    + constructor; cbn [favIds extraMap storage].
      * now apply NoDup_add.
      * intros k Hin. apply has_In, In_add. left. now apply has_In, Hk.
      * apply loadIds_saveIds; [assumption|now apply NoDup_add].
      * now rewrite loadExtra_saveIds.
      * now rewrite flag_saveIds.
      * now rewrite quota_saveIds.
Qed.

Lemma fold_apply_invariant calls st :
  invariant st -> invariant (fold_left apply calls st).
Proof.
  revert st. induction calls as [|c calls IH]; intros st H; cbn; [assumption|].
  apply IH. now apply toggle_invariant.
Qed.

Lemma session_invariant ls calls :
  quotaExceeded ls = false -> invariant (session ls calls).
Proof. intros Hq. apply fold_apply_invariant. now apply load_invariant. Qed.

(** Under the invariant a page reload reads the same state back. *)
Lemma reload_invariant st : invariant st -> load (storage st) = st.
Proof.
  intros [Hn Hk Hi He Hf Hq]. unfold load, seedDefaults. rewrite Hf, Hi, He.
  unfold prune. cbn [favIds extraMap storage].
  destruct (existsb _ (Obj.keys (extraMap st))) eqn:Hd.
  - apply existsb_exists in Hd. destruct Hd as (k & Hin & Hneg).
    rewrite (Hk k Hin) in Hneg. discriminate.
  - now destruct st.
Qed.

(** C3, as the code has it. While [localStorage] takes the writes, after
    the page load and any sequence of [toggle] calls the ids read from
    'radiowave_favourites' are the in-memory [favIds], the map read from
    'radiowave_extra_stations' is the in-memory [extraMap], and a reload
    (the module body run on that storage) gives the same state back; a
    further [toggle] that adds a station with a station object stores,
    under its id, that object with [favLanguage] set to the given
    language, or to 'other' when none is given. *)
Theorem favourites_persisted ls calls :
  quotaExceeded ls = false ->
  let st := session ls calls in
  loadIds (storage st) = favIds st /\
  loadExtra (storage st) = extraMap st /\
  load (storage st) = st /\
  forall id obj lang,
    has st id = false ->
    let st' := toggle id (Some obj) lang st in
    has st' id = true /\
    StrSet.has (loadIds (storage st')) id = true /\
    Obj.get (loadExtra (storage st')) id
      = Some (Station.withFavLanguage obj (opt_or lang "other")).
Proof.
  intros Hq st. pose proof (session_invariant ls calls Hq) as Hinv.
  fold st in Hinv.
  split; [apply (inv_ids _ Hinv)|]. split; [apply (inv_extra _ Hinv)|].
  split; [now apply reload_invariant|].
  intros id obj lang Hhas st'.
  pose proof (toggle_invariant id (Some obj) lang st Hinv) as Hinv'.
  fold st' in Hinv'.
  assert (Hin : has st' id = true).
  { unfold has in *. subst st'. unfold toggle. rewrite Hhas.
    cbn [favIds]. apply has_In, In_add. now right. }
  split; [exact Hin|]. rewrite (inv_ids _ Hinv'), (inv_extra _ Hinv').
  split; [exact Hin|].
  unfold has in Hhas. subst st'. unfold toggle. rewrite Hhas. cbn [extraMap].
  apply get_set_eq.
Qed.

Lemma favourites_persisted_witness :
  let st := session Samples.freshStorage
              [Samples.addJazz; Samples.addRock; Samples.dropJazz] in
  favIds st = (DEFAULT_IDS ++ ["api-u2"])%list /\
  loadIds (storage st) = favIds st /\
  loadExtra (storage st) = extraMap st /\
  load (storage st) = st.
Proof.
  split; [reflexivity|].
  destruct (favourites_persisted Samples.freshStorage
              [Samples.addJazz; Samples.addRock; Samples.dropJazz] eq_refl)
    as (H1 & H2 & H3 & _).
  repeat split; assumption.
Defined.

(** C3 as stated fails when the storage is full.  [saveIds] and
    [saveExtra] swallow the exception of [setItem]: the station is a
    favourite in memory, and neither key has changed. *)
Lemma favourites_lost_on_full_storage :
  let st := session Samples.fullStorage [Samples.addJazz] in
  has st "api-u1" = true /\
  StrSet.has (loadIds (storage st)) "api-u1" = false /\
  Obj.get (loadExtra (storage st)) "api-u1" = None /\
  loadIds (storage st) <> favIds st /\
  favIds (load (storage st)) <> favIds st.
Proof.
  cbv zeta. split; [reflexivity|]. split; [reflexivity|].
  split; [reflexivity|]. split; intros H; vm_compute in H; discriminate H.
Qed.

(** *** Permanent defaults *)

Lemma toggle_default_noop id obj lang st :
  In id DEFAULT_IDS -> has st id = true -> toggle id obj lang st = st.
Proof.
  intros Hd Hh. unfold toggle. unfold has in Hh. rewrite Hh.
  apply arrayIncludes_In in Hd. now rewrite Hd.
Qed.

Lemma toggle_seeded id obj lang st : seeded st -> seeded (toggle id obj lang st).
Proof.
  intros Hs d Hd. specialize (Hs d Hd). unfold toggle.
  destruct (StrSet.has (favIds st) id) eqn:Hhas.
  - destruct (arrayIncludes DEFAULT_IDS id) eqn:Hdef; [assumption|].
    assert (Hne : d <> id).
    { intros ->. apply arrayIncludes_In in Hd. congruence. }
    destruct (Obj.get (extraMap st) id); cbn [favIds];
      apply has_In, In_delete; (split; [now apply has_In | assumption]).
  - destruct obj; cbn [favIds]; apply has_In, In_add; left; now apply has_In.
Qed.

Lemma fold_apply_seeded calls st : seeded st -> seeded (fold_left apply calls st).
Proof.
  revert st. induction calls as [|c calls IH]; intros st H; cbn; [assumption|].
  apply IH. now apply toggle_seeded.
Qed.

(** The first page load on a storage that takes writes seeds the defaults. *)
Lemma load_fresh_seeded : seeded (load Samples.freshStorage).
Proof.
  intros id Hid. cbn in Hid.
  repeat (destruct Hid as [<- | Hid]; [reflexivity|]). contradiction.
Qed.

(** C8. A default station stays a favourite through every sequence of
    [toggle] calls that starts in a seeded state, and a [toggle] on a
    default id that is a favourite returns the state as it was: [favIds],
    [extraMap] and the storage are unchanged. *)
Theorem defaults_permanent st calls id :
  In id DEFAULT_IDS ->
  seeded st ->
  has (fold_left apply calls st) id = true /\
  forall obj lang st1,
    has st1 id = true -> toggle id obj lang st1 = st1.
Proof.
  intros Hd Hs. split.
  - now apply (fold_apply_seeded calls st Hs).
  - intros obj lang st1 Hh. now apply toggle_default_noop.
Qed.

Lemma defaults_permanent_witness :
  has (fold_left apply
         [Samples.dropRelax; Samples.addJazz; Samples.dropRelax]
         (load Samples.freshStorage))
      Samples.relaxId = true.
Proof.
  apply (defaults_permanent (load Samples.freshStorage)
           [Samples.dropRelax; Samples.addJazz; Samples.dropRelax]
           Samples.relaxId).
  - left. reflexivity.
  - exact load_fresh_seeded.
Defined.

End FavouritesStore.

(* ===================================================================== *)
(** ** Proofs: the playback lifecycle *)
(* ===================================================================== *)

Section PlaybackLifecycle.
Import JS Player.

Lemma owed_app n l1 l2 : owed n (l1 ++ l2) = owed n l1 + owed n l2.
Proof. induction l1 as [|t l1 IH]; cbn; [reflexivity | rewrite IH; lia]. Qed.

Lemma owed_remove_nth n l : forall i t,
  nth_error l i = Some t -> owed n l = owed n (remove_nth i l) + owes n t.
Proof.
  induction l as [|a l IH]; intros [|i] t H; cbn in H; try discriminate.
  - injection H as ->. unfold remove_nth. cbn. lia.
  - change (remove_nth (S i) (a :: l)) with (a :: remove_nth i l).
    cbn [owed]. rewrite (IH i t H). lia.
Qed.

Lemma count_occ_snoc l (c n : nat) :
  count_occ Nat.eq_dec (l ++ [c]) n
  = count_occ Nat.eq_dec l n + (if Nat.eqb c n then 1 else 0).
Proof.
  rewrite count_occ_app. cbn. destruct (Nat.eq_dec c n) as [->|Hne].
  - now rewrite Nat.eqb_refl.
  - apply Nat.eqb_neq in Hne. now rewrite Hne.
Qed.

(** Case analysis on the browser flags and the lock a handler tests. *)
Ltac by_flags :=
  repeat match goal with
         | |- context [hasWakeLock ?x] => destruct (hasWakeLock x)
         | |- context [hasMediaSession ?x] => destruct (hasMediaSession x)
         | |- context [_wakeLock ?x] => destruct (_wakeLock x)
         | |- context [_isPlaying ?x] => destruct (_isPlaying x)
         end.

(** The same on the flags of a named state only, computing in between. *)
Ltac by_nav :=
  cbn;
  repeat (match goal with
          | |- context [hasWakeLock (nav ?x)] =>
              is_var x; destruct (hasWakeLock (nav x))
          | |- context [hasMediaSession (nav ?x)] =>
              is_var x; destruct (hasMediaSession (nav x))
          | |- context [_wakeLock ?x] =>
              is_var x;
              let E := fresh "E" in
              destruct (_wakeLock x) eqn:E; cbn; rewrite ?E;
              try congruence
          end; cbn).

(** A handler that keeps the budget of every call and the call counter
    keeps the bound. *)
Lemma bounded_same st st' :
  (forall n, budget n st' = budget n st) -> calls st' = calls st ->
  bounded st -> bounded st'.
Proof. intros Hb Hc H n. rewrite Hb, Hc. apply H. Qed.

Lemma play_bounded station st : bounded st -> bounded (play station st).
Proof.
  intros H. unfold play. destruct station as [s|]; [|assumption].
  destruct (negb (truthy (Station.url s))); [assumption|].
  intros n. destruct (H n) as [H1 H2].
  unfold budget, retriesOf, setPlayIcon, setStatus, enqueue in *. cbn.
  rewrite owed_app. cbn.
  destruct (Nat.eqb (calls st) n) eqn:E.
  - apply Nat.eqb_eq in E. subst n. specialize (H2 (le_n _)). lia.
  - apply Nat.eqb_neq in E. split; [lia|]. intros Hle.
    assert (calls st <= n) by lia. specialize (H2 H0). lia.
Qed.

Lemma settle_bounded i ok st : bounded st -> bounded (settle i ok st).
Proof.
  intros H. unfold settle.
  destruct (nth_error (pending st) i) as [t|] eqn:Hn; [|assumption].
  assert (Hrm : forall n, owed n (pending st)
                          = owed n (remove_nth i (pending st)) + owes n t)
    by (intros n; now apply owed_remove_nth).
  destruct t as [c|c|c| |]; [| assumption | | |].
  - (* the promise of play *)
    destruct ok.
    + intros n. destruct (H n) as [H1 H2]. specialize (Hrm n).
      unfold playResolved, setMediaSessionState, requestWakeLock, enqueue,
        budget, retriesOf, setPlayIcon, setStatus in *.
      cbn. by_flags; cbn; rewrite ?owed_app; cbn; split; try intros Hc; lia.
    + intros n. destruct (H n) as [H1 H2]. specialize (Hrm n).
      unfold playRejected, enqueue, budget, retriesOf, setStatus in *.
      cbn [_retryCount set_pending].
      destruct (_retryCount st <? MAX_RETRIES)%nat; cbn;
        rewrite ?owed_app; cbn in *; split; try intros Hc; lia.
  - (* the promise of the retry *)
    intros n. destruct (H n) as [H1 H2]. specialize (Hrm n).
    unfold retryRejected, budget, retriesOf, setStatus in *.
    destruct ok; cbn in *; split; try intros Hc; lia.
  - (* the promise of togglePlay *)
    intros n. destruct (H n) as [H1 H2]. specialize (Hrm n).
    unfold resumeResolved, resumeRejected, setMediaSessionState,
      requestWakeLock, enqueue, budget, retriesOf, setPlayIcon, setStatus in *.
    destruct ok; cbn; by_flags; cbn; rewrite ?owed_app; cbn in *;
      split; try intros Hc; lia.
  - (* the wake lock request *)
    intros n. destruct (H n) as [H1 H2]. specialize (Hrm n).
    unfold wakeLockGranted, budget, retriesOf in *.
    destruct ok; cbn in *; split; try intros Hc; lia.
Qed.

Lemma fire_bounded i st : bounded st -> bounded (fire i st).
Proof.
  intros H. unfold fire.
  destruct (nth_error (pending st) i) as [t|] eqn:Hn; [|assumption].
  destruct t as [c|c|c| |]; try assumption.
  intros n. destruct (H n) as [H1 H2].
  pose proof (owed_remove_nth n _ _ _ Hn) as Hrm.
  unfold retryFired, enqueue, budget, retriesOf in *. cbn in *.
  rewrite owed_app, count_occ_snoc. cbn.
  destruct (Nat.eqb c n); split; try intros Hc; lia.
Qed.

Lemma step_bounded st e : bounded st -> bounded (step st e).
Proof.
  intros H. destruct e; cbn [step].
  - now apply play_bounded.
  - unfold togglePlay. destruct (_currentStation st); [|assumption].
    destruct (_isPlaying st).
    + revert H. apply bounded_same; [intros n|];
        unfold setMediaSessionState, releaseWakeLock, setStatus, setPlayIcon,
          budget, retriesOf; cbn; by_flags; reflexivity.
    + destruct (truthy (audioSrc st)); [|assumption].
      revert H. apply bounded_same; [intros n|];
        unfold enqueue, setStatus, budget, retriesOf; cbn;
        rewrite ?owed_app; cbn; lia.
  - unfold playPrev. destruct (_currentStation st); [|assumption].
    destruct (_playlist st); [assumption|].
    match goal with |- context [if ?b then _ else _] => destruct b end;
      [now apply play_bounded | assumption].
  - unfold playNext. destruct (_currentStation st); [|assumption].
    destruct (_playlist st); [assumption|].
    match goal with |- context [if ?b then _ else _] => destruct b end;
      [now apply play_bounded | assumption].
  - assumption.
  - now apply settle_bounded.
  - now apply fire_bounded.
  - assumption.
  - revert H. apply bounded_same; [intros n|];
      unfold onPlaying, setMediaSessionState, requestWakeLock, enqueue,
        setStatus, setPlayIcon, budget, retriesOf; cbn; by_flags; cbn;
      rewrite ?owed_app; cbn; lia.
  - revert H. apply bounded_same; [intros n|];
      unfold onPause, setMediaSessionState, releaseWakeLock, setPlayIcon,
        budget, retriesOf; cbn; by_flags; reflexivity.
  - revert H. apply bounded_same; [intros n|];
      unfold onError, setMediaSessionState, releaseWakeLock, setPlayIcon,
        setStatus, budget, retriesOf; cbn; by_flags; reflexivity.
  - assumption.
  - assumption.
  - revert H. apply bounded_same; [intros n|];
      unfold onVisible, requestWakeLock, enqueue, budget, retriesOf;
      by_flags; cbn; rewrite ?owed_app; cbn; lia.
Qed.

Lemma run_bounded evs st : bounded st -> bounded (run st evs).
Proof.
  revert st. induction evs as [|e evs IH]; intros st H; cbn; [assumption|].
  apply IH. now apply step_bounded.
Qed.

Lemma init_bounded n : bounded (init n).
Proof. intros k. cbn. split; [lia | reflexivity]. Qed.

(** C1. In every run of the player: [play] with a station that has a
    url resets the retry count and leaves the promise of [audio.play()]
    pending; when that promise is rejected, either the retry count is
    below MAX_RETRIES and one retry timer is set, or the status becomes
    'error' and nothing is set; the timer runs the retry once; when the
    retry is rejected the status becomes 'error' and nothing further is
    pending for it.  So the retry of each call runs at most MAX_RETRIES
    times (in fact at most once), and once it has run the call has no
    promise and no retry timer left. *)
Theorem play_retry_bounded nv evs :
  let st := run (init nv) evs in
  (forall s, truthy (Station.url s) = true ->
     let st1 := step st (Play (Some s)) in
     _retryCount st1 = 0 /\ statusShown st1 = Loading /\
     pending st1 = (pending st ++ [PlayPromise (calls st)])%list) /\
  (forall i n, nth_error (pending st) i = Some (PlayPromise n) ->
     let st1 := step st (Settle i false) in
     (_retryCount st < MAX_RETRIES ->
        _retryCount st1 = S (_retryCount st) /\
        pending st1 = (remove_nth i (pending st) ++ [RetryTimer n])%list) /\
     (MAX_RETRIES <= _retryCount st ->
        statusShown st1 = Error /\
        pending st1 = remove_nth i (pending st))) /\
  (forall i n, nth_error (pending st) i = Some (RetryTimer n) ->
     let st1 := step st (Fire i) in
     retried st1 = (retried st ++ [n])%list /\
     pending st1 = (remove_nth i (pending st) ++ [RetryPromise n])%list) /\
  (forall i n, nth_error (pending st) i = Some (RetryPromise n) ->
     let st1 := step st (Settle i false) in
     statusShown st1 = Error /\
     retried st1 = retried st /\
     pending st1 = remove_nth i (pending st)) /\
  (forall n, retriesOf n st <= 1 /\ retriesOf n st <= MAX_RETRIES) /\
  (forall n, 0 < retriesOf n st -> owed n (pending st) = 0).
Proof.
  intros st.
  assert (Hb : bounded st) by (apply run_bounded, init_bounded).
  split; [|split; [|split; [|split; [|split]]]].
  - intros s Hs st1. subst st1. cbn [step]. unfold play. rewrite Hs.
    cbn. repeat split.
  - intros i n Hn st1. subst st1. cbn [step]. unfold settle. rewrite Hn.
    unfold playRejected. cbn [_retryCount set_pending]. split.
    + intros Hlt. apply Nat.ltb_lt in Hlt. rewrite Hlt. cbn. now split.
    + intros Hge. apply Nat.ltb_ge in Hge. rewrite Hge. cbn. now split.
  - intros i n Hn st1. subst st1. cbn [step]. unfold fire. rewrite Hn.
    cbn. now split.
  - intros i n Hn st1. subst st1. cbn [step]. unfold settle. rewrite Hn.
    cbn. repeat split.
  - intros n. destruct (Hb n) as [H1 _]. unfold budget, MAX_RETRIES in *. lia.
  - intros n Hpos. destruct (Hb n) as [H1 _]. unfold budget in *. lia.
Qed.

Lemma play_retry_bounded_witness :
  let st := run (init Samples.browser) Samples.failingStream in
  pending st = [RetryPromise 0] /\
  statusShown (step st (Settle 0 false)) = Error /\
  pending (step st (Settle 0 false)) = [] /\
  retriesOf 0 st <= MAX_RETRIES.
Proof.
  destruct (play_retry_bounded Samples.browser Samples.failingStream)
    as (_ & _ & _ & Hgive & Hbound & _).
  split; [reflexivity|].
  destruct (Hgive 0 0 eq_refl) as (Hs & _ & Hp).
  split; [exact Hs|]. split; [exact Hp|]. apply Hbound.
Defined.

Example retry_then_error :
  let st := run (init Samples.browser)
              (Samples.failingStream ++ [Settle 0 false]) in
  statusShown st = Error /\ pending st = [] /\ retried st = [0]
  /\ _retryCount st = 1.
Proof. repeat split. Qed.

(** C6. The wake lock is asked for where playback enters the playing
    state: when the promise of [play] or of the resume in [togglePlay] is
    fulfilled and on the 'playing' event, [_isPlaying] becomes true and
    [requestWakeLock] leaves its request pending (it asks nothing in a
    browser without the Wake Lock interface), and a granted request
    stores the sentinel.  It is given up where playback stops: after the
    'pause' and the 'error' listener, and after [togglePlay] while
    playing, [_wakeLock] is null and [_isPlaying] is false. *)
Theorem wake_lock_lifecycle st :
  (forall i n, nth_error (pending st) i = Some (PlayPromise n) ->
     let st1 := step st (Settle i true) in
     _isPlaying st1 = true /\
     pending st1 = (remove_nth i (pending st) ++ wakeRequest st)%list) /\
  (forall i, nth_error (pending st) i = Some ResumePromise ->
     let st1 := step st (Settle i true) in
     _isPlaying st1 = true /\
     pending st1 = (remove_nth i (pending st) ++ wakeRequest st)%list) /\
  (let st1 := step st AudioPlaying in
     _isPlaying st1 = true /\
     pending st1 = (pending st ++ wakeRequest st)%list) /\
  (forall i, nth_error (pending st) i = Some WakeLockRequest ->
     _wakeLock (step st (Settle i true)) = Some (sentinels st)) /\
  (let st1 := step st AudioPause in
     _wakeLock st1 = None /\ _isPlaying st1 = false) /\
  (let st1 := step st AudioError in
     _wakeLock st1 = None /\ _isPlaying st1 = false /\
     statusShown st1 = Error) /\
  (_currentStation st <> None -> _isPlaying st = true ->
     let st1 := step st TogglePlay in
     _wakeLock st1 = None /\ _isPlaying st1 = false).
Proof.
  unfold wakeRequest. cbv zeta.
  split; [|split; [|split; [|split; [|split; [|split]]]]].
  - intros i n Hn. cbn [step]. unfold settle. rewrite Hn.
    unfold playResolved, setMediaSessionState, requestWakeLock, enqueue,
      setPlayIcon, setStatus.
    by_nav; rewrite ?app_nil_r; now split.
  - intros i Hn. cbn [step]. unfold settle. rewrite Hn.
    unfold resumeResolved, setMediaSessionState, requestWakeLock, enqueue,
      setPlayIcon, setStatus.
    by_nav; rewrite ?app_nil_r; now split.
  - cbn [step].
    unfold onPlaying, setMediaSessionState, requestWakeLock, enqueue,
      setPlayIcon, setStatus.
    by_nav; rewrite ?app_nil_r; now split.
  - intros i Hn. cbn [step]. unfold settle. rewrite Hn. reflexivity.
  - cbn [step].
    unfold onPause, setMediaSessionState, releaseWakeLock, setPlayIcon.
    by_nav; now split.
  - cbn [step].
    unfold onError, setMediaSessionState, releaseWakeLock, setPlayIcon,
      setStatus.
    by_nav; repeat split.
  - intros Hcur Hplay. cbn [step]. unfold togglePlay.
    destruct (_currentStation st); [|contradiction]. rewrite Hplay.
    unfold setMediaSessionState, releaseWakeLock, setPlayIcon, setStatus.
    by_nav; now split.
Qed.

Lemma wake_lock_lifecycle_witness :
  let st := run (init Samples.browser) Samples.playingStream in
  _wakeLock st = Some 0 /\ _isPlaying st = true /\
  _wakeLock (step st TogglePlay) = None /\
  _isPlaying (step st TogglePlay) = false /\
  _wakeLock (step st AudioPause) = None /\
  _isPlaying (step st AudioPause) = false.
Proof.
  cbv zeta.
  destruct (wake_lock_lifecycle
              (run (init Samples.browser) Samples.playingStream))
    as (_ & _ & _ & _ & Hpause & _ & Htoggle).
  split; [reflexivity|]. split; [reflexivity|].
  destruct (Htoggle ltac:(discriminate) eq_refl) as [H1 H2].
  destruct Hpause as [H3 H4].
  repeat split; assumption.
Defined.

End PlaybackLifecycle.

(* ===================================================================== *)
(** ** Proofs: the view orchestrator *)
(* ===================================================================== *)

Section ViewOrchestrator.
Import JS App.

(** Case analysis on whatever the goal branches on. *)
Ltac branches :=
  repeat match goal with
         | |- context [match ?p with _ => _ end] => destruct p eqn:?
         end.

Lemma In_fold_add l acc x :
  In x (fold_left StrSet.add l acc) <-> In x acc \/ In x l.
Proof.
  revert acc. induction l as [|y l IH]; intros acc; cbn; [tauto|].
  rewrite IH, In_add. intuition congruence.
Qed.

Lemma has_ofList l x : StrSet.has (StrSet.ofList l) x = StrSet.has l x.
Proof.
  destruct (StrSet.has l x) eqn:E.
  - apply has_In. apply has_In in E. unfold StrSet.ofList.
    apply In_fold_add. now right.
  - apply has_false_In. apply has_false_In in E. unfold StrSet.ofList.
    rewrite In_fold_add. cbn. tauto.
Qed.

Lemma filter_filter {A} (p q : A -> bool) l :
  filter p (filter q l) = filter (fun x => q x && p x) l.
Proof.
  induction l as [|a l IH]; cbn; [reflexivity|].
  destruct (q a); cbn; [destruct (p a)|]; now rewrite IH.
Qed.

Lemma filter_map {A B} (p : B -> bool) (f : A -> B) l :
  filter p (map f l) = map f (filter (fun x => p (f x)) l).
Proof.
  induction l as [|a l IH]; cbn; [reflexivity|].
  destruct (p (f a)); cbn; now rewrite IH.
Qed.

Lemma withDefaultLanguage_id s :
  Station.id (Favorites.withDefaultLanguage s) = Station.id s.
Proof. unfold Favorites.withDefaultLanguage. now destruct (Station.favLanguage s). Qed.

Lemma withDefaultLanguage_language s :
  languageOf (Favorites.withDefaultLanguage s) = languageOf s.
Proof.
  unfold Favorites.withDefaultLanguage, languageOf.
  destruct (Station.favLanguage s) eqn:E; [now rewrite E | reflexivity].
Qed.

(** The list [showFavourites] computes, in the shape of the code. *)
Lemma showFavourites_pool st :
  (if negb (String.eqb (activeLanguage st) "all")
   then filter (fun s => String.eqb (languageOf s) (activeLanguage st))
   else fun l => l)
    (filter (fun s => StrSet.has (StrSet.ofList (Favorites.getAll (favs st)))
                                 (Station.id s))
            (Favorites.getSavedStations (favs st)))
  = favouritesView (favs st) (activeLanguage st).
Proof.
  unfold favouritesView, Favorites.getSavedStations, Favorites.getAll.
  rewrite filter_map, filter_filter.
  destruct (String.eqb (activeLanguage st) "all") eqn:E; cbn [negb].
  - f_equal. apply filter_ext. intros s.
    rewrite withDefaultLanguage_id, has_ofList.
    destruct (StrSet.has _ _); reflexivity.
  - rewrite filter_map, filter_filter. f_equal. apply filter_ext. intros s.
    rewrite withDefaultLanguage_id, withDefaultLanguage_language, has_ofList.
    destruct (StrSet.has _ _); reflexivity.
Qed.

Lemma showFavourites_shows st :
  let st1 := showFavourites st in
  displayedStations st1 = favouritesView (favs st) (activeLanguage st) /\
  Player._playlist (player st1) = favouritesView (favs st) (activeLanguage st) /\
  rendered st1 = favouritesView (favs st) (activeLanguage st).
Proof.
  cbv zeta. rewrite <- showFavourites_pool. unfold showFavourites.
  cbn -[filter Favorites.getSavedStations StrSet.ofList String.eqb].
  destruct (negb (String.eqb (activeLanguage st) "all")); branches;
    cbn -[filter Favorites.getSavedStations StrSet.ofList String.eqb];
    repeat split; congruence.
Qed.

Ltac frame_of f :=
  cbv zeta; unfold f;
  cbn -[filter Favorites.getSavedStations StrSet.ofList String.eqb trim
        RadioAPI.search Favorites.toggle Player.step];
  branches;
  cbn -[filter Favorites.getSavedStations StrSet.ofList String.eqb trim
        RadioAPI.search Favorites.toggle Player.step];
  repeat split.

Lemma showFavourites_frame st :
  let st1 := showFavourites st in
  showingFavourites st1 = showingFavourites st /\
  activeLanguage st1 = activeLanguage st /\
  favs st1 = favs st /\
  sched st1 = sched st /\
  inflight st1 = inflight st.
Proof. frame_of showFavourites. Qed.

Lemma enterFavouritesMode_frame st :
  let st1 := enterFavouritesMode st in
  favs st1 = favs st /\ sched st1 = sched st /\ inflight st1 = inflight st.
Proof.
  cbv zeta. unfold enterFavouritesMode. cbv zeta.
  match goal with |- context [showFavourites ?s] =>
    destruct (showFavourites_frame s) as (_ & _ & Hf & Hs & Hi) end.
  rewrite Hf, Hs, Hi. repeat split.
Qed.

Lemma enterFavouritesMode_enters st : inFavouritesMode (enterFavouritesMode st).
Proof.
  unfold inFavouritesMode, enterFavouritesMode. cbv zeta.
  match goal with |- context [showFavourites ?s] =>
    destruct (showFavourites_frame s) as (H1 & H2 & H3 & _);
    destruct (showFavourites_shows s) as (H4 & _ & H5)
  end.
  rewrite H1, H2, H3, H4, H5. repeat split.
Qed.

(** C7. In the favourites view the displayed list is the saved stations
    whose id is in the favourites set, restricted under a language tab
    other than 'all' to those whose favLanguage, 'other' when there is
    none, is the active language, each with its favLanguage filled in;
    the same list is the player's playlist and is rendered.  It is the
    list of [getSavedStations] under the language filter. *)
Theorem favourites_view_shown st :
  let st1 := showFavourites st in
  let shown := favouritesView (favs st) (activeLanguage st) in
  displayedStations st1 = shown /\
  Player._playlist (player st1) = shown /\
  rendered st1 = shown /\
  shown = filter (fun s => String.eqb (activeLanguage st) "all"
                           || String.eqb (languageOf s) (activeLanguage st))
                 (Favorites.getSavedStations (favs st)) /\
  forall s, In s shown <->
    exists saved,
      In saved (Obj.values (Favorites.extraMap (favs st))) /\
      s = Favorites.withDefaultLanguage saved /\
      Favorites.has (favs st) (Station.id saved) = true /\
      (activeLanguage st = "all" \/
       opt_or (Station.favLanguage saved) "other" = activeLanguage st).
Proof.
  cbv zeta. destruct (showFavourites_shows st) as (H1 & H2 & H3).
  split; [exact H1|]. split; [exact H2|]. split; [exact H3|]. split.
  - unfold favouritesView, Favorites.getSavedStations.
    rewrite filter_map, filter_filter. f_equal. apply filter_ext. intros s.
    now rewrite withDefaultLanguage_language.
  - intros s. unfold favouritesView. rewrite in_map_iff. split.
    + intros (saved & <- & Hin). apply filter_In in Hin.
      destruct Hin as [Hin Hp]. apply andb_true_iff in Hp.
      destruct Hp as [Hfav Hlang]. exists saved.
      split; [assumption|]. split; [reflexivity|]. split; [assumption|].
      apply orb_true_iff in Hlang.
      destruct Hlang as [E|E]; apply String.eqb_eq in E; [now left|now right].
    + intros (saved & Hin & -> & Hfav & Hlang). exists saved.
      split; [reflexivity|]. apply filter_In. split; [assumption|].
      apply andb_true_iff. split; [assumption|]. apply orb_true_iff.
      destruct Hlang as [E|E]; [left | right]; now apply String.eqb_eq.
Qed.

Example favourites_view_example :
  map Station.id (displayedStations Samples.app)
    = (Favorites.DEFAULT_IDS ++ ["api-u1"; "api-u2"])%list /\
  map Station.id
      (displayedStations (step Samples.app (LangTabClick "English")))
    = ["api-u1"] /\
  map Station.id
      (displayedStations (step Samples.app (LangTabClick "other")))
    = ["api-u2"] /\
  map Station.id
      (rendered (step Samples.app (LangTabClick "German")))
    = ["api-9606f727-0601-11e8-ae97-52543be04c81"].
Proof. repeat split; vm_compute; reflexivity. Qed.

(** *** The two modes *)

Lemma onInput_blank st v :
  truthy (trim v) = false -> step st (Input v)
  = enterFavouritesMode
      (clearTimeout (searchDebounce st)
         (set_clearHidden (negb (truthy v))
            (set_searchQuery v (set_inputValue v st)))).
Proof.
  intros H. cbn [step]. unfold onInput.
  cbn -[trim filter].
  destruct (searchDebounce st); cbn -[trim filter]; now rewrite H.
Qed.

Lemma trim_empty_truthy s : truthy (trim s) = false <-> trim s = EmptyString.
Proof. destruct (trim s); cbn; split; congruence. Qed.

(** C4. After an input event the application is in favourites mode exactly
    when the trimmed value is empty.  An empty trimmed value, the clear
    button and the header heart enter favourites mode: [showingFavourites]
    is true, the active language is 'all', and the favourites are
    displayed and rendered.  A non-empty trimmed value leaves favourites
    mode inside the listener, where no search is started yet: the search
    is only scheduled. *)
Theorem mode_follows_query st v :
  let st1 := step st (Input v) in
  (showingFavourites st1 = true <-> trim v = EmptyString) /\
  (trim v = EmptyString -> inFavouritesMode st1) /\
  (trim v <> EmptyString ->
     showingFavourites st1 = false /\
     activeLanguage st1 = (if showingFavourites st then "all" else activeLanguage st) /\
     searchLog st1 = searchLog st /\
     inflight st1 = inflight st /\
     In (nextTimer st, clock st + 320) (timers st1)) /\
  inFavouritesMode (step st ClearClick) /\
  inFavouritesMode (step st FavToggleClick).
Proof.
  cbv zeta.
  assert (Hblank : trim v = EmptyString -> inFavouritesMode (step st (Input v))).
  { intros H. rewrite onInput_blank by now apply trim_empty_truthy.
    apply enterFavouritesMode_enters. }
  assert (Hfull : trim v <> EmptyString ->
     showingFavourites (step st (Input v)) = false /\
     activeLanguage (step st (Input v))
       = (if showingFavourites st then "all" else activeLanguage st) /\
     searchLog (step st (Input v)) = searchLog st /\
     inflight (step st (Input v)) = inflight st /\
     In (nextTimer st, clock st + 320) (timers (step st (Input v)))).
  { intros H. apply truthy_not_empty in H. cbn [step]. unfold onInput.
    cbn -[trim filter].
    destruct (searchDebounce st); cbn -[trim filter]; rewrite H;
      cbn -[trim filter];
      destruct (showingFavourites st) eqn:E;
      cbn -[trim filter]; rewrite ?E; repeat split;
      apply in_or_app; right; left; reflexivity. }
  split; [|split; [exact Hblank|split; [exact Hfull|split]]].
  - split.
    + intros Hs. destruct (string_dec (trim v) EmptyString) as [E|E];
        [exact E|].
      destruct (Hfull E) as (Hf & _). congruence.
    + intros H. now destruct (Hblank H).
  - cbn [step]. unfold onClear. cbv zeta. apply enterFavouritesMode_enters.
  - cbn [step]. unfold onFavToggle. cbv zeta. apply enterFavouritesMode_enters.
Qed.

Lemma mode_follows_query_witness :
  inFavouritesMode (step Samples.app (Input "   ")) /\
  showingFavourites (step Samples.app (Input " jazz")) = false.
Proof.
  destruct (mode_follows_query Samples.app "   ") as (_ & Hblank & _).
  destruct (mode_follows_query Samples.app " jazz") as (_ & _ & Hfull & _).
  split.
  - exact (Hblank eq_refl).
  - assert (Hne : trim " jazz" <> EmptyString) by (vm_compute; discriminate).
    destruct (Hfull Hne) as [Hs _]. exact Hs.
Defined.

(** *** The debounce *)

Lemma sched_fields a b :
  sched a = sched b ->
  timers a = timers b /\ searchDebounce a = searchDebounce b /\
  searchQuery a = searchQuery b /\ searchLog a = searchLog b /\
  clock a = clock b /\ nextTimer a = nextTimer b.
Proof.
  unfold sched. generalize (timers a), (searchDebounce a), (searchQuery a),
    (searchLog a), (clock a), (nextTimer a), (timers b), (searchDebounce b),
    (searchQuery b), (searchLog b), (clock b), (nextTimer b).
  intros. injection H as -> -> -> -> -> ->. repeat split.
Qed.

Lemma runApiSearch_frame q st :
  let st1 := runApiSearch q st in
  timers st1 = timers st /\ searchDebounce st1 = searchDebounce st /\
  searchQuery st1 = searchQuery st /\ clock st1 = clock st /\
  searchLog st1 = (searchLog st ++ [(clock st, q)])%list.
Proof. frame_of runApiSearch. Qed.

Lemma searchSettled_frame r net st :
  sched (searchSettled r net st) = sched st.
Proof. frame_of searchSettled. Qed.

Lemma updateFavBadge_frame st : sched (updateFavBadge st) = sched st.
Proof.
  unfold updateFavBadge. cbv zeta.
  match goal with |- context [if ?b then _ else _] => destruct b end;
    [|reflexivity].
  match goal with |- context [showFavourites ?s] =>
    destruct (showFavourites_frame s) as (_ & _ & _ & Hs & _) end.
  now rewrite Hs.
Qed.

Lemma onCardFav_frame station choice st :
  sched (onCardFav station choice st) = sched st.
Proof.
  unfold onCardFav. destruct (Favorites.has _ _);
    [|destruct choice; [|reflexivity]]; now rewrite updateFavBadge_frame.
Qed.

Lemma onLangTab_frame lang st :
  timers (onLangTab lang st) = timers st /\
  searchDebounce (onLangTab lang st) = searchDebounce st.
Proof.
  unfold onLangTab. cbv zeta.
  repeat match goal with |- context [if ?b then _ else _] => destruct b end.
  - match goal with |- context [showFavourites ?s] =>
      destruct (showFavourites_frame s) as (_ & _ & _ & Hs & _) end.
    apply sched_fields in Hs; destruct Hs as (H1 & H2 & _). now rewrite H1, H2.
  - match goal with |- context [runApiSearch ?q ?s] =>
      destruct (runApiSearch_frame q s) as (H1 & H2 & _) end.
    now rewrite H1, H2.
  - match goal with |- context [enterFavouritesMode ?s] =>
      destruct (enterFavouritesMode_frame s) as (_ & Hs & _) end.
    apply sched_fields in Hs; destruct Hs as (H1 & H2 & _). now rewrite H1, H2.
Qed.

(** The keystroke listener cancels the pending timer and sets at most one
    new one. *)
Lemma onInput_timers st v :
  oneTimer st ->
  let st1 := onInput v st in
  clock st1 = clock st /\ searchLog st1 = searchLog st /\
  searchQuery st1 = v /\
  (if truthy (trim v)
   then timers st1 = [(nextTimer st, clock st + 320)] /\
        searchDebounce st1 = Some (nextTimer st)
   else timers st1 = []).
Proof.
  intros Hone. cbv zeta.
  assert (Hcl : timers (clearTimeout (searchDebounce st)
                  (set_clearHidden (negb (truthy v))
                     (set_searchQuery v (set_inputValue v st)))) = []).
  { destruct Hone as [H | (id & due & H & Hd)].
    - destruct (searchDebounce st); cbn; rewrite H; reflexivity.
    - rewrite Hd. cbn. rewrite H. cbn. now rewrite Nat.eqb_refl. }
  destruct (truthy (trim v)) eqn:Hv.
  - unfold onInput. cbn -[trim filter] in *.
    destruct (searchDebounce st); cbn -[trim filter] in *; rewrite Hv;
      cbn -[trim filter];
      destruct (showingFavourites st); cbn -[trim filter] in *;
      rewrite Hcl; repeat split.
  - change (onInput v st) with (step st (Input v)).
    rewrite (onInput_blank st v Hv).
    match goal with |- context [enterFavouritesMode ?s] =>
      destruct (enterFavouritesMode_frame s) as (_ & Hs & _) end.
    apply sched_fields in Hs; destruct Hs as (H1 & H2 & H3 & H4 & H5 & H6). rewrite H1, H3, H4, H5, Hcl.
    destruct (searchDebounce st); repeat split.
Qed.

Lemma step_oneTimer st e : oneTimer st -> oneTimer (step st e).
Proof.
  intros Hone.
  assert (Hsame : forall st1, timers st1 = timers st ->
                    searchDebounce st1 = searchDebounce st -> oneTimer st1).
  { intros st1 Ht Hd. unfold oneTimer. now rewrite Ht, Hd. }
  assert (Hsched : forall st1, sched st1 = sched st -> oneTimer st1).
  { intros st1 Hs. apply sched_fields in Hs; destruct Hs as (H1 & H2 & _). now apply Hsame. }
  destruct e as [v| | |lang|station|station choice|ms|id|i net|answers|pe];
    cbn [step].
  - destruct (onInput_timers st v Hone) as (_ & _ & _ & H).
    destruct (truthy (trim v)).
    + right. destruct H as [H1 H2]. eauto.
    + now left.
  - unfold onClear. cbv zeta.
    match goal with |- context [enterFavouritesMode ?s] =>
      destruct (enterFavouritesMode_frame s) as (_ & Hs & _) end.
    apply sched_fields in Hs; destruct Hs as (H1 & H2 & _). now apply Hsame.
  - unfold onFavToggle. cbv zeta.
    match goal with |- context [enterFavouritesMode ?s] =>
      destruct (enterFavouritesMode_frame s) as (_ & Hs & _) end.
    apply sched_fields in Hs; destruct Hs as (H1 & H2 & _). now apply Hsame.
  - destruct (onLangTab_frame lang st). now apply Hsame.
  - now apply Hsame.
  - apply Hsched, onCardFav_frame.
  - now apply Hsame.
  - destruct (dueTimer id st) eqn:Hdue; [|assumption].
    unfold onDebounce.
    match goal with |- context [runApiSearch ?q ?s] =>
      destruct (runApiSearch_frame q s) as (H1 & H2 & _) end.
    unfold oneTimer. rewrite H1, H2. cbn.
    destruct Hone as [H | (i & due & H & Hd)]; rewrite H; cbn.
    + now left.
    + destruct (Nat.eqb i id); cbn; [now left | right; eauto].
  - destruct (nth_error (inflight st) i); [|assumption].
    apply Hsched. now rewrite searchSettled_frame.
  - now apply Hsame.
  - now apply Hsame.
Qed.

Lemma run_oneTimer evs st : oneTimer st -> oneTimer (run st evs).
Proof.
  revert st. induction evs as [|e evs IH]; intros st H; [assumption|].
  change (run st (e :: evs)) with (run (step st e) evs).
  apply IH. now apply step_oneTimer.
Qed.

Lemma loaded_oneTimer ls nv html : oneTimer (loaded ls nv html).
Proof.
  left. unfold loaded, onLoaded.
  pose proof (updateFavBadge_frame (boot (start ls nv html))) as Hs.
  apply sched_fields in Hs; destruct Hs as (H1 & _). rewrite H1. unfold boot. cbv zeta.
  match goal with |- context [enterFavouritesMode ?s] =>
    destruct (enterFavouritesMode_frame s) as (_ & Hs & _) end.
  apply sched_fields in Hs; destruct Hs as (H2 & _). now rewrite H2.
Qed.

Lemma oneTimer_length st : oneTimer st -> length (timers st) <= 1.
Proof. intros [H | (id & due & H & _)]; rewrite H; cbn; lia. Qed.

(** With no timer pending, the passing of time starts no search. *)
Lemma passive_quiet st e :
  passive e = true -> timers st = [] ->
  timers (step st e) = [] /\ searchLog (step st e) = searchLog st.
Proof.
  intros Hp Ht.
  destruct e as [v| | |lang|station|station choice|ms|id|i net|answers|pe];
    try discriminate Hp; cbn [step].
  - now split.
  - unfold dueTimer. rewrite Ht. cbn. now split.
  - destruct (nth_error (inflight st) i); [|now split].
    match goal with |- context [searchSettled ?r ?n ?s] =>
      pose proof (searchSettled_frame r n s) as Hs end.
    apply sched_fields in Hs. destruct Hs as (H1 & _ & _ & H4 & _).
    now rewrite H1, H4.
  - now split.
Qed.

Lemma run_quiet rest st :
  forallb passive rest = true -> timers st = [] ->
  timers (run st rest) = [] /\ searchLog (run st rest) = searchLog st.
Proof.
  revert st. induction rest as [|e rest IH]; intros st Hp Ht;
    [now split|].
  change (run st (e :: rest)) with (run (step st e) rest).
  cbn in Hp. apply andb_true_iff in Hp. destruct Hp as [He Hr].
  destruct (passive_quiet st e He Ht) as [H1 H2].
  destruct (IH (step st e) Hr H1) as [H3 H4]. split; congruence.
Qed.

Lemma passive_afterKeystroke v t0 log st e :
  passive e = true ->
  afterKeystroke v t0 log st -> afterKeystroke v t0 log (step st e).
Proof.
  intros Hp Hk.
  assert (Hsched : forall st1, sched st1 = sched st ->
                               afterKeystroke v t0 log st1).
  { intros st1 Hs. apply sched_fields in Hs.
    destruct Hs as (H1 & _ & H3 & H4 & _).
    unfold afterKeystroke. now rewrite H1, H3, H4. }
  destruct e as [w| | |lang|station|station choice|ms|id|i net|answers|pe];
    try discriminate Hp; cbn [step].
  - exact Hk.
  - destruct (dueTimer id st) eqn:Hdue; [|assumption].
    destruct Hk as [(id0 & Ht & Hq & Hl) | (Ht & _)].
    + unfold dueTimer in Hdue. rewrite Ht in Hdue. cbn in Hdue.
      rewrite orb_false_r in Hdue. apply andb_true_iff in Hdue.
      destruct Hdue as [Hid Hle]. apply Nat.leb_le in Hle.
      right. unfold onDebounce.
      match goal with |- context [runApiSearch ?q ?s] =>
        destruct (runApiSearch_frame q s) as (H1 & _ & _ & _ & H5) end.
      rewrite H1, H5. cbn -[trim]. rewrite Ht, Hq, Hl. cbn -[trim].
      rewrite Hid. cbn -[trim]. split; [reflexivity|].
      exists (clock st). now split.
    + unfold dueTimer in Hdue. rewrite Ht in Hdue. discriminate.
  - destruct (nth_error (inflight st) i); [|assumption].
    apply Hsched. now rewrite searchSettled_frame.
  - now apply Hsched.
Qed.

Lemma run_afterKeystroke v t0 log rest st :
  forallb passive rest = true ->
  afterKeystroke v t0 log st -> afterKeystroke v t0 log (run st rest).
Proof.
  revert st. induction rest as [|e rest IH]; intros st Hp Hk;
    [assumption|].
  change (run st (e :: rest)) with (run (step st e) rest).
  cbn in Hp. apply andb_true_iff in Hp. destruct Hp as [He Hr].
  apply IH; [assumption|]. now apply passive_afterKeystroke.
Qed.

(** C2. In every state the application reaches, at most one search is
    scheduled.  A keystroke cancels the scheduled search and, when the
    trimmed value is not empty, schedules one 320 ms later; while only
    time passes after that keystroke, at most one search starts, and it
    starts with the trimmed value, which is not empty, no sooner than
    320 ms after the keystroke. *)
Theorem search_debounced ls nv html evs v rest :
  forallb passive rest = true ->
  let st := run (loaded ls nv html) evs in
  let st1 := step st (Input v) in
  let st2 := run st1 rest in
  length (timers st) <= 1 /\
  timers st1 = (if truthy (trim v)
                then [(nextTimer st, clock st + 320)] else []) /\
  searchLog st1 = searchLog st /\
  length (timers st2) <= 1 /\
  (searchLog st2 = searchLog st \/
   exists t, clock st + 320 <= t /\ trim v <> EmptyString /\
             searchLog st2 = (searchLog st ++ [(t, trim v)])%list).
Proof.
  intros Hp st st1 st2.
  assert (Hone : oneTimer st) by apply run_oneTimer, loaded_oneTimer.
  assert (Hone2 : oneTimer st2).
  { apply run_oneTimer. now apply step_oneTimer. }
  destruct (onInput_timers st v Hone) as (Hc & Hl & Hq & Ht).
  change (onInput v st) with st1 in *.
  split; [now apply oneTimer_length|].
  destruct (truthy (trim v)) eqn:Hv.
  - destruct Ht as [Ht Hd].
    split; [exact Ht|]. split; [exact Hl|].
    split; [now apply oneTimer_length|].
    assert (Hk : afterKeystroke v (clock st) (searchLog st) st1).
    { left. exists (nextTimer st). now repeat split. }
    apply (run_afterKeystroke _ _ _ rest _ Hp) in Hk. fold st2 in Hk.
    destruct Hk as [(id & _ & _ & H) | (_ & t & Hle & H)].
    + now left.
    + right. exists t. split; [assumption|].
      split; [now apply truthy_not_empty | assumption].
  - split; [exact Ht|]. split; [exact Hl|].
    split; [now apply oneTimer_length|].
    left. destruct (run_quiet rest st1 Hp Ht) as [_ H]. fold st2 in H.
    congruence.
Qed.

Lemma search_debounced_witness :
  let st := run Samples.app [Input "jaz"; Elapse 100] in
  let st2 := run (step st (Input " jazz ")) [Elapse 319; Fire 1; Elapse 1; Fire 1] in
  timers (step st (Input " jazz ")) = [(1, 420)] /\
  searchLog st2 = [(420, "jazz")] /\
  (searchLog st2 = searchLog st \/
   exists t, clock st + 320 <= t /\ trim " jazz " <> EmptyString /\
             searchLog st2 = (searchLog st ++ [(t, trim " jazz ")])%list).
Proof.
  cbv zeta.
  destruct (search_debounced Samples.twoSaved Samples.browser Samples.html
              [Input "jaz"; Elapse 100] " jazz "
              [Elapse 319; Fire 1; Elapse 1; Fire 1] eq_refl)
    as (_ & _ & _ & _ & H).
  split; [vm_compute; reflexivity|]. split; [vm_compute; reflexivity|].
  exact H.
Defined.

End ViewOrchestrator.

(* ===================================================================== *)
(** ** More on the API client *)
(* ===================================================================== *)

Section ApiClientMore.
Import JS RadioAPI Charts.

(** *** Browsing *)

(** [trending] is the search without a text query: a browse by language.
    The empty country and tag of the search are not sent, so the two ask
    the directory the same thing. *)
Theorem trending_is_browse_search net baseUrl language limit :
  trending net baseUrl language limit
  = search net baseUrl (mkOpts EmptyString language EmptyString EmptyString limit).
Proof.
  unfold trending, search, rawResults, get, common, tagFromGenre.
  cbn. destruct (truthy language); reflexivity.
Qed.

(** *** Tags *)

Lemma trimStart_head s :
  trimStart s = EmptyString \/
  exists c r, trimStart s = String c r /\ isWhiteSpace c = false.
Proof.
  induction s as [|c r IH]; cbn; [now left|].
  destruct (isWhiteSpace c) eqn:E; [exact IH|]. right. eauto.
Qed.

Lemma trimEnd_cons c r :
  trimEnd (String c r)
  = match trimEnd r with
    | EmptyString =>
        if isWhiteSpace c then EmptyString else String c EmptyString
    | String d r' => String c (String d r')
    end.
Proof. reflexivity. Qed.

Lemma trimEnd_idem s : trimEnd (trimEnd s) = trimEnd s.
Proof.
  induction s as [|c r IH]; [reflexivity|]. rewrite trimEnd_cons.
  destruct (trimEnd r) as [|d r'] eqn:E.
  - destruct (isWhiteSpace c) eqn:W; [reflexivity|].
    rewrite trimEnd_cons. cbn. now rewrite W.
  - rewrite trimEnd_cons, IH. reflexivity.
Qed.

Lemma trimEnd_keeps_head c r :
  isWhiteSpace c = false -> exists r', trimEnd (String c r) = String c r'.
Proof.
  intros W. rewrite trimEnd_cons. destruct (trimEnd r); [rewrite W|]; eauto.
Qed.

Lemma trim_idem s : trim (trim s) = trim s.
Proof.
  unfold trim. destruct (trimStart_head s) as [E | (c & r & E & W)];
    rewrite E; [reflexivity|].
  destruct (trimEnd_keeps_head c r W) as (r' & E').
  assert (Hs : trimStart (trimEnd (String c r)) = trimEnd (String c r)).
  { rewrite E'. cbn. now rewrite W. }
  rewrite Hs. apply trimEnd_idem.
Qed.

Lemma lacks_trimStart c s : lacks c s = true -> lacks c (trimStart s) = true.
Proof.
  induction s as [|d r IH]; cbn; [reflexivity|]. intros H.
  apply andb_true_iff in H. destruct H as [H1 H2].
  destruct (isWhiteSpace d); [now apply IH|]. cbn. now rewrite H1, H2.
Qed.

Lemma lacks_trimEnd c s : lacks c s = true -> lacks c (trimEnd s) = true.
Proof.
  induction s as [|d r IH]; cbn; [reflexivity|]. intros H.
  apply andb_true_iff in H. destruct H as [H1 H2]. specialize (IH H2).
  change (lacks c (trimEnd (String d r)) = true). rewrite trimEnd_cons.
  destruct (trimEnd r) as [|e r'].
  - destruct (isWhiteSpace d); cbn; [reflexivity | now rewrite H1].
  - cbn [lacks] in *. now rewrite H1, IH.
Qed.

Lemma lacks_split sep s p : In p (split sep s) -> lacks sep p = true.
Proof.
  revert p. induction s as [|c r IH]; cbn; intros p Hin.
  - destruct Hin as [<- | []]. reflexivity.
  - destruct (Ascii.eqb c sep) eqn:E.
    + destruct Hin as [<- | Hin]; [reflexivity | now apply IH].
    + destruct (split sep r) as [|q qs] eqn:Es.
      * destruct Hin as [<- | []]. cbn. now rewrite E.
      * destruct Hin as [<- | Hin].
        -- cbn. rewrite E. cbn. apply IH. now left.
        -- apply IH. now right.
Qed.

Lemma In_firstn {A} n (l : list A) x : In x (firstn n l) -> In x l.
Proof.
  intros H. rewrite <- (firstn_skipn n l). apply in_or_app. now left.
Qed.

(** Every tag of a normalised station is a non-empty text without a
    comma and without white space at either end. *)
Theorem normalize_tags_clean r t :
  In t (Station.tags (normalize r)) ->
  t <> EmptyString /\ trim t = t /\ lacks "," t = true.
Proof.
  unfold normalize. cbn [Station.tags]. unfold slice0. intros Hin.
  apply In_firstn in Hin. apply filter_In in Hin. destruct Hin as [Hin Ht].
  apply in_map_iff in Hin. destruct Hin as (p & <- & Hp).
  split; [now apply truthy_not_empty|]. split; [apply trim_idem|].
  unfold trim. apply lacks_trimEnd, lacks_trimStart.
  now apply (lacks_split _ _ _ Hp).
Qed.

Lemma normalize_tags_clean_witness :
  Station.tags (normalize (Samples.rawOf "u" "n" " a, b ,,c" "x"))
    = ["a"; "b"; "c"] /\
  ("b" <> EmptyString /\ trim "b" = "b" /\ lacks "," "b" = true).
Proof.
  split; [reflexivity|].
  apply (normalize_tags_clean (Samples.rawOf "u" "n" " a, b ,,c" "x") "b").
  right. left. reflexivity.
Defined.

(** *** Genres *)

Lemma lowerChar_idem c : lowerChar (lowerChar c) = lowerChar c.
Proof.
  destruct c as [[] [] [] [] [] [] [] []]; vm_compute; reflexivity.
Qed.

Lemma toLowerCase_idem s : toLowerCase (toLowerCase s) = toLowerCase s.
Proof.
  induction s as [|c r IH]; cbn; [reflexivity|].
  now rewrite lowerChar_idem, IH.
Qed.

Lemma toLowerCase_app a b :
  toLowerCase (a ++ b) = toLowerCase a ++ toLowerCase b.
Proof. induction a as [|c a IH]; cbn; [reflexivity | now rewrite IH]. Qed.

Lemma prefix_app w b : prefix w (w ++ b) = true.
Proof.
  induction w as [|c w IH]; cbn; [now destruct b|].
  destruct (ascii_dec c c); [exact IH | contradiction].
Qed.

Lemma includes_prefix s w : prefix w s = true -> includes s w = true.
Proof. intros H. destruct s; cbn [includes]; now rewrite H. Qed.

Lemma includes_here w b : includes (w ++ b) w = true.
Proof. apply includes_prefix, prefix_app. Qed.

Lemma includes_inside a w b : includes (a ++ w ++ b) w = true.
Proof.
  induction a as [|c a IH].
  - cbn [append]. apply includes_here.
  - cbn [append includes]. rewrite IH. apply orb_true_r.
Qed.

(** [mapGenre] ignores letter case, and its first rule wins: a tag text
    that has "jazz" or "blues" in it, in any letter case and whatever
    else it names, is Jazz. *)
Theorem mapGenre_first_rule a w b :
  toLowerCase w = "jazz" \/ toLowerCase w = "blues" ->
  mapGenre (a ++ w ++ b) = "Jazz" /\
  mapGenre (toLowerCase (a ++ w ++ b)) = mapGenre (a ++ w ++ b).
Proof.
  intros Hw. split.
  - unfold mapGenre. rewrite !toLowerCase_app.
    destruct Hw as [-> | ->]; rewrite includes_inside;
      rewrite ?orb_true_r; reflexivity.
  - unfold mapGenre. now rewrite toLowerCase_idem.
Qed.

Lemma mapGenre_first_rule_witness :
  mapGenre ("classic rock, " ++ "BLUES" ++ " and pop") = "Jazz".
Proof.
  apply (mapGenre_first_rule "classic rock, " "BLUES" " and pop").
  right. reflexivity.
Defined.

(** *** Station ids *)

Lemma NoDup_map_filter {A B} (f : A -> B) (p : A -> bool) l :
  NoDup (map f l) -> NoDup (map f (filter p l)).
Proof.
  induction l as [|a l IH]; cbn; intros H; [constructor|].
  inversion H as [|? ? Hnot Hl]; subst.
  destruct (p a); cbn; [|now apply IH].
  constructor; [|now apply IH].
  intros Hin. apply Hnot. apply in_map_iff in Hin.
  destruct Hin as (x & Hx & Hf). apply filter_In in Hf.
  apply in_map_iff. exists x. tauto.
Qed.

Lemma NoDup_map_inj_on {A B} (f : A -> B) l :
  (forall x y, In x l -> In y l -> f x = f y -> x = y) ->
  NoDup l -> NoDup (map f l).
Proof.
  induction l as [|a l IH]; cbn; intros Hinj H; [constructor|].
  inversion H as [|? ? Hnot Hl]; subst. constructor.
  - intros Hin. apply in_map_iff in Hin. destruct Hin as (x & Hx & Hxl).
    assert (x = a) by (apply Hinj; auto). subst. contradiction.
  - apply IH; [|assumption]. intros x y Hx Hy. apply Hinj; auto.
Qed.

Lemma normalize_id_uuid u v :
  ("api-" ++ template (Some u) = "api-" ++ template (Some v)) -> u = v.
Proof. cbn. intros H. now injection H. Qed.

(** The stations of a text search have distinct ids when each raw station
    has a stationuuid and neither answer lists a stationuuid twice. *)
Theorem search_ids_distinct net baseUrl o result :
  truthy (trim (query o)) = true ->
  (forall r, In r (valueOrEmpty (nameRequest net baseUrl o)) ->
             Raw.stationuuid r <> None) ->
  (forall r, In r (valueOrEmpty (tagRequest net baseUrl o)) ->
             Raw.stationuuid r <> None) ->
  NoDup (uuids (valueOrEmpty (nameRequest net baseUrl o))) ->
  NoDup (uuids (valueOrEmpty (tagRequest net baseUrl o))) ->
  search net baseUrl o = Fulfilled result ->
  NoDup (map Station.id result).
Proof.
  intros Hq Hn Ht Dn Dt. unfold search, rawResults. rewrite Hq.
  set (byName := valueOrEmpty (nameRequest net baseUrl o)) in *.
  set (byTag := valueOrEmpty (tagRequest net baseUrl o)) in *.
  intros H. injection H as <-.
  apply NoDup_map_filter. rewrite map_map.
  change (fun x => Station.id (normalize x))
    with (fun x => "api-" ++ template (Raw.stationuuid x)).
  rewrite <- (map_map Raw.stationuuid (fun u => "api-" ++ template u)).
  apply NoDup_map_inj_on.
  - intros x y Hx Hy. rewrite map_app in Hx, Hy.
    assert (Hsome : forall u, In u (map Raw.stationuuid byName ++
                       map Raw.stationuuid
                         (filter (fun s => negb (seenHas byName (Raw.stationuuid s)))
                                 byTag)) -> u <> None).
    { intros u Hu. apply in_app_or in Hu.
      destruct Hu as [Hu | Hu]; apply in_map_iff in Hu;
        destruct Hu as (r & <- & Hr).
      - now apply Hn.
      - apply filter_In in Hr. now apply Ht. }
    destruct x as [u|]; [|now destruct (Hsome None Hx)].
    destruct y as [v|]; [|now destruct (Hsome None Hy)].
    intros E. f_equal. now apply normalize_id_uuid.
  - rewrite map_app. apply NoDup_app.
    + exact Dn.
    + now apply NoDup_uuids_filter.
    + intros u Hu Hk. apply in_map_iff in Hk. destruct Hk as (s & <- & Hs).
      apply filter_In in Hs. destruct Hs as [_ Hs].
      apply negb_true_iff in Hs. apply seenHas_In in Hu. congruence.
Qed.

Lemma search_ids_distinct_witness :
  NoDup (map Station.id [normalize Samples.rawJazz; normalize Samples.rawRock]).
Proof.
  apply (search_ids_distinct Samples.netJazz Samples.base Samples.optsJazz).
  - reflexivity.
  - intros r [<- | [<- | []]]; discriminate.
  - intros r [<- | [<- | []]]; discriminate.
  - repeat constructor; cbn; intuition discriminate.
  - repeat constructor; cbn; intuition discriminate.
  - reflexivity.
Defined.

(** *** Choosing a server *)

Lemma find_first {A} (f : A -> bool) before x after :
  (forall y, In y before -> f y = false) ->
  f x = true ->
  find f (before ++ x :: after)%list = Some x.
Proof.
  intros Hb Hx. induction before as [|y before IH]; cbn.
  - now rewrite Hx.
  - rewrite (Hb y (or_introl eq_refl)). apply IH.
    intros z Hz. apply Hb. now right.
Qed.

Lemma find_nowhere {A} (f : A -> bool) l :
  (forall y, In y l -> f y = false) -> find f l = None.
Proof.
  intros H. induction l as [|y l IH]; cbn; [reflexivity|].
  rewrite (H y (or_introl eq_refl)). apply IH.
  intros z Hz. apply H. now right.
Qed.

(** [init] takes the first server of SERVERS that answers, in the order
    of the list, whatever the later ones do; when no server answers the
    base URL is left as it was. *)
Theorem init_first_answering answers baseUrl :
  (forall before server after,
     SERVERS = (before ++ server :: after)%list ->
     (forall s, In s before -> answers s = false) ->
     answers server = true ->
     init answers baseUrl = server) /\
  ((forall s, In s SERVERS -> answers s = false) ->
   init answers baseUrl = baseUrl).
Proof.
  split.
  - intros before server after E Hb Hs. unfold init.
    rewrite E. now rewrite (find_first answers before server after Hb Hs).
  - intros H. unfold init. now rewrite (find_nowhere answers SERVERS H).
Qed.

Lemma init_first_answering_witness :
  init (fun s => negb (String.eqb s "https://de1.api.radio-browser.info"))
       "https://de1.api.radio-browser.info"
  = "https://nl1.api.radio-browser.info" /\
  init (fun _ => false) "https://at1.api.radio-browser.info"
  = "https://at1.api.radio-browser.info".
Proof.
  split.
  - apply (proj1 (init_first_answering _ _)
             ["https://de1.api.radio-browser.info"]
             "https://nl1.api.radio-browser.info"
             ["https://at1.api.radio-browser.info"]).
    + reflexivity.
    + intros s [<- | []]. reflexivity.
    + reflexivity.
  - apply (proj2 (init_first_answering (fun _ => false) _)).
    reflexivity.
Defined.

End ApiClientMore.

(* ===================================================================== *)
(** ** More on the favourites store *)
(* ===================================================================== *)

Section FavouritesMemory.
Import JS Favorites FavoritesMemory.

Lemma filter_keeps_all {A} (p : A -> bool) l :
  (forall x, In x l -> p x = true) -> filter p l = l.
Proof.
  induction l as [|a l IH]; cbn; intros H; [reflexivity|].
  rewrite (H a (or_introl eq_refl)). f_equal. apply IH. intros x Hx.
  apply H. now right.
Qed.

Lemma prune_tidy ids m ls : NoDup ids -> tidy (prune (mkState ids m ls)).
Proof.
  intros Hn. unfold prune. cbn [favIds extraMap storage].
  destruct (existsb _ (Obj.keys m)) eqn:Hd; split; cbn [favIds extraMap];
    try assumption.
  - intros k Hk. unfold Obj.keys in Hk. apply in_map_iff in Hk.
    destruct Hk as ([k' v] & <- & Hin). apply filter_In in Hin. tauto.
  - intros k Hk. destruct (StrSet.has ids k) eqn:E; [reflexivity|].
    assert (Hex : existsb (fun id => negb (StrSet.has ids id)) (Obj.keys m) = true).
    { apply existsb_exists. exists k. now rewrite E. }
    congruence.
Qed.

Lemma load_tidy ls : tidy (load ls).
Proof. unfold load. apply prune_tidy, NoDup_loadIds. Qed.

Lemma toggle_tidy id obj lang st : tidy st -> tidy (toggle id obj lang st).
Proof.
  intros [Hn Hk]. unfold toggle.
  destruct (StrSet.has (favIds st) id) eqn:Hhas.
  - destruct (arrayIncludes DEFAULT_IDS id); [now split|].
    destruct (Obj.get (extraMap st) id) eqn:Hget; split; cbn [favIds extraMap];
      try now apply NoDup_delete.
    + intros k Hin. apply keys_delete in Hin. destruct Hin as [Hin Hne].
      apply has_In, In_delete. split; [|assumption]. now apply has_In, Hk.
    + intros k Hin. apply has_In, In_delete. split; [now apply has_In, Hk|].
      intros ->. apply get_None_keys in Hget. contradiction.
  - destruct obj as [o|]; split; cbn [favIds extraMap];
      try now apply NoDup_add.
    + intros k Hin. apply keys_set in Hin. apply has_In, In_add.
      destruct Hin as [Hin | ->]; [left; now apply has_In, Hk | now right].
    + intros k Hin. apply has_In, In_add. left. now apply has_In, Hk.
Qed.

Lemma fold_apply_tidy calls st : tidy st -> tidy (fold_left apply calls st).
Proof.
  revert st. induction calls as [|c calls IH]; intros st H; cbn; [assumption|].
  apply IH. now apply toggle_tidy.
Qed.

Lemma session_is_tidy ls calls : tidy (session ls calls).
Proof. apply fold_apply_tidy, load_tidy. Qed.

(** Whatever [localStorage] held at the page load (nothing, malformed
    text, repeated ids, stations that are no favourites) and whether or
    not it takes writes, after the load and any sequence of [toggle] calls
    no id is in [favIds] twice and every key of [extraMap] is a
    favourite. *)
Theorem favourites_memory_tidy ls calls :
  let st := session ls calls in
  NoDup (getAll st) /\
  forall k, In k (Obj.keys (extraMap st)) -> has st k = true.
Proof. exact (session_is_tidy ls calls). Qed.

(** *** One toggle *)

Lemma has_add_same s x : StrSet.has (StrSet.add s x) x = true.
Proof. apply has_In, In_add. now right. Qed.

Lemma has_add_other s x y : y <> x -> StrSet.has (StrSet.add s x) y = StrSet.has s y.
Proof.
  intros Hne. destruct (StrSet.has s y) eqn:E.
  - apply has_In, In_add. left. now apply has_In.
  - apply has_false_In. rewrite In_add. apply has_false_In in E. tauto.
Qed.

Lemma has_delete_same s x : StrSet.has (StrSet.delete s x) x = false.
Proof. apply has_false_In. rewrite In_delete. tauto. Qed.

Lemma has_delete_other s x y :
  y <> x -> StrSet.has (StrSet.delete s x) y = StrSet.has s y.
Proof.
  intros Hne. destruct (StrSet.has s y) eqn:E.
  - apply has_In, In_delete. split; [now apply has_In | assumption].
  - apply has_false_In. rewrite In_delete. apply has_false_In in E. tauto.
Qed.

(** [toggle id] changes the membership of [id] alone: a favourite that
    is no default stops being one, a non-favourite becomes one, a default
    that is a favourite stays one, and every other id is where it was. *)
Theorem toggle_membership id obj lang st id' :
  has (toggle id obj lang st) id' = toggled st id id'.
Proof.
  unfold toggled, has, isDefault, toggle.
  destruct (String.eqb id' id) eqn:E.
  - apply String.eqb_eq in E. subst id'.
    destruct (StrSet.has (favIds st) id) eqn:Hh.
    + destruct (arrayIncludes DEFAULT_IDS id); [assumption|].
      destruct (Obj.get (extraMap st) id); cbn [favIds]; apply has_delete_same.
    + destruct obj; cbn [favIds]; apply has_add_same.
  - apply String.eqb_neq in E.
    destruct (StrSet.has (favIds st) id) eqn:Hh.
    + destruct (arrayIncludes DEFAULT_IDS id); [reflexivity|].
      destruct (Obj.get (extraMap st) id); cbn [favIds];
        now apply has_delete_other.
    + destruct obj; cbn [favIds]; now apply has_add_other.
Qed.

Lemma length_delete s x :
  NoDup s -> In x s -> S (length (StrSet.delete s x)) = length s.
Proof.
  induction s as [|a s IH]; cbn; intros Hn Hin; [contradiction|].
  inversion Hn as [|? ? Hnot Hs]; subst.
  destruct (String.eqb a x) eqn:E; cbn.
  - apply String.eqb_eq in E. subst a. f_equal. f_equal.
    unfold StrSet.delete in *. apply filter_keeps_all.
    intros y Hy. apply negb_true_iff, String.eqb_neq. intros ->. contradiction.
  - f_equal. apply IH; [assumption|]. destruct Hin as [-> | Hin]; [|assumption].
    rewrite String.eqb_refl in E. discriminate.
Qed.

(** The counter of the badge follows the toggles: in every session, adding
    a favourite raises [count] by one, removing one that is no default
    lowers it by one, and a toggle on a default that is a favourite leaves
    it. *)
Theorem toggle_count ls calls id obj lang :
  let st := session ls calls in
  let st1 := toggle id obj lang st in
  if has st id
  then if isDefault id then count st1 = count st
       else S (count st1) = count st
  else count st1 = S (count st).
Proof.
  cbv zeta. destruct (session_is_tidy ls calls) as [Hn _].
  set (st := session ls calls) in *.
  unfold has, isDefault, count, toggle.
  destruct (StrSet.has (favIds st) id) eqn:Hh.
  - destruct (arrayIncludes DEFAULT_IDS id); [reflexivity|].
    destruct (Obj.get (extraMap st) id); cbn [favIds];
      apply length_delete; try assumption; now apply has_In.
  - destruct obj; cbn [favIds]; unfold StrSet.add; rewrite Hh;
      rewrite length_app; cbn; lia.
Qed.

(** *** Adding and removing again *)

Lemma delete_add_fresh s x :
  ~ In x s -> StrSet.delete (StrSet.add s x) x = s.
Proof.
  intros Hx. unfold StrSet.add.
  rewrite (proj2 (has_false_In s x) Hx). unfold StrSet.delete.
  rewrite filter_app. cbn. rewrite String.eqb_refl. cbn.
  rewrite app_nil_r. apply filter_keeps_all. intros y Hy.
  apply negb_true_iff, String.eqb_neq. intros ->. contradiction.
Qed.

Lemma obj_delete_set_fresh m k v :
  ~ In k (Obj.keys m) -> Obj.delete (Obj.set m k v) k = m.
Proof.
  induction m as [|[k' v'] m IH]; cbn; intros Hk.
  - now rewrite String.eqb_refl.
  - destruct (String.eqb k' k) eqn:E.
    + apply String.eqb_eq in E. tauto.
    + cbn. rewrite E. cbn. f_equal. apply IH. tauto.
Qed.

Lemma toggle_adds id obj lang st :
  StrSet.has (favIds st) id = false ->
  favIds (toggle id obj lang st) = StrSet.add (favIds st) id /\
  extraMap (toggle id obj lang st)
  = match obj with
    | Some o => Obj.set (extraMap st) id
                  (Station.withFavLanguage o (opt_or lang "other"))
    | None => extraMap st
    end.
Proof. intros Hh. unfold toggle. rewrite Hh. now destruct obj. Qed.

Lemma toggle_removes id obj lang st :
  StrSet.has (favIds st) id = true ->
  arrayIncludes DEFAULT_IDS id = false ->
  favIds (toggle id obj lang st) = StrSet.delete (favIds st) id /\
  extraMap (toggle id obj lang st)
  = match Obj.get (extraMap st) id with
    | Some _ => Obj.delete (extraMap st) id
    | None => extraMap st
    end.
Proof.
  intros Hh Hd. unfold toggle. rewrite Hh, Hd.
  now destruct (Obj.get (extraMap st) id).
Qed.

(** Adding a station and removing it again leaves the favourites as they
    were: in every session, for an id that is neither a favourite nor a
    default, [toggle] (with or without a station object) followed by
    [toggle] gives back the same [favIds], in the same order, and the same
    [extraMap]. *)
Theorem toggle_twice ls calls id obj lang :
  let st := session ls calls in
  has st id = false ->
  isDefault id = false ->
  let st2 := toggle id None None (toggle id obj lang st) in
  favIds st2 = favIds st /\ extraMap st2 = extraMap st.
Proof.
  cbv zeta. destruct (session_is_tidy ls calls) as [Hn Hk].
  set (st := session ls calls) in *. unfold has, isDefault. intros Hh Hd.
  assert (Hfresh : ~ In id (favIds st)) by now apply has_false_In.
  assert (Hkey : ~ In id (Obj.keys (extraMap st))).
  { intros Hin. apply Hk in Hin. congruence. }
  destruct (toggle_adds id obj lang st Hh) as [Hf He].
  set (st1 := toggle id obj lang st) in *.
  assert (Hh1 : StrSet.has (favIds st1) id = true)
    by (rewrite Hf; apply has_add_same).
  destruct (toggle_removes id None None st1 Hh1 Hd) as [Hf2 He2].
  rewrite Hf2, He2, Hf, He. split; [now apply delete_add_fresh|].
  destruct obj as [o|].
  - rewrite get_set_eq. now apply obj_delete_set_fresh.
  - now rewrite (proj2 (get_None_keys _ _) Hkey).
Qed.

Lemma toggle_twice_witness :
  let st := session Samples.freshStorage [Samples.addRock] in
  let st2 := toggle "api-u1" None None
               (toggle "api-u1" (Some Samples.jazz) (Some "English") st) in
  favIds st2 = favIds st /\ extraMap st2 = extraMap st.
Proof.
  apply (toggle_twice Samples.freshStorage [Samples.addRock] "api-u1"
           (Some Samples.jazz) (Some "English")); reflexivity.
Defined.

(** *** The saved stations *)

Lemma withDefaultLanguage_has s :
  Station.favLanguage (withDefaultLanguage s) <> None.
Proof.
  unfold withDefaultLanguage.
  destruct (Station.favLanguage s) eqn:E; [rewrite E|]; discriminate.
Qed.

Lemma withDefaultLanguage_keeps_id s :
  Station.id (withDefaultLanguage s) = Station.id s.
Proof. unfold withDefaultLanguage. now destruct (Station.favLanguage s). Qed.

Lemma values_set_In m k v : In v (Obj.values (Obj.set m k v)).
Proof.
  induction m as [|[k' v'] m IH]; cbn; [now left|].
  destruct (String.eqb k' k); cbn; [now left | right; exact IH].
Qed.

(** Every station [getSavedStations] lists is a favourite by its own id
    and carries a favourite language; and a station added through
    [toggle] under its own id is listed right away, with the language
    given, or 'other'. *)
Theorem saved_stations_listed st :
  (forall s, In s (getSavedStations st) ->
     has st (Station.id s) = true /\ Station.favLanguage s <> None) /\
  (forall obj lang,
     has st (Station.id obj) = false ->
     In (Station.withFavLanguage obj (opt_or lang "other"))
        (getSavedStations (toggle (Station.id obj) (Some obj) lang st))).
Proof.
  split.
  - intros s Hin. unfold getSavedStations in Hin. apply in_map_iff in Hin.
    destruct Hin as (s0 & <- & Hs0). apply filter_In in Hs0.
    destruct Hs0 as [_ Hh]. rewrite withDefaultLanguage_keeps_id.
    split; [exact Hh | apply withDefaultLanguage_has].
  - intros obj lang Hh. unfold has in Hh. unfold toggle. rewrite Hh.
    unfold getSavedStations. cbn [favIds extraMap]. apply in_map_iff.
    exists (Station.withFavLanguage obj (opt_or lang "other")).
    split; [reflexivity|]. apply filter_In. split.
    + apply values_set_In.
    + cbn [Station.id Station.withFavLanguage]. apply has_add_same.
Qed.

Lemma saved_stations_listed_witness :
  In (Station.withFavLanguage Samples.jazz "other")
     (getSavedStations
        (toggle (Station.id Samples.jazz) (Some Samples.jazz) None
                (load Samples.freshStorage))).
Proof.
  destruct (saved_stations_listed (load Samples.freshStorage)) as [_ H].
  apply (H Samples.jazz None). reflexivity.
Defined.

(** *** Pruning *)

Lemma get_filter_keys (p : string -> bool) m k :
  p k = true ->
  Obj.get (filter (fun kv => p (fst kv)) m) k = Obj.get m k.
Proof.
  intros Hp. induction m as [|[k' v] m IH]; cbn; [reflexivity|].
  destruct (p k') eqn:E; cbn.
  - destruct (String.eqb k' k); [reflexivity | exact IH].
  - destruct (String.eqb k' k) eqn:Ek; [|exact IH].
    apply String.eqb_eq in Ek. congruence.
Qed.

Lemma prune_extraMap st :
  extraMap (prune st)
  = filter (fun kv => StrSet.has (favIds st) (fst kv)) (extraMap st).
Proof.
  unfold prune. destruct (existsb _ _) eqn:Hd; [reflexivity|].
  symmetry. apply filter_keeps_all. intros [k v] Hin. cbn.
  destruct (StrSet.has (favIds st) k) eqn:E; [reflexivity|].
  assert (Hex : existsb (fun id => negb (StrSet.has (favIds st) id))
                        (Obj.keys (extraMap st)) = true).
  { apply existsb_exists. exists k. rewrite E. split; [|reflexivity].
    unfold Obj.keys. apply in_map_iff. now exists (k, v). }
  congruence.
Qed.

Lemma prune_favIds st : favIds (prune st) = favIds st.
Proof. unfold prune. now destruct (existsb _ _). Qed.

(** [prune] drops exactly the saved stations whose key is no favourite:
    the favourites stay as they are, the saved station of every favourite
    is kept, no other key is left, and pruning a second time changes
    nothing. *)
Theorem prune_keeps_favourites st :
  let st1 := prune st in
  favIds st1 = favIds st /\
  (forall k, has st k = true ->
             Obj.get (extraMap st1) k = Obj.get (extraMap st) k) /\
  (forall k, In k (Obj.keys (extraMap st1)) <->
             In k (Obj.keys (extraMap st)) /\ has st k = true) /\
  prune st1 = st1.
Proof.
  cbv zeta. split; [apply prune_favIds|]. split; [|split].
  - intros k Hk. rewrite prune_extraMap.
    now apply (get_filter_keys (StrSet.has (favIds st))).
  - intros k. rewrite prune_extraMap. unfold Obj.keys, has.
    rewrite !in_map_iff. split.
    + intros ([k' v] & <- & Hin). apply filter_In in Hin. cbn in *.
      destruct Hin as [Hin Hh]. split; [|assumption]. now exists (k', v).
    + intros [([k' v] & <- & Hin) Hh]. exists (k', v).
      split; [reflexivity|]. apply filter_In. now split.
  - unfold prune at 1. rewrite prune_favIds.
    destruct (existsb _ (Obj.keys (extraMap (prune st)))) eqn:Hd;
      [|reflexivity].
    apply existsb_exists in Hd. destruct Hd as (k & Hin & Hneg).
    rewrite prune_extraMap in Hin. unfold Obj.keys in Hin.
    apply in_map_iff in Hin. destruct Hin as ([k' v] & <- & Hin).
    apply filter_In in Hin. cbn in *. destruct Hin as [_ Hh].
    rewrite Hh in Hneg. discriminate.
Qed.

(** *** Seeding *)

Lemma get_set_other m k k' v :
  k' <> k -> Obj.get (Obj.set m k' v) k = Obj.get m k.
Proof.
  intros Hne. induction m as [|[k0 v0] m IH]; cbn.
  - apply String.eqb_neq in Hne. now rewrite Hne.
  - destruct (String.eqb k0 k') eqn:E; cbn.
    + apply String.eqb_eq in E. subst k0.
      apply String.eqb_neq in Hne. now rewrite Hne.
    + destruct (String.eqb k0 k); [reflexivity | exact IH].
Qed.

Lemma snd_fold_seedOne l acc :
  snd (fold_left seedOne l acc) = fold_left StrSet.add (Obj.keys l) (snd acc).
Proof.
  revert acc. induction l as [|kv l IH]; intros acc; cbn; [reflexivity|].
  now rewrite IH.
Qed.

Lemma get_fold_seedOne_other l acc k :
  ~ In k (Obj.keys l) ->
  Obj.get (fst (fold_left seedOne l acc)) k = Obj.get (fst acc) k.
Proof.
  revert acc. induction l as [|[k0 v0] l IH]; intros acc Hk; cbn in *;
    [reflexivity|].
  rewrite IH by tauto. cbn. apply get_set_other. tauto.
Qed.

Lemma get_fold_seedOne l acc k v :
  NoDup (Obj.keys l) -> Obj.get l k = Some v ->
  Obj.get (fst (fold_left seedOne l acc)) k = Some v.
Proof.
  revert acc. induction l as [|[k0 v0] l IH]; intros acc Hn Hg; cbn in *;
    [discriminate|].
  inversion Hn as [|? ? Hnot Hl]; subst.
  destruct (String.eqb k0 k) eqn:E.
  - apply String.eqb_eq in E. subst k0. injection Hg as ->.
    rewrite get_fold_seedOne_other by assumption. cbn. apply get_set_eq.
  - now apply IH.
Qed.

Lemma DEFAULT_keys_NoDup : NoDup (Obj.keys DEFAULT_EXTRA).
Proof.
  cbn. repeat constructor; cbn; intros H;
    repeat (destruct H as [H | H]; [discriminate H|]); exact H.
Qed.

Lemma seedDefaults_first ls :
  quotaExceeded ls = false ->
  opt_truthy (defaults_seeded ls) = false ->
  seedDefaults ls
  = mkStorage
      (Json (snd (fold_left seedOne DEFAULT_EXTRA (loadExtra ls, loadIds ls))))
      (Json (fst (fold_left seedOne DEFAULT_EXTRA (loadExtra ls, loadIds ls))))
      (Some "1") false.
Proof.
  intros Hq Hf. unfold seedDefaults. rewrite Hf. cbv zeta.
  generalize (fold_left seedOne DEFAULT_EXTRA (loadExtra ls, loadIds ls)).
  intros merged. unfold saveIds, saveExtra. rewrite Hq. cbn.
  rewrite ?Hq. reflexivity.
Qed.

(** The first visit seeds the defaults whatever was stored before: when
    the seeding flag is not set and the storage takes writes, after the
    page load every default is a favourite and is saved with its default
    station object, every id that was stored is still a favourite, and the
    flag is set. *)
Theorem first_visit_seeds ls :
  quotaExceeded ls = false ->
  opt_truthy (defaults_seeded ls) = false ->
  let st := load ls in
  seeded st /\
  (forall id s, Obj.get DEFAULT_EXTRA id = Some s ->
                Obj.get (extraMap st) id = Some s) /\
  (forall id, In id (loadIds ls) -> has st id = true) /\
  defaults_seeded (storage st) = Some "1".
Proof.
  intros Hq Hf. cbv zeta. unfold load.
  rewrite (seedDefaults_first ls Hq Hf).
  set (merged := fold_left seedOne DEFAULT_EXTRA (loadExtra ls, loadIds ls)).
  assert (Hsnd : snd merged
                 = fold_left StrSet.add (Obj.keys DEFAULT_EXTRA) (loadIds ls)).
  { unfold merged. now rewrite snd_fold_seedOne. }
  assert (Hnd : NoDup (snd merged)).
  { rewrite Hsnd. apply NoDup_fold_add, NoDup_loadIds. }
  set (ls1 := mkStorage (Json (snd merged)) (Json (fst merged)) (Some "1") false).
  assert (Hli : loadIds ls1 = snd merged)
    by (unfold loadIds; cbn [favourites ls1]; now apply ofList_NoDup).
  assert (Hle : loadExtra ls1 = fst merged) by reflexivity.
  rewrite Hli, Hle.
  assert (Hdef : forall id, In id DEFAULT_IDS -> StrSet.has (snd merged) id = true).
  { intros id Hid. apply has_In. rewrite Hsnd. apply In_fold_add. now right. }
  split; [|split; [|split]].
  - intros id Hid. rewrite prune_favIds. cbn [favIds]. now apply Hdef.
  - intros id s Hg. rewrite prune_extraMap. cbn [favIds extraMap].
    rewrite (get_filter_keys (StrSet.has (snd merged))).
    + unfold merged. apply get_fold_seedOne; [apply DEFAULT_keys_NoDup|exact Hg].
    + apply Hdef. unfold DEFAULT_IDS.
      destruct (in_dec string_dec id (Obj.keys DEFAULT_EXTRA)) as [Hin|Hin];
        [exact Hin|].
      apply get_None_keys in Hin. congruence.
  - intros id Hid. unfold has. rewrite prune_favIds. cbn [favIds].
    apply has_In. rewrite Hsnd. apply In_fold_add. now left.
  - unfold prune. cbn [favIds extraMap storage].
    destruct (existsb _ _); reflexivity.
Qed.

Lemma first_visit_seeds_witness :
  let st := load MoreSamples.firstVisit in
  getAll st = ("api-u9" :: DEFAULT_IDS) /\
  seeded st /\ has st "api-u9" = true.
Proof.
  destruct (first_visit_seeds MoreSamples.firstVisit eq_refl eq_refl)
    as (Hs & _ & Hk & _).
  split; [reflexivity|]. split; [exact Hs|].
  apply Hk. left. reflexivity.
Defined.

(** Seeding needs the storage: when [setItem] throws on the first visit,
    nothing is written, the flag stays unset for the next visit, and the
    favourites in memory are the stored ones alone, without the
    defaults. *)
Theorem seeding_needs_storage ls :
  quotaExceeded ls = true ->
  seedDefaults ls = ls /\
  favIds (load ls) = loadIds ls /\
  storage (load ls) = ls.
Proof.
  intros Hq.
  assert (Hs : seedDefaults ls = ls).
  { unfold seedDefaults. destruct (opt_truthy (defaults_seeded ls));
      [reflexivity|].
    cbv zeta. unfold saveIds, saveExtra. repeat rewrite Hq. reflexivity. }
  split; [exact Hs|]. unfold load. rewrite Hs. split.
  - apply prune_favIds.
  - unfold prune. cbn [favIds extraMap storage].
    destruct (existsb _ _); [|reflexivity].
    cbn [storage]. unfold saveExtra. now rewrite Hq.
Qed.

Lemma seeding_needs_storage_witness :
  favIds (load MoreSamples.fullFirstVisit) = ["api-u9"] /\
  has (load MoreSamples.fullFirstVisit) Samples.relaxId = false.
Proof.
  destruct (seeding_needs_storage MoreSamples.fullFirstVisit eq_refl)
    as (_ & Hf & _).
  split; [exact Hf|]. unfold has. rewrite Hf. reflexivity.
Defined.

End FavouritesMemory.

(* ===================================================================== *)
(** ** More on the player *)
(* ===================================================================== *)

Section PlayerInvariants.
Import JS Player PlayerNav.

Ltac flags :=
  repeat match goal with
         | |- context [hasWakeLock ?x] => destruct (hasWakeLock x)
         | |- context [hasMediaSession ?x] => destruct (hasMediaSession x)
         | |- context [_wakeLock ?x] => destruct (_wakeLock x)
         | |- context [_isPlaying ?x] => destruct (_isPlaying x)
         end.

Section OnAnyPage.
Variables (src : string) (hidden : bool).

(** The four fields [coherent] reads. *)
Lemma coherent_same st st' :
  _retryCount st' = _retryCount st ->
  _currentStation st' = _currentStation st ->
  audioSrc st' = audioSrc st ->
  playerHidden st' = playerHidden st ->
  coherent src hidden st -> coherent src hidden st'.
Proof.
  intros H1 H2 H3 H4. unfold coherent. now rewrite H1, H2, H3, H4.
Qed.

Ltac same :=
  apply coherent_same; cbn; flags; reflexivity.

Lemma play_coherent station st : coherent src hidden st -> coherent src hidden (play station st).
Proof.
  intros H. unfold play. destruct station as [s|]; [|assumption].
  destruct (truthy (Station.url s)) eqn:E; cbn [negb]; [|assumption].
  unfold coherent, setPlayIcon, setStatus, enqueue. cbn.
  split; [unfold MAX_RETRIES; lia|]. now repeat split.
Qed.

Lemma settle_coherent i ok st : coherent src hidden st -> coherent src hidden (settle i ok st).
Proof.
  intros H. unfold settle.
  destruct (nth_error (pending st) i) as [t|]; [|assumption].
  destruct t as [c|c|c| |]; [| assumption | | |].
  - destruct ok.
    + revert H. unfold playResolved, setMediaSessionState, requestWakeLock,
        enqueue, setPlayIcon, setStatus. same.
    + unfold playRejected. cbn [_retryCount set_pending].
      destruct (_retryCount st <? MAX_RETRIES)%nat eqn:E.
      * apply Nat.ltb_lt in E. destruct H as [_ H].
        unfold coherent, enqueue. cbn. split; [lia|exact H].
      * revert H. unfold setStatus. same.
  - destruct ok; revert H; unfold retryRejected, setStatus; same.
  - destruct ok; revert H;
      unfold resumeResolved, resumeRejected, setMediaSessionState,
        requestWakeLock, enqueue, setPlayIcon, setStatus; same.
  - destruct ok; revert H; unfold wakeLockGranted; same.
Qed.

Lemma step_coherent st e : coherent src hidden st -> coherent src hidden (step st e).
Proof.
  intros H. destruct e; cbn [step].
  - now apply play_coherent.
  - unfold togglePlay. destruct (_currentStation st) eqn:Ec; [|assumption].
    destruct (_isPlaying st).
    + revert H. unfold setMediaSessionState, releaseWakeLock, setStatus,
        setPlayIcon. same.
    + destruct (truthy (audioSrc st)); [|assumption].
      revert H. unfold enqueue, setStatus. same.
  - unfold playPrev. destruct (_currentStation st); [|assumption].
    destruct (_playlist st); [assumption|].
    match goal with |- context [if ?b then _ else _] => destruct b end;
      [now apply play_coherent | assumption].
  - unfold playNext. destruct (_currentStation st); [|assumption].
    destruct (_playlist st); [assumption|].
    match goal with |- context [if ?b then _ else _] => destruct b end;
      [now apply play_coherent | assumption].
  - revert H. unfold setPlaylist. same.
  - now apply settle_coherent.
  - unfold fire. destruct (nth_error (pending st) i) as [t|]; [|assumption].
    destruct t; assumption.
  - revert H. unfold onWaiting, setStatus. same.
  - revert H. unfold onPlaying, setMediaSessionState, requestWakeLock, enqueue,
      setStatus, setPlayIcon. same.
  - revert H. unfold onPause, setMediaSessionState, releaseWakeLock,
      setPlayIcon. same.
  - revert H. unfold onError, setMediaSessionState, releaseWakeLock,
      setPlayIcon, setStatus. same.
  - revert H. unfold onStalled, setStatus. same.
  - revert H. unfold onSentinelRelease. same.
  - revert H. unfold onVisible, requestWakeLock, enqueue. same.
Qed.

Lemma run_coherent evs st : coherent src hidden st -> coherent src hidden (run st evs).
Proof.
  revert st. induction evs as [|e evs IH]; intros st H; [assumption|].
  change (run st (e :: evs)) with (run (step st e) evs).
  apply IH. now apply step_coherent.
Qed.

Lemma onPage_coherent nv shown icon :
  coherent src hidden (onPage nv src hidden shown icon).
Proof. unfold coherent, MAX_RETRIES. cbn. repeat split; lia. Qed.

End OnAnyPage.

(** In every run of the player the retry count stays within MAX_RETRIES:
    it is reset by [play] and raised only below the limit. *)
Theorem retry_count_bounded nv evs :
  _retryCount (run (init nv) evs) <= MAX_RETRIES.
Proof.
  apply (run_coherent EmptyString true evs (init nv)).
  unfold coherent, MAX_RETRIES. cbn. repeat split; lia.
Qed.

(** In every run, on whatever page the player starts, the audio element
    follows the current station: while a station is current it has a url,
    [audio.src] is that url and the player bar is visible, so the play
    button, pressed while paused, always starts to resume; and before the
    first station the player has not touched the page: [audio.src] and the
    bar are as the markup left them, and the play, previous and next
    buttons do nothing. *)
Theorem audio_follows_station nv src hidden shown icon evs :
  let st := run (onPage nv src hidden shown icon) evs in
  match _currentStation st with
  | Some s =>
      Station.url s <> EmptyString /\
      audioSrc st = Station.url s /\
      playerHidden st = false /\
      (_isPlaying st = false ->
       statusShown (togglePlay st) = Loading /\
       pending (togglePlay st) = (pending st ++ [ResumePromise])%list)
  | None =>
      audioSrc st = src /\ playerHidden st = hidden /\
      togglePlay st = st /\ playPrev st = st /\ playNext st = st
  end.
Proof.
  cbv zeta.
  destruct (run_coherent src hidden evs _ (onPage_coherent src hidden nv shown icon))
    as [_ H].
  set (st := run (onPage nv src hidden shown icon) evs) in *.
  destruct (_currentStation st) as [s|] eqn:Ec.
  - destruct H as (Hu & Hs & Hh).
    split; [now apply truthy_not_empty|]. split; [assumption|].
    split; [assumption|].
    intros Hp. unfold togglePlay. rewrite Ec, Hp, Hs, Hu. now split.
  - destruct H as (Hs & Hh). split; [assumption|]. split; [assumption|].
    unfold togglePlay, playPrev, playNext. rewrite Ec. repeat split.
Qed.

End PlayerInvariants.

Section Navigation.
Import JS Player PlayerNav.

Lemma findIndex_ge {A} (p : A -> bool) l : (-1 <= findIndex p l)%Z.
Proof.
  induction l as [|x l IH]; cbn; [lia|].
  destruct (p x); [lia|]. destruct (Z.ltb_spec (findIndex p l) 0); lia.
Qed.

Lemma findIndex_lt {A} (p : A -> bool) l :
  (findIndex p l < Z.of_nat (length l))%Z.
Proof.
  induction l as [|x l IH]; cbn [findIndex length]; [lia|].
  destruct (p x); [lia|]. destruct (Z.ltb_spec (findIndex p l) 0); lia.
Qed.

Lemma findIndex_none {A} (p : A -> bool) l :
  (forall x, In x l -> p x = false) -> findIndex p l = (-1)%Z.
Proof.
  induction l as [|x l IH]; intros H; cbn; [reflexivity|].
  rewrite (H x (or_introl eq_refl)). rewrite IH; [reflexivity|].
  intros y Hy. apply H. now right.
Qed.

(** In a list without repeated ids, the index found for an id is the
    index of the station that has it. *)
Lemma findIndex_unique l : forall i a,
  NoDup (map Station.id l) -> nth_error l i = Some a ->
  findIndex (fun s => String.eqb (Station.id s) (Station.id a)) l
  = Z.of_nat i.
Proof.
  induction l as [|x l IH]; intros [|i] a Hn Hi; cbn in Hi; try discriminate.
  - injection Hi as ->. cbn. now rewrite String.eqb_refl.
  - inversion Hn as [|? ? Hnot Hl]; subst. cbn [findIndex].
    assert (Hne : String.eqb (Station.id x) (Station.id a) = false).
    { apply String.eqb_neq. intros E. apply Hnot. rewrite E.
      apply in_map. now apply nth_error_In in Hi. }
    rewrite Hne, (IH i a Hl Hi).
    destruct (Z.ltb_spec (Z.of_nat i) 0); lia.
Qed.

Lemma at_index_nat {A} (l : list A) i : at_index l (Z.of_nat i) = nth_error l i.
Proof.
  unfold at_index. destruct (Z.ltb_spec (Z.of_nat i) 0); [lia|].
  now rewrite Nat2Z.id.
Qed.

Lemma at_index_in_range {A} (l : list A) z :
  (0 <= z < Z.of_nat (length l))%Z -> exists x, at_index l z = Some x.
Proof.
  intros Hz. unfold at_index. destruct (Z.ltb_spec z 0); [lia|].
  destruct (nth_error l (Z.to_nat z)) eqn:En; [eauto|].
  apply nth_error_None in En. lia.
Qed.

Lemma play_playable s st :
  truthy (Station.url s) = true ->
  _currentStation (play (Some s) st) = Some s /\
  _playlist (play (Some s) st) = _playlist st.
Proof. intros H. unfold play. rewrite H. cbn. now split. Qed.

(** The navigation buttons tell what their handlers will do: when
    [updateNavButtons] disables a button, [playPrev] or [playNext] changes
    nothing, and when it leaves one enabled, the handler calls [play] on
    the neighbour of the current station, which is inside the playlist. *)
Theorem nav_buttons_guard st :
  (fst (updateNavButtons st) = true -> playPrev st = st) /\
  (snd (updateNavButtons st) = true -> playNext st = st) /\
  (fst (updateNavButtons st) = false ->
     exists s, In s (_playlist st) /\ playPrev st = play (Some s) st) /\
  (snd (updateNavButtons st) = false ->
     exists s, In s (_playlist st) /\ playNext st = play (Some s) st).
Proof.
  unfold updateNavButtons, playPrev, playNext.
  destruct (_playlist st) as [|x l] eqn:El;
    [destruct (_currentStation st); cbn; repeat split; discriminate|].
  destruct (_currentStation st) as [cur|] eqn:Ec;
    [|cbn; repeat split; discriminate].
  cbn [fst snd]. rewrite <- El.
  pose proof (findIndex_ge
    (fun s => String.eqb (Station.id s) (Station.id cur)) (_playlist st)) as Hge.
  pose proof (findIndex_lt
    (fun s => String.eqb (Station.id s) (Station.id cur)) (_playlist st)) as Hlt.
  fold (currentIndex st cur) in Hge, Hlt.
  set (idx := currentIndex st cur) in *.
  split; [|split; [|split]].
  - intros H. apply Z.leb_le in H.
    destruct (Z.ltb_spec 0 idx); [lia | reflexivity].
  - intros H. apply Z.leb_le in H.
    destruct (Z.ltb_spec idx (Z.of_nat (length (_playlist st)) - 1));
      [lia | reflexivity].
  - intros H. apply Z.leb_gt in H.
    destruct (at_index_in_range (_playlist st) (idx - 1)) as (s & Hs); [lia|].
    exists s. split.
    + unfold at_index in Hs. destruct (idx - 1 <? 0)%Z; [discriminate|].
      now apply nth_error_In in Hs.
    + rewrite Hs. destruct (Z.ltb_spec 0 idx); [reflexivity | lia].
  - intros H. apply Z.leb_gt in H.
    destruct (at_index_in_range (_playlist st) (idx + 1)) as (s & Hs); [lia|].
    exists s. split.
    + unfold at_index in Hs. destruct (idx + 1 <? 0)%Z; [discriminate|].
      now apply nth_error_In in Hs.
    + rewrite Hs.
      destruct (Z.ltb_spec idx (Z.of_nat (length (_playlist st)) - 1));
        [reflexivity | lia].
Qed.

Lemma nav_buttons_guard_witness :
  updateNavButtons MoreSamples.onJazz = (true, false) /\
  playPrev MoreSamples.onJazz = MoreSamples.onJazz /\
  exists s, In s (_playlist MoreSamples.onJazz) /\
            playNext MoreSamples.onJazz = play (Some s) MoreSamples.onJazz.
Proof.
  destruct (nav_buttons_guard MoreSamples.onJazz) as (Hp & _ & _ & Hn).
  split; [reflexivity|]. split; [exact (Hp eq_refl) | exact (Hn eq_refl)].
Defined.

(** Next and previous undo each other: in a playlist without repeated
    ids, from the station at index [i], [playNext] makes the station at
    [i + 1] current and [playPrev] after it makes the station at [i]
    current again, provided both have a url. *)
Theorem next_then_prev st i a b cur :
  NoDup (map Station.id (_playlist st)) ->
  nth_error (_playlist st) i = Some a ->
  nth_error (_playlist st) (S i) = Some b ->
  _currentStation st = Some cur ->
  Station.id cur = Station.id a ->
  truthy (Station.url a) = true ->
  truthy (Station.url b) = true ->
  _currentStation (playNext st) = Some b /\
  _currentStation (playPrev (playNext st)) = Some a.
Proof.
  intros Hn Ha Hb Hc Hid Ua Ub.
  assert (Hlen : S i < length (_playlist st)).
  { apply nth_error_Some. rewrite Hb. discriminate. }
  assert (Hnext : playNext st = play (Some b) st).
  { unfold playNext. rewrite Hc.
    destruct (_playlist st) as [|x l] eqn:El; [cbn in Hlen; lia|].
    rewrite <- El in *. unfold currentIndex. rewrite Hid.
    rewrite (findIndex_unique _ i a Hn Ha).
    destruct (Z.ltb_spec (Z.of_nat i) (Z.of_nat (length (_playlist st)) - 1));
      [|lia].
    replace (Z.of_nat i + 1)%Z with (Z.of_nat (S i)) by lia.
    now rewrite at_index_nat, Hb. }
  destruct (play_playable b st Ub) as [Hcur Hpl].
  rewrite Hnext. split; [exact Hcur|].
  unfold playPrev. rewrite Hcur, Hpl.
  destruct (_playlist st) as [|x l] eqn:El; [cbn in Hlen; lia|].
  rewrite <- El in *. unfold currentIndex. rewrite Hpl.
  rewrite (findIndex_unique _ (S i) b Hn Hb).
  destruct (Z.ltb_spec 0 (Z.of_nat (S i))); [|lia].
  replace (Z.of_nat (S i) - 1)%Z with (Z.of_nat i) by lia.
  rewrite at_index_nat, Ha. apply (play_playable a _ Ua).
Qed.

Lemma next_then_prev_witness :
  _currentStation (playNext MoreSamples.onJazz) = Some Samples.rock /\
  _currentStation (playPrev (playNext MoreSamples.onJazz)) = Some Samples.jazz.
Proof.
  apply (next_then_prev MoreSamples.onJazz 0 Samples.jazz Samples.rock
           Samples.jazz); try reflexivity.
  cbn. repeat constructor; cbn; intuition discriminate.
Defined.

(** When the current station is not in the playlist (the list was
    replaced after it started), the previous button is disabled and does
    nothing, and the next button is enabled and jumps to the first
    station of the list, provided that station has a url. *)
Theorem next_from_outside st cur first rest :
  _currentStation st = Some cur ->
  _playlist st = first :: rest ->
  (forall s, In s (_playlist st) -> Station.id s <> Station.id cur) ->
  truthy (Station.url first) = true ->
  updateNavButtons st = (true, false) /\
  playPrev st = st /\
  _currentStation (playNext st) = Some first.
Proof.
  intros Hc Hl Hout Hu.
  assert (Hidx : currentIndex st cur = (-1)%Z).
  { unfold currentIndex. apply findIndex_none. intros s Hs.
    apply String.eqb_neq. now apply Hout. }
  unfold updateNavButtons, playPrev, playNext. rewrite Hc, Hidx, Hl.
  split; [|split].
  - cbn [length]. f_equal. apply Z.leb_gt. lia.
  - reflexivity.
  - cbn [length].
    destruct (Z.ltb_spec (-1) (Z.of_nat (S (length rest)) - 1)); [|lia].
    change (at_index (first :: rest) (-1 + 1)) with (Some first).
    apply (play_playable first st Hu).
Qed.

Lemma next_from_outside_witness :
  updateNavButtons MoreSamples.offList = (true, false) /\
  _currentStation (playNext MoreSamples.offList) = Some Samples.rock.
Proof.
  destruct (next_from_outside MoreSamples.offList Samples.jazz Samples.rock
              [MoreSamples.pop] eq_refl eq_refl) as (Hb & _ & Hn).
  - intros s [<- | [<- | []]]; discriminate.
  - reflexivity.
  - split; [exact Hb | exact Hn].
Defined.

End Navigation.

Section VolumeControl.
Import Volume.

Lemma setVolume_fields val st :
  let st1 := setVolume val st in
  _volume st1 = Z.max 0 (Z.min 100 val) /\
  audioVolume st1 = _volume st1 /\ sliderValue st1 = _volume st1 /\
  volumeShown st1 = _volume st1 /\
  _muted st1 = _muted st /\ audioMuted st1 = audioMuted st /\
  muteIcon st1 = glyphFor st1.
Proof. cbv zeta. unfold setVolume, updateMuteIcon, glyphFor. cbn. repeat split. Qed.

Lemma step_in_range st e :
  (0 <= _volume st <= 100)%Z /\ audioVolume st = _volume st /\
  sliderValue st = _volume st /\ volumeShown st = _volume st ->
  (0 <= _volume (step st e) <= 100)%Z /\
  audioVolume (step st e) = _volume (step st e) /\
  sliderValue (step st e) = _volume (step st e) /\
  volumeShown (step st e) = _volume (step st e).
Proof.
  intros (Hr & Ha & Hs & Hv). destruct e as [val| |]; cbn [step].
  - unfold onSlider. cbv zeta.
    destruct (setVolume_fields val st) as (H1 & H2 & H3 & H4 & _).
    destruct (_muted (setVolume val st) && (0 <? _volume (setVolume val st))%Z);
      cbn [_volume audioVolume sliderValue volumeShown];
      rewrite ?H2, ?H3, ?H4, H1; repeat split; lia.
  - unfold toggleMute, updateMuteIcon. cbn. now repeat split.
  - unfold onPlay. cbn. now repeat split.
Qed.

(** In every run of the volume controls the volume stays between 0 and
    100, whatever values the slider sends, and the audio element, the
    slider and the percentage shown all carry that volume. *)
Theorem volume_in_range muted slider shown glyph evs :
  let st := run (init muted slider shown glyph) evs in
  (0 <= _volume st <= 100)%Z /\
  audioVolume st = _volume st /\
  sliderValue st = _volume st /\
  volumeShown st = _volume st.
Proof.
  cbv zeta. unfold run.
  assert (H0 : (0 <= _volume (init muted slider shown glyph) <= 100)%Z /\
               audioVolume (init muted slider shown glyph)
                 = _volume (init muted slider shown glyph) /\
               sliderValue (init muted slider shown glyph)
                 = _volume (init muted slider shown glyph) /\
               volumeShown (init muted slider shown glyph)
                 = _volume (init muted slider shown glyph)).
  { cbn. repeat split; lia. }
  revert H0. generalize (init muted slider shown glyph).
  induction evs as [|e evs IH]; intros st H; cbn; [exact H|].
  apply IH. now apply step_in_range.
Qed.

Lemma step_icon st e :
  muteIcon st = glyphFor st \/
  (muteIcon st = Xmark /\ _muted st = false /\ (0 < _volume st)%Z) ->
  muteIcon (step st e) = glyphFor (step st e) \/
  (muteIcon (step st e) = Xmark /\ _muted (step st e) = false /\
   (0 < _volume (step st e))%Z).
Proof.
  intros H. destruct e as [val| |]; cbn [step].
  - unfold onSlider. cbv zeta.
    destruct (setVolume_fields val st) as (_ & _ & _ & _ & _ & _ & Hi).
    destruct (_muted (setVolume val st)) eqn:Em; cbn [andb]; [|now left].
    destruct (Z.ltb_spec 0 (_volume (setVolume val st))); [|now left].
    right. cbn [muteIcon _muted _volume]. rewrite Hi. unfold glyphFor.
    rewrite Em. cbn. now repeat split.
  - left. unfold toggleMute, updateMuteIcon, glyphFor. reflexivity.
  - unfold onPlay, glyphFor in *. cbn. exact H.
Qed.

(** The mute button never shows a speaker while the sound is muted or at
    zero: in every run the glyph is the one that fits the variables, or it
    is the crossed speaker although the sound is on.  The second case
    comes from the slider: moving it above zero while muted switches the
    mute off without redrawing the glyph. *)
Theorem mute_icon_never_overstates muted slider shown glyph evs :
  let st := run (init muted slider shown glyph) evs in
  (muteIcon st = glyphFor st \/
   (muteIcon st = Xmark /\ _muted st = false /\ (0 < _volume st)%Z)) /\
  forall val,
    _muted st = true -> (0 < val)%Z ->
    let st1 := step st (Slider val) in
    _muted st1 = false /\ audioMuted st1 = false /\
    muteIcon st1 = Xmark /\ glyphFor st1 <> Xmark.
Proof.
  cbv zeta. split.
  - unfold run.
    assert (H0 : muteIcon (init muted slider shown glyph)
                 = glyphFor (init muted slider shown glyph)) by reflexivity.
    assert (H1 : muteIcon (init muted slider shown glyph)
                   = glyphFor (init muted slider shown glyph) \/
                 (muteIcon (init muted slider shown glyph) = Xmark /\
                  _muted (init muted slider shown glyph) = false /\
                  (0 < _volume (init muted slider shown glyph))%Z))
      by now left.
    clear H0. revert H1. generalize (init muted slider shown glyph).
    induction evs as [|e evs IH]; intros st H; cbn; [exact H|].
    apply IH. now apply step_icon.
  - intros val Hm Hv. cbn [step]. unfold onSlider. cbv zeta.
    destruct (setVolume_fields val (run (init muted slider shown glyph) evs))
      as (H1 & _ & _ & _ & H5 & _ & H7).
    set (st := run (init muted slider shown glyph) evs) in *.
    rewrite H5, Hm. cbn [andb].
    destruct (Z.ltb_spec 0 (_volume (setVolume val st))); [|lia].
    cbn [_muted audioMuted muteIcon]. rewrite H7.
    unfold glyphFor at 1. rewrite H5, Hm. cbn [orb].
    repeat split. unfold glyphFor. cbn [_muted _volume orb].
    destruct (Z.eqb_spec (_volume (setVolume val st)) 0); [lia|].
    destruct (_volume (setVolume val st) <? 50)%Z; discriminate.
Qed.

Lemma mute_icon_never_overstates_witness :
  let st := run (init false 0 0 High) [MuteClick] in
  let st1 := step st (Slider 30) in
  _muted st1 = false /\ audioMuted st1 = false /\
  muteIcon st1 = Xmark /\ glyphFor st1 <> Xmark.
Proof.
  destruct (mute_icon_never_overstates false 0 0 High [MuteClick]) as [_ H].
  apply (H 30%Z); reflexivity.
Defined.

End VolumeControl.

(* ===================================================================== *)
(** ** More on the view orchestrator *)
(* ===================================================================== *)

Section PageInStep.
Import JS App AppView.

Ltac cases :=
  repeat match goal with
         | |- context [match ?p with _ => _ end] => destruct p eqn:?
         end.

Ltac frame f :=
  cbv zeta; unfold f;
  cbn -[filter Favorites.getSavedStations StrSet.ofList String.eqb trim
        RadioAPI.search Favorites.toggle Player.step Favorites.count
        RadioAPI.init RadioAPI.SERVERS];
  cases;
  cbn -[filter Favorites.getSavedStations StrSet.ofList String.eqb trim
        RadioAPI.search Favorites.toggle Player.step Favorites.count
        RadioAPI.init RadioAPI.SERVERS];
  repeat split.

Lemma modeView_fields a b :
  modeView a = modeView b ->
  showingFavourites a = showingFavourites b /\
  searchQuery a = searchQuery b /\ favActive a = favActive b /\
  activeTab a = activeTab b /\ activeLanguage a = activeLanguage b /\
  badge a = badge b /\ favs a = favs b /\ baseUrl a = baseUrl b.
Proof.
  unfold modeView.
  generalize (showingFavourites a), (searchQuery a), (favActive a),
    (activeTab a), (activeLanguage a), (badge a), (favs a), (baseUrl a),
    (showingFavourites b), (searchQuery b), (favActive b), (activeTab b),
    (activeLanguage b), (badge b), (favs b), (baseUrl b).
  intros. injection H as -> -> -> -> -> -> -> ->. repeat split.
Qed.

(** The fields of a state whose view is known. *)
Lemma modeView_fields_of a sf q fa tab lang bd f url :
  modeView a = (sf, q, fa, tab, lang, bd, f, url) ->
  showingFavourites a = sf /\ searchQuery a = q /\ favActive a = fa /\
  activeTab a = tab /\ activeLanguage a = lang /\ badge a = bd /\
  favs a = f /\ baseUrl a = url.
Proof.
  unfold modeView.
  generalize (showingFavourites a), (searchQuery a), (favActive a),
    (activeTab a), (activeLanguage a), (badge a), (favs a), (baseUrl a).
  intros. injection H as -> -> -> -> -> -> -> ->. repeat split.
Qed.

Lemma inStep_same a b : modeView a = modeView b -> inStep b -> inStep a.
Proof.
  intros H. apply modeView_fields in H.
  destruct H as (H1 & H2 & H3 & H4 & H5 & H6 & H7 & H8).
  unfold inStep. now rewrite H1, H2, H3, H4, H5, H6, H7, H8.
Qed.

Lemma showFavourites_mode st : modeView (showFavourites st) = modeView st.
Proof. frame showFavourites. Qed.

Lemma runApiSearch_mode q st : modeView (runApiSearch q st) = modeView st.
Proof. frame runApiSearch. Qed.

Lemma searchSettled_mode r net st :
  modeView (searchSettled r net st) = modeView st.
Proof. frame searchSettled. Qed.

Lemma clearTimeout_mode id st : modeView (clearTimeout id st) = modeView st.
Proof. now destruct id. Qed.

(** Entering favourites mode, whatever the state before. *)
Lemma enterFavouritesMode_mode st :
  modeView (enterFavouritesMode st)
  = (true, searchQuery st, true, "all", "all", badge st, favs st, baseUrl st).
Proof.
  unfold enterFavouritesMode. cbv zeta. now rewrite showFavourites_mode.
Qed.

Lemma inStep_entered st0 st :
  modeView st
  = (true, searchQuery st0, true, "all", "all", badge st0, favs st0,
     baseUrl st0) ->
  truthy (trim (searchQuery st0)) = false ->
  badge st0 = Favorites.count (favs st0) ->
  In (baseUrl st0) RadioAPI.SERVERS ->
  inStep st.
Proof.
  intros H Hq Hb Hu.
  assert (E : showingFavourites st = true /\ searchQuery st = searchQuery st0
              /\ favActive st = true /\ activeTab st = "all"
              /\ activeLanguage st = "all" /\ badge st = badge st0
              /\ favs st = favs st0 /\ baseUrl st = baseUrl st0).
  { unfold modeView in H.
    revert H. generalize (showingFavourites st), (searchQuery st),
      (favActive st), (activeTab st), (activeLanguage st), (badge st),
      (favs st), (baseUrl st).
    intros. injection H as -> -> -> -> -> -> -> ->. repeat split. }
  destruct E as (E1 & E2 & E3 & E4 & E5 & E6 & E7 & E8).
  unfold inStep. rewrite E1, E2, E3, E4, E5, E6, E7, E8, Hq.
  repeat split; assumption.
Qed.

Lemma init_in_servers answers b :
  In b RadioAPI.SERVERS -> In (RadioAPI.init answers b) RadioAPI.SERVERS.
Proof.
  intros H. unfold RadioAPI.init.
  destruct (find answers RadioAPI.SERVERS) eqn:E; [|assumption].
  now apply find_some in E.
Qed.

Lemma updateFavBadge_mode st :
  modeView (updateFavBadge st)
  = (showingFavourites st, searchQuery st, favActive st, activeTab st,
     activeLanguage st, Favorites.count (favs st), favs st, baseUrl st).
Proof.
  unfold updateFavBadge. cbv zeta.
  change (showingFavourites (set_badge (Favorites.count (favs st)) st))
    with (showingFavourites st).
  destruct (showingFavourites st) eqn:E.
  - rewrite showFavourites_mode. unfold modeView. cbn -[Favorites.count].
    now rewrite E.
  - unfold modeView. cbn -[Favorites.count]. now rewrite E.
Qed.

Lemma inStep_counted st st1 f :
  modeView st1
  = (showingFavourites st, searchQuery st, favActive st, activeTab st,
     activeLanguage st, Favorites.count f, f, baseUrl st) ->
  inStep st -> inStep st1.
Proof.
  intros H (H1 & H2 & H3 & _ & H5).
  assert (E : showingFavourites st1 = showingFavourites st
              /\ searchQuery st1 = searchQuery st
              /\ favActive st1 = favActive st /\ activeTab st1 = activeTab st
              /\ activeLanguage st1 = activeLanguage st
              /\ badge st1 = Favorites.count f
              /\ favs st1 = f /\ baseUrl st1 = baseUrl st).
  { unfold modeView in H.
    revert H. generalize (showingFavourites st1), (searchQuery st1),
      (favActive st1), (activeTab st1), (activeLanguage st1), (badge st1),
      (favs st1), (baseUrl st1).
    intros. injection H as -> -> -> -> -> -> -> ->. repeat split. }
  destruct E as (E1 & E2 & E3 & E4 & E5 & E6 & E7 & E8).
  unfold inStep. rewrite E1, E2, E3, E4, E5, E6, E7, E8.
  repeat split; assumption.
Qed.

Lemma onInput_inStep v st : inStep st -> inStep (step st (Input v)).
Proof.
  intros (H1 & H2 & H3 & H4 & H5).
  destruct (truthy (trim v)) eqn:Hv.
  - cbn [step]. unfold onInput. cbn -[trim filter].
    destruct (searchDebounce st); cbn -[trim filter]; rewrite Hv;
      cbn -[trim filter];
      destruct (showingFavourites st) eqn:E; cbn -[trim filter];
      unfold inStep; cbn -[trim filter Favorites.count RadioAPI.SERVERS];
      rewrite ?E, ?Hv; repeat split; try assumption; congruence.
  - rewrite (onInput_blank st v Hv).
    eapply inStep_entered.
    + apply enterFavouritesMode_mode.
    + destruct (searchDebounce st); cbn -[trim]; exact Hv.
    + destruct (searchDebounce st); cbn -[Favorites.count]; exact H4.
    + destruct (searchDebounce st); cbn -[RadioAPI.SERVERS]; exact H5.
Qed.

Lemma step_inStep st e : inStep st -> inStep (step st e).
Proof.
  intros H. pose proof H as (H1 & H2 & H3 & H4 & H5).
  destruct e as [v| | |lang|station|station choice|ms|id|i net|answers|pe].
  - now apply onInput_inStep.
  - cbn [step]. unfold onClear. cbv zeta. eapply inStep_entered;
      [apply enterFavouritesMode_mode | reflexivity | exact H4 | exact H5].
  - cbn [step]. unfold onFavToggle. cbv zeta. eapply inStep_entered;
      [apply enterFavouritesMode_mode | reflexivity | exact H4 | exact H5].
  - cbn [step]. unfold onLangTab. cbv zeta.
    change (showingFavourites (set_activeLanguage lang (set_activeTab lang st)))
      with (showingFavourites st).
    change (searchQuery (set_activeLanguage lang (set_activeTab lang st)))
      with (searchQuery st).
    assert (Hin : inStep (set_activeLanguage lang (set_activeTab lang st))).
    { unfold inStep. cbn -[trim Favorites.count RadioAPI.SERVERS].
      repeat split; assumption. }
    destruct (showingFavourites st) eqn:E.
    + eapply inStep_same; [apply showFavourites_mode | exact Hin].
    + destruct (truthy (trim (searchQuery st))) eqn:Eq.
      * eapply inStep_same; [apply runApiSearch_mode | exact Hin].
      * eapply inStep_entered;
          [apply enterFavouritesMode_mode | exact Eq | exact H4 | exact H5].
  - cbn [step]. eapply inStep_same; [|exact H]. reflexivity.
  - cbn [step]. unfold onCardFav.
    destruct (Favorites.has (favs st) (Station.id station)).
    + eapply inStep_counted; [|exact H]. rewrite updateFavBadge_mode.
      reflexivity.
    + destruct choice; [|assumption].
      eapply inStep_counted; [|exact H]. rewrite updateFavBadge_mode.
      reflexivity.
  - cbn [step]. eapply inStep_same; [|exact H]. reflexivity.
  - cbn [step]. destruct (dueTimer id st); [|assumption].
    unfold onDebounce. eapply inStep_same; [|exact H].
    now rewrite runApiSearch_mode, clearTimeout_mode.
  - cbn [step]. destruct (nth_error (inflight st) i); [|assumption].
    eapply inStep_same; [|exact H]. now rewrite searchSettled_mode.
  - cbn [step]. unfold inStep. cbn -[trim Favorites.count RadioAPI.SERVERS RadioAPI.init].
    repeat split; try assumption. now apply init_in_servers.
  - cbn [step]. eapply inStep_same; [|exact H]. reflexivity.
Qed.

Lemma run_inStep evs st : inStep st -> inStep (run st evs).
Proof.
  revert st. induction evs as [|e evs IH]; intros st H; [assumption|].
  change (run st (e :: evs)) with (run (step st e) evs).
  apply IH. now apply step_inStep.
Qed.

Lemma loaded_inStep ls nv html : inStep (loaded ls nv html).
Proof.
  unfold loaded, onLoaded.
  assert (Hb : modeView (boot (start ls nv html))
               = (true, EmptyString, true, "all", "all",
                  badge (start ls nv html), Favorites.load ls,
                  "https://de1.api.radio-browser.info")).
  { unfold boot. cbv zeta. rewrite enterFavouritesMode_mode. reflexivity. }
  apply modeView_fields_of in Hb.
  destruct Hb as (E1 & E2 & E3 & E4 & E5 & E6 & E7 & E8).
  pose proof (updateFavBadge_mode (boot (start ls nv html))) as Hu.
  rewrite E1, E2, E3, E4, E5, E7, E8 in Hu.
  apply modeView_fields_of in Hu.
  destruct Hu as (F1 & F2 & F3 & F4 & F5 & F6 & F7 & F8).
  unfold inStep. rewrite F1, F2, F3, F4, F5, F6, F7, F8.
  repeat split. left. reflexivity.
Qed.

(** In every state the application reaches, under all events: favourites
    mode is on exactly while the trimmed search text is empty, the header
    heart is lit exactly in favourites mode, the lit language tab is the
    active language, the badge shows the number of favourites, and the
    server in use is one of SERVERS. *)
Theorem page_in_step ls nv html evs :
  let st := run (loaded ls nv html) evs in
  (showingFavourites st = true <-> trim (searchQuery st) = EmptyString) /\
  favActive st = showingFavourites st /\
  activeTab st = activeLanguage st /\
  badge st = Favorites.count (favs st) /\
  In (baseUrl st) RadioAPI.SERVERS.
Proof.
  cbv zeta.
  destruct (run_inStep evs _ (loaded_inStep ls nv html))
    as (H1 & H2 & H3 & H4 & H5).
  split; [|now repeat split].
  rewrite H1. destruct (trim (searchQuery (run (loaded ls nv html) evs)));
    cbn; split; congruence.
Qed.

End PageInStep.

Section Listing.
Import JS App AppView.

Ltac cases :=
  repeat match goal with
         | |- context [match ?p with _ => _ end] => destruct p eqn:?
         end.

Ltac frame f :=
  cbv zeta; unfold f;
  cbn -[filter Favorites.getSavedStations StrSet.ofList String.eqb trim
        RadioAPI.search Favorites.toggle Player.step Favorites.count
        RadioAPI.init RadioAPI.SERVERS];
  cases;
  cbn -[filter Favorites.getSavedStations StrSet.ofList String.eqb trim
        RadioAPI.search Favorites.toggle Player.step Favorites.count
        RadioAPI.init RadioAPI.SERVERS];
  repeat split.

Lemma listView_fields a b :
  listView a = listView b ->
  Player._playlist (player a) = Player._playlist (player b) /\
  displayedStations a = displayedStations b /\
  rendered a = rendered b /\ loadingShown a = loadingShown b.
Proof.
  unfold listView.
  generalize (Player._playlist (player a)), (displayedStations a),
    (rendered a), (loadingShown a), (Player._playlist (player b)),
    (displayedStations b), (rendered b), (loadingShown b).
  intros. injection H as -> -> -> ->. repeat split.
Qed.

Lemma listed_same a b : listView a = listView b -> listed b -> listed a.
Proof.
  intros H. apply listView_fields in H. destruct H as (H1 & H2 & H3 & H4).
  unfold listed. now rewrite H1, H2, H3, H4.
Qed.

Lemma showFavourites_listed st : listed (showFavourites st).
Proof.
  destruct (showFavourites_shows st) as (H1 & H2 & H3).
  unfold listed. rewrite H1, H2, H3. split; [reflexivity | now left].
Qed.

Lemma enterFavouritesMode_listed st : listed (enterFavouritesMode st).
Proof. unfold enterFavouritesMode. cbv zeta. apply showFavourites_listed. Qed.

Lemma runApiSearch_list q st :
  let st1 := runApiSearch q st in
  Player._playlist (player st1) = Player._playlist (player st) /\
  displayedStations st1 = displayedStations st /\
  rendered st1 = [] /\ loadingShown st1 = true.
Proof. frame runApiSearch. Qed.

Lemma runApiSearch_listed q st : listed st -> listed (runApiSearch q st).
Proof.
  intros [H _]. destruct (runApiSearch_list q st) as (H1 & H2 & H3 & H4).
  unfold listed. rewrite H1, H2, H3, H4. split; [assumption | now right].
Qed.

Lemma searchSettled_list r net st :
  let st1 := searchSettled r net st in
  Player._playlist (player st1) = displayedStations st1 /\
  rendered st1 = displayedStations st1 /\
  loadingShown st1 = false /\ apiStatusShown st1 = false.
Proof. frame searchSettled; cbn in *; congruence. Qed.

Lemma player_step_playlist ps e :
  (match e with Player.SetPlaylist _ => false | _ => true end) = true ->
  Player._playlist (Player.step ps e) = Player._playlist ps.
Proof.
  intros He. destruct e; try discriminate He; cbn [Player.step].
  - unfold Player.play. destruct station as [s|]; [|reflexivity].
    destruct (negb (truthy (Station.url s))); reflexivity.
  - unfold Player.togglePlay, Player.setMediaSessionState,
      Player.releaseWakeLock. cases; cbn in *; congruence.
  - unfold Player.playPrev, Player.play. cases; cbn in *; congruence.
  - unfold Player.playNext, Player.play. cases; cbn in *; congruence.
  - unfold Player.settle, Player.playResolved, Player.playRejected,
      Player.resumeResolved, Player.setMediaSessionState,
      Player.requestWakeLock. cases; cbn in *; congruence.
  - unfold Player.fire. cases; cbn in *; congruence.
  - reflexivity.
  - unfold Player.onPlaying, Player.setMediaSessionState,
      Player.requestWakeLock. cases; cbn in *; congruence.
  - unfold Player.onPause, Player.setMediaSessionState,
      Player.releaseWakeLock. cases; cbn in *; congruence.
  - unfold Player.onError, Player.setMediaSessionState,
      Player.releaseWakeLock. cases; cbn in *; congruence.
  - reflexivity.
  - reflexivity.
  - unfold Player.onVisible, Player.requestWakeLock. cases; cbn in *; congruence.
Qed.

Lemma step_listed st e : ownEvent e = true -> listed st -> listed (step st e).
Proof.
  intros He H.
  destruct e as [v| | |lang|station|station choice|ms|id|i net|answers|pe];
    cbn [step].
  - destruct (truthy (trim v)) eqn:Hv.
    + eapply listed_same; [|exact H]. unfold onInput.
      cbn -[trim filter]. destruct (searchDebounce st); cbn -[trim filter];
        rewrite Hv; cbn -[trim filter];
        destruct (showingFavourites st); reflexivity.
    + change (onInput v st) with (step st (Input v)).
      rewrite (onInput_blank st v Hv). apply enterFavouritesMode_listed.
  - apply enterFavouritesMode_listed.
  - apply enterFavouritesMode_listed.
  - unfold onLangTab. cbv zeta.
    repeat match goal with |- context [if ?b then _ else _] => destruct b end.
    + apply showFavourites_listed.
    + apply runApiSearch_listed. exact H.
    + apply enterFavouritesMode_listed.
  - destruct H as [H1 H2]. unfold listed, playStation.
    cbn [player displayedStations rendered loadingShown dom set_player].
    change (Player.play (Some station) (player st))
      with (Player.step (player st) (Player.Play (Some station))).
    rewrite player_step_playlist by reflexivity. now split.
  - unfold onCardFav, updateFavBadge.
    destruct (Favorites.has (favs st) (Station.id station)); cbv zeta.
    + match goal with |- context [if ?b then _ else _] => destruct b end;
        [apply showFavourites_listed | exact H].
    + destruct choice; [|exact H].
      match goal with |- context [if ?b then _ else _] => destruct b end;
        [apply showFavourites_listed | exact H].
  - exact H.
  - destruct (dueTimer id st); [|exact H].
    unfold onDebounce. apply runApiSearch_listed.
    eapply listed_same; [|exact H]. reflexivity.
  - destruct (nth_error (inflight st) i); [|exact H].
    match goal with |- context [searchSettled ?r ?n ?s] =>
      destruct (searchSettled_list r n s) as (H1 & H2 & _) end.
    unfold listed. rewrite H1, H2. split; [reflexivity | now left].
  - exact H.
  - destruct H as [H1 H2]. unfold listed.
    cbn [player displayedStations rendered loadingShown dom set_player].
    rewrite player_step_playlist; [now split|].
    destruct pe; try reflexivity. discriminate He.
Qed.

Lemma run_listed evs st :
  forallb ownEvent evs = true -> listed st -> listed (run st evs).
Proof.
  revert st. induction evs as [|e evs IH]; intros st He H; [assumption|].
  change (run st (e :: evs)) with (run (step st e) evs).
  cbn in He. apply andb_true_iff in He. destruct He as [He Hr].
  apply IH; [assumption|]. now apply step_listed.
Qed.

Lemma listed_set_badge n st : listed st -> listed (set_badge n st).
Proof. intros H. exact H. Qed.

Lemma boot_listed st : listed (boot st).
Proof. unfold boot. cbv zeta. apply enterFavouritesMode_listed. Qed.

Lemma loaded_listed ls nv html : listed (loaded ls nv html).
Proof.
  unfold loaded, onLoaded, updateFavBadge. cbv zeta.
  generalize (boot_listed (start ls nv html)).
  generalize (boot (start ls nv html)). intros st H.
  match goal with |- context [if ?b then _ else _] => destruct b end.
  - apply showFavourites_listed.
  - now apply listed_set_badge.
Qed.

(** Previous and next step through what is on display: in every state the
    application reaches by its own events the player's playlist is the
    displayed list, and the grid shows that list or, while a search is
    loading, nothing. *)
Theorem playlist_is_displayed ls nv html evs :
  forallb ownEvent evs = true ->
  let st := run (loaded ls nv html) evs in
  Player._playlist (player st) = displayedStations st /\
  (rendered st = displayedStations st \/
   (rendered st = [] /\ loadingShown st = true)).
Proof.
  intros He. apply (run_listed evs _ He (loaded_listed ls nv html)).
Qed.

Lemma playlist_is_displayed_witness :
  let st := run Samples.app
              [Input "jazz"; Elapse 320; Fire 0;
               SearchSettled 0 Samples.netJazz; CardClick Samples.rock] in
  Player._playlist (player st) = displayedStations st /\
  displayedStations st = [Samples.jazz; Samples.rock].
Proof.
  split; [|vm_compute; reflexivity].
  apply (playlist_is_displayed Samples.twoSaved Samples.browser Samples.html
           [Input "jazz"; Elapse 320; Fire 0;
            SearchSettled 0 Samples.netJazz; CardClick Samples.rock]).
  reflexivity.
Defined.

End Listing.

Section SearchEdges.
Import JS App AppView.

Ltac cases :=
  repeat match goal with
         | |- context [match ?p with _ => _ end] => destruct p eqn:?
         end.

Lemma searchSettled_empty r net st :
  let st1 := searchSettled r net st in
  displayedStations st1
  = match RadioAPI.search net (req_base r) (req_opts r) with
    | RadioAPI.Fulfilled results => results
    | RadioAPI.Rejected => []
    end /\
  (displayedStations st1 = [] ->
   emptyShown st1 = true /\
   emptyMessage st1
   = ("No results for " ++ quoted (RadioAPI.query (req_opts r)),
      "Try a different name, genre, or country")).
Proof.
  cbv zeta. unfold searchSettled.
  destruct (RadioAPI.search net (req_base r) (req_opts r)) as [[|s l]|];
    cbn; split; try reflexivity; try discriminate; now split.
Qed.

(** A search that fails is shown as a search without results: when the
    request is rejected the displayed list is empty, and whenever the
    displayed list is empty after a search the empty state is visible
    with the message 'No results for "query"'.  The message 'Search
    failed' that the catch block writes is overwritten before the
    function returns. *)
Theorem failed_search_shows_no_results r net st :
  let st1 := searchSettled r net st in
  (RadioAPI.search net (req_base r) (req_opts r) = RadioAPI.Rejected ->
   displayedStations st1 = []) /\
  (displayedStations st1 = [] ->
   emptyShown st1 = true /\
   emptyMessage st1
   = ("No results for " ++ quoted (RadioAPI.query (req_opts r)),
      "Try a different name, genre, or country") /\
   fst (emptyMessage st1) <> "Search failed") /\
  loadingShown st1 = false /\
  rendered st1 = displayedStations st1.
Proof.
  cbv zeta. destruct (searchSettled_empty r net st) as [Hd He].
  destruct (searchSettled_list r net st) as (_ & Hr & Hl & _).
  split; [|split; [|split; assumption]].
  - intros Hrej. rewrite Hd, Hrej. reflexivity.
  - intros Hnil. destruct (He Hnil) as [H1 H2]. split; [assumption|].
    split; [assumption|]. rewrite H2. cbn. discriminate.
Qed.

Lemma failed_search_shows_no_results_witness :
  let st1 := searchSettled MoreSamples.emptySearch MoreSamples.deadNet
               Samples.app in
  displayedStations st1 = [] /\
  emptyMessage st1
  = ("No results for " ++ quoted EmptyString,
     "Try a different name, genre, or country").
Proof.
  cbv zeta.
  destruct (failed_search_shows_no_results MoreSamples.emptySearch
              MoreSamples.deadNet Samples.app) as (Hrej & Hmsg & _).
  assert (Hd : displayedStations
                 (searchSettled MoreSamples.emptySearch MoreSamples.deadNet
                    Samples.app) = [])
    by (apply Hrej; reflexivity).
  split; [exact Hd|]. destruct (Hmsg Hd) as (_ & Hm & _). exact Hm.
Defined.

Lemma onClear_sched st :
  timers (onClear st) = timers st /\
  searchDebounce (onClear st) = searchDebounce st /\
  searchLog (onClear st) = searchLog st /\
  clock (onClear st) = clock st /\
  searchQuery (onClear st) = EmptyString /\
  showingFavourites (onClear st) = true.
Proof.
  unfold onClear. cbv zeta.
  match goal with |- context [enterFavouritesMode ?s] =>
    destruct (enterFavouritesMode_frame s) as (_ & Hs & _);
    pose proof (enterFavouritesMode_mode s) as Hm
  end.
  apply sched_fields in Hs. destruct Hs as (H1 & H2 & H3 & H4 & H5 & _).
  apply modeView_fields_of in Hm. destruct Hm as (M1 & _).
  rewrite H1, H2, H3, H4, H5, M1. repeat split.
Qed.

Lemma clearTimeout_only id due st :
  timers st = [(id, due)] ->
  timers (clearTimeout (Some id) st) = [] /\
  searchQuery (clearTimeout (Some id) st) = searchQuery st /\
  clock (clearTimeout (Some id) st) = clock st /\
  searchLog (clearTimeout (Some id) st) = searchLog st /\
  modeView (clearTimeout (Some id) st) = modeView st.
Proof.
  intros T. unfold clearTimeout.
  change (timers (set_timers
            (filter (fun t => negb (fst t =? id)%nat) (timers st)) st))
    with (filter (fun t => negb (fst t =? id)%nat) (timers st)).
  rewrite T. cbn [filter fst]. rewrite Nat.eqb_refl. cbn [negb].
  repeat split.
Qed.

(** A due timer fires: the search for the trimmed text starts. *)
Lemma fire_due id due st :
  timers st = [(id, due)] -> due <= clock st ->
  let st1 := step st (Fire id) in
  timers st1 = [] /\
  searchLog st1 = (searchLog st ++ [(clock st, trim (searchQuery st))])%list /\
  showingFavourites st1 = showingFavourites st /\
  rendered st1 = [] /\ loadingShown st1 = true.
Proof.
  intros T Hdue. cbv zeta. cbn [step].
  assert (Hd : dueTimer id st = true).
  { unfold dueTimer. rewrite T. cbn [existsb fst snd].
    rewrite Nat.eqb_refl, orb_false_r. cbn [andb]. now apply Nat.leb_le. }
  rewrite Hd. unfold onDebounce.
  destruct (clearTimeout_only id due st T) as (T' & Q' & K' & L' & M').
  generalize dependent (clearTimeout (Some id) st). intros s2 T' Q' K' L' M'.
  destruct (runApiSearch_frame (trim (searchQuery s2)) s2)
    as (R1 & _ & _ & _ & R5).
  destruct (runApiSearch_list (trim (searchQuery s2)) s2)
    as (_ & _ & R3 & R4).
  pose proof (runApiSearch_mode (trim (searchQuery s2)) s2) as Rm.
  apply modeView_fields in Rm. destruct Rm as (M1 & _).
  apply modeView_fields in M'. destruct M' as (M2 & _).
  rewrite R1, R5, M1, R3, R4, T', K', L', Q', M2. repeat split.
Qed.

Lemma elapse_fields ms st :
  timers (step st (Elapse ms)) = timers st /\
  clock (step st (Elapse ms)) = clock st + ms /\
  searchQuery (step st (Elapse ms)) = searchQuery st /\
  searchLog (step st (Elapse ms)) = searchLog st /\
  showingFavourites (step st (Elapse ms)) = showingFavourites st.
Proof. repeat split. Qed.

(** The clear button does not cancel a scheduled search.  With a debounce
    timer pending, a click on the clear button leaves it pending; when it
    is due it fires and starts a search for the empty text, and the grid
    of favourites gives way to the loading state although the application
    stays in favourites mode. *)
Theorem clear_keeps_scheduled_search st id due ms :
  timers st = [(id, due)] ->
  due <= clock st + ms ->
  let st1 := step st ClearClick in
  let st3 := run st1 [Elapse ms; Fire id] in
  timers st1 = [(id, due)] /\
  showingFavourites st1 = true /\
  timers st3 = [] /\
  searchLog st3 = (searchLog st ++ [(clock st + ms, EmptyString)])%list /\
  showingFavourites st3 = true /\
  rendered st3 = [] /\ loadingShown st3 = true.
Proof.
  intros Ht Hdue. cbv zeta.
  change (step st ClearClick) with (onClear st).
  destruct (onClear_sched st) as (C1 & C2 & C3 & C4 & C5 & C6).
  generalize dependent (onClear st). intros s1 C1 C2 C3 C4 C5 C6.
  split; [congruence|]. split; [assumption|].
  change (run s1 [Elapse ms; Fire id])
    with (step (step s1 (Elapse ms)) (Fire id)).
  destruct (elapse_fields ms s1) as (E1 & E2 & E3 & E4 & E5).
  generalize dependent (step s1 (Elapse ms)). intros s2 E1 E2 E3 E4 E5.
  destruct (fire_due id due s2) as (F1 & F2 & F3 & F4 & F5);
    [congruence | lia |].
  rewrite F1, F2, F3, F4, F5, E3, E4, E5, E2, C3, C4, C5, C6.
  repeat split.
Qed.

Lemma clear_keeps_scheduled_search_witness :
  let st3 := run (step MoreSamples.typing ClearClick) [Elapse 320; Fire 0] in
  searchLog st3 = [(320, EmptyString)] /\
  showingFavourites st3 = true /\ rendered st3 = [].
Proof.
  cbv zeta.
  destruct (clear_keeps_scheduled_search MoreSamples.typing 0 320 320)
    as (_ & _ & _ & Hl & Hf & Hr & _).
  - vm_compute. reflexivity.
  - vm_compute. repeat constructor.
  - split; [|split; assumption].
    rewrite Hl. vm_compute. reflexivity.
Defined.

(** Taking the heart off a station in favourites mode removes it from
    view at once: for a favourite that is no default, the card listener
    removes it from the favourites, the badge shows the new count, and no
    displayed or rendered station has its id any more. *)
Theorem unfavourite_disappears st station choice :
  showingFavourites st = true ->
  Favorites.has (favs st) (Station.id station) = true ->
  Favorites.isDefault (Station.id station) = false ->
  let st1 := onCardFav station choice st in
  Favorites.has (favs st1) (Station.id station) = false /\
  badge st1 = Favorites.count (favs st1) /\
  ~ In (Station.id station) (map Station.id (displayedStations st1)) /\
  rendered st1 = displayedStations st1.
Proof.
  intros Hs Hh Hd. cbv zeta. unfold onCardFav. rewrite Hh.
  set (f1 := Favorites.toggle (Station.id station) None None (favs st)).
  pose proof (updateFavBadge_mode (set_favs f1 st)) as Hm.
  apply modeView_fields_of in Hm.
  destruct Hm as (_ & _ & _ & _ & M5 & M6 & M7 & _).
  assert (Hgone : Favorites.has f1 (Station.id station) = false).
  { unfold Favorites.has, f1.
    destruct (toggle_removes (Station.id station) None None (favs st) Hh Hd)
      as [Hf _].
    rewrite Hf. apply has_delete_same. }
  rewrite M7, M6. cbn [favs set_favs].
  split; [exact Hgone|]. split; [reflexivity|].
  unfold updateFavBadge. cbv zeta.
  change (showingFavourites (set_badge (Favorites.count (favs (set_favs f1 st)))
                               (set_favs f1 st)))
    with (showingFavourites st).
  rewrite Hs.
  match goal with |- context [showFavourites ?s] =>
    destruct (showFavourites_shows s) as (S1 & _ & S3) end.
  rewrite S3, S1. split; [|reflexivity].
  cbn [favs set_favs set_badge]. intros Hin. apply in_map_iff in Hin.
  destruct Hin as (s & Hid & Hs').
  unfold favouritesView in Hs'. apply in_map_iff in Hs'.
  destruct Hs' as (s0 & <- & Hs0). apply filter_In in Hs0.
  destruct Hs0 as [_ Hp]. apply andb_true_iff in Hp. destruct Hp as [Hp _].
  rewrite withDefaultLanguage_keeps_id in Hid. rewrite Hid in Hp.
  unfold Favorites.has in Hgone.
  change (favs (set_badge (Favorites.count f1) (set_favs f1 st))) with f1 in Hp.
  congruence.
Qed.

Lemma unfavourite_disappears_witness :
  let st1 := onCardFav Samples.jazz None Samples.app in
  ~ In "api-u1" (map Station.id (displayedStations st1)) /\
  In "api-u1" (map Station.id (displayedStations Samples.app)).
Proof.
  cbv zeta. split.
  - destruct (unfavourite_disappears Samples.app Samples.jazz None)
      as (_ & _ & H & _); try (vm_compute; reflexivity). exact H.
  - vm_compute. tauto.
Defined.

End SearchEdges.

(* ===================================================================== *)
(** ** The language picker *)
(* ===================================================================== *)

Section LanguagePicker.
Import JS FavDialog.

Lemma settledIds_snoc st p lang :
  map fst (resolved st ++ [(p, lang)]) = (settledIds st ++ [p])%list.
Proof. unfold settledIds. now rewrite map_app. Qed.

Lemma NoDup_snoc {A} (l : list A) x : NoDup l -> ~ In x l -> NoDup (l ++ [x]).
Proof.
  intros Hl Hx. apply NoDup_app; [assumption | repeat constructor; intros [] |].
  intros a Ha [<- | []]. contradiction.
Qed.

Lemma close_sound lang st : sound st -> sound (close lang st).
Proof.
  intros (Hn & Hb & Hr). unfold close.
  destruct (_resolve st) as [p|]; unfold sound, settledIds in *;
    cbn [_resolve modalHidden promises resolved].
  - destruct Hr as (Hp & Hfresh & _). rewrite map_app. cbn [map fst].
    split; [now apply NoDup_snoc|]. split; [|exact I].
    intros q Hq. apply in_app_or in Hq.
    destruct Hq as [Hq | [<- | []]]; [now apply Hb | lia].
  - now repeat split.
Qed.

Lemma step_sound st e : sound st -> sound (step st e).
Proof.
  intros H. destruct e; cbn [step]; try now apply close_sound.
  - destruct H as (Hn & Hb & _). unfold sound, show, settledIds in *.
    cbn [_resolve modalHidden promises resolved].
    split; [assumption|]. split.
    + intros p Hp. specialize (Hb p Hp). lia.
    + split; [reflexivity|]. split; [|reflexivity].
      intros Hin. specialize (Hb _ Hin). lia.
  - destruct (negb (modalHidden st)); [now apply close_sound | assumption].
Qed.

Lemma run_sound evs st : sound st -> sound (run st evs).
Proof.
  revert st. induction evs as [|e evs IH]; intros st H; [assumption|].
  change (run st (e :: evs)) with (run (step st e) evs).
  apply IH. now apply step_sound.
Qed.

Lemma init_sound hidden name : sound (init hidden name).
Proof.
  unfold sound, settledIds. cbn. split; [constructor|].
  split; [intros p []|exact I].
Qed.

(** In every run of the picker no promise is resolved twice, and while a
    dialog is open the modal is visible, so that the Escape key, like the
    cancel button, the backdrop and a language button, closes it and
    resolves the promise of that dialog, Escape with null. *)
Theorem dialog_resolves_once hidden name evs :
  let st := run (init hidden name) evs in
  NoDup (settledIds st) /\
  forall p, _resolve st = Some p ->
    modalHidden st = false /\
    ~ In p (settledIds st) /\
    resolved (step st EscapeKey) = (resolved st ++ [(p, None)])%list /\
    modalHidden (step st EscapeKey) = true /\
    _resolve (step st EscapeKey) = None /\
    forall lang,
      resolved (step st (OptionClick lang))
      = (resolved st ++ [(p, lang)])%list.
Proof.
  cbv zeta. destruct (run_sound evs _ (init_sound hidden name))
    as (Hn & _ & Hr).
  split; [exact Hn|]. intros p Hp. rewrite Hp in Hr.
  destruct Hr as (_ & Hfresh & Hh).
  split; [exact Hh|]. split; [exact Hfresh|].
  cbn [step]. rewrite Hh. cbn [negb]. unfold close. rewrite Hp.
  now repeat split.
Qed.

Lemma dialog_resolves_once_witness :
  let st := run (init true EmptyString) [Show "Jazz FM"] in
  _resolve st = Some 0 /\
  resolved (step st EscapeKey) = [(0, None)] /\
  resolved (step st (OptionClick (Some "English"))) = [(0, Some "English")].
Proof.
  cbv zeta.
  destruct (dialog_resolves_once true EmptyString [Show "Jazz FM"])
    as [_ H].
  destruct (H 0 eq_refl) as (_ & _ & He & _ & _ & Ho).
  split; [reflexivity|]. split; [exact He | exact (Ho (Some "English"))].
Defined.

Lemma step_orphan p st e : orphan p st -> orphan p (step st e).
Proof.
  intros (Hlt & Hne & Hfresh).
  assert (Hclose : forall lang, orphan p (close lang st)).
  { intros lang. unfold orphan, close, settledIds in *.
    destruct (_resolve st) as [q|] eqn:E;
      cbn [_resolve promises resolved]; (split; [assumption|]);
      (split; [discriminate|]); [|assumption].
    rewrite map_app. cbn [map fst]. intros Hin. apply in_app_or in Hin.
    destruct Hin as [Hin | [<- | []]]; [contradiction | now apply Hne]. }
  destruct e; cbn [step]; try apply Hclose.
  - unfold orphan, show, settledIds in *. cbn [_resolve promises resolved].
    split; [lia|]. split; [|assumption]. intros E. injection E as E. lia.
  - destruct (negb (modalHidden st)); [apply Hclose | now repeat split].
Qed.

Lemma run_orphan p evs st : orphan p st -> orphan p (run st evs).
Proof.
  revert st. induction evs as [|e evs IH]; intros st H; [assumption|].
  change (run st (e :: evs)) with (run (step st e) evs).
  apply IH. now apply step_orphan.
Qed.

(** A second [show] while a dialog is open takes the resolver away from
    the first promise: whatever happens afterwards, that promise is never
    resolved, and the listener awaiting it does not continue. *)
Theorem dialog_show_twice_orphans hidden name evs p stationName rest :
  let st := run (init hidden name) evs in
  _resolve st = Some p ->
  ~ In p (settledIds (run (step st (Show stationName)) rest)).
Proof.
  cbv zeta. intros Hp.
  destruct (run_sound evs _ (init_sound hidden name)) as (_ & _ & Hr).
  rewrite Hp in Hr. destruct Hr as (Hs & Hfresh & _).
  apply (run_orphan p rest). unfold orphan, show, settledIds in *.
  cbn [step _resolve promises resolved show].
  split; [lia|]. split; [|assumption]. intros E. injection E as E. lia.
Qed.

Lemma dialog_show_twice_orphans_witness :
  ~ In 0 (settledIds
            (run (init true EmptyString)
               [Show "Jazz FM"; Show "Rock One";
                OptionClick (Some "English"); CancelClick])).
Proof.
  apply (dialog_show_twice_orphans true EmptyString [Show "Jazz FM"] 0
           "Rock One" [OptionClick (Some "English"); CancelClick]).
  reflexivity.
Defined.

End LanguagePicker.

(* ===================================================================== *)
(** ** More on the HTML escape *)
(* ===================================================================== *)

Section EscapeMore.
Import JS StationsUI PlainText.

Lemma app_assoc_string (a b c : string) : (a ++ b) ++ c = a ++ (b ++ c).
Proof. induction a as [|x a IH]; cbn; [reflexivity | now rewrite IH]. Qed.

Lemma escapeHtmlString_app a b :
  escapeHtmlString (a ++ b) = escapeHtmlString a ++ escapeHtmlString b.
Proof.
  induction a as [|c a IH]; [reflexivity|].
  cbn [append]. rewrite !escapeHtmlString_cons, IH.
  now rewrite app_assoc_string.
Qed.

Lemma escapeChar_plain c :
  Ascii.eqb c "&" = false -> isRaw c = false ->
  escapeChar c = String c EmptyString.
Proof.
  intros Ha Hr. unfold escapeChar, isRaw in *. rewrite Ha.
  repeat match type of Hr with
         | (_ || _)%bool = false =>
             apply orb_false_elim in Hr; destruct Hr as [Hr ?]
         end.
  repeat match goal with H : Ascii.eqb _ _ = false |- _ => rewrite H; clear H end.
  reflexivity.
Qed.

(** The escape works piece by piece and leaves plain text alone: the
    escape of a concatenation is the concatenation of the escapes, and a
    text without &, <, >, double quote and apostrophe is returned as it
    is. *)
Theorem escapeHtml_piecewise a b :
  escapeHtmlString (a ++ b) = escapeHtmlString a ++ escapeHtmlString b /\
  (plain a = true -> escapeHtml (VString a) = VString a).
Proof.
  split; [apply escapeHtmlString_app|].
  intros Hp. cbn [escapeHtml]. f_equal.
  induction a as [|c a IH]; [reflexivity|].
  cbn [plain] in Hp. apply andb_true_iff in Hp. destruct Hp as [Hc Ha].
  apply andb_true_iff in Hc. destruct Hc as [H1 H2].
  apply negb_true_iff in H1, H2.
  rewrite escapeHtmlString_cons, (escapeChar_plain c H1 H2), (IH Ha).
  reflexivity.
Qed.

Lemma escapeHtml_piecewise_witness :
  escapeHtml (VString "Radio 1 - Live") = VString "Radio 1 - Live".
Proof.
  apply (proj2 (escapeHtml_piecewise "Radio 1 - Live" EmptyString)).
  reflexivity.
Defined.

(** What one character becomes, by cases. *)
Lemma escapeChar_cases c :
  (c = "&"%char /\ escapeChar c = "&amp;") \/
  (c = "<"%char /\ escapeChar c = "&lt;") \/
  (c = ">"%char /\ escapeChar c = "&gt;") \/
  (c = dquote /\ escapeChar c = "&quot;") \/
  (c = "'"%char /\ escapeChar c = "&#039;") \/
  (c <> "&"%char /\ escapeChar c = String c EmptyString).
Proof.
  unfold escapeChar.
  destruct (Ascii.eqb_spec c "&"); [subst; now left|].
  destruct (Ascii.eqb_spec c "<"); [subst; right; now left|].
  destruct (Ascii.eqb_spec c ">"); [subst; right; right; now left|].
  destruct (Ascii.eqb_spec c dquote); [subst; right; right; right; now left|].
  destruct (Ascii.eqb_spec c "'");
    [subst; right; right; right; right; now left|].
  repeat right. now split.
Qed.

Lemma escapeChar_app_inj c1 c2 x y :
  escapeChar c1 ++ x = escapeChar c2 ++ y -> c1 = c2 /\ x = y.
Proof.
  intros H.
  destruct (escapeChar_cases c1) as [[-> E1]|[[-> E1]|[[-> E1]|[[-> E1]|[[-> E1]|[N1 E1]]]]]];
  destruct (escapeChar_cases c2) as [[-> E2]|[[-> E2]|[[-> E2]|[[-> E2]|[[-> E2]|[N2 E2]]]]]];
  rewrite ?E1, ?E2 in H; cbn in H;
  try discriminate H;
  try (injection H as H; subst; now split);
  try (injection H as H0 H; subst; first [now split | congruence]).
Qed.

Lemma escapeChar_app_nonempty c x : escapeChar c ++ x <> EmptyString.
Proof.
  destruct (escapeChar_cases c) as [[_ E]|[[_ E]|[[_ E]|[[_ E]|[[_ E]|[_ E]]]]]];
    rewrite E; discriminate.
Qed.

(** The escape loses nothing: two different texts never have the same
    escape. *)
Theorem escapeHtml_injective a b :
  escapeHtml (VString a) = escapeHtml (VString b) -> a = b.
Proof.
  cbn [escapeHtml]. intros H. injection H as H. revert b H.
  induction a as [|c a IH]; intros [|d b] H.
  - reflexivity.
  - rewrite escapeHtmlString_cons in H. symmetry in H.
    now apply escapeChar_app_nonempty in H.
  - rewrite escapeHtmlString_cons in H.
    now apply escapeChar_app_nonempty in H.
  - rewrite !escapeHtmlString_cons in H.
    apply escapeChar_app_inj in H. destruct H as [-> H].
    f_equal. now apply IH.
Qed.

Lemma escapeHtml_injective_witness : "R&B" = "R&B".
Proof.
  apply (escapeHtml_injective "R&B" "R&B"). reflexivity.
Defined.

End EscapeMore.
